(** * WebmOpusDemuxer: a shallow embedding of [src/demuxers/WebmOpus.js]

    The demuxer is a Node [Transform] stream.  Every chunk written to it goes
    through [_transform], which walks the EBML tags of the bytes received so
    far with [_readTag] and pushes the Opus frames of the audio track to the
    readable side.

    The embedding keeps the shape of the JavaScript source:
    - a [Buffer] is a list of bytes, indexed by integers ([Z]); reading out
      of range gives [undefined], modelled by [None];
    - JavaScript numbers are integers of [Z] or [NaN]; the 32-bit operators
      [<<] and [&] wrap as ECMAScript's ToInt32 does, and additions are
      exact (the rounding of doubles above [2^53] is left out);
    - the symbol [TOO_SHORT] is a constructor of its own ([short]);
    - the fields of [this] are a record, [Demuxer], threaded through a small
      state-and-exception monad; [this.push] appends to the field [pushed];
    - the [while] loop of [_transform] takes fuel. *)

From Stdlib Require Import ZArith List String Ascii Bool Lia.
From Stdlib Require Import Strings.Byte.
Import ListNotations.
Open Scope Z_scope.

(** ** JavaScript numbers and 32-bit operators *)

Inductive jsnumber : Type :=
| NaN
| Num (z : Z).

(** ECMAScript ToInt32 on an integer. *)
Definition toInt32 (z : Z) : Z := (z + 2 ^ 31) mod 2 ^ 32 - 2 ^ 31.

(** ToInt32 on a number: [NaN] becomes 0. *)
Definition toInt32n (n : jsnumber) : Z :=
  match n with
  | NaN => 0
  | Num z => toInt32 z
  end.

(** ToNumber on the result of an indexed read: [undefined] becomes [NaN]. *)
Definition toNumber (v : option Z) : jsnumber :=
  match v with
  | None => NaN
  | Some z => Num z
  end.

(** [a << n]: the shift count is taken modulo 32, the result is an int32. *)
Definition js_shl (a n : Z) : Z := toInt32 (Z.shiftl (toInt32 a) (n mod 32)).

(** [a & b] on int32 operands. *)
Definition js_and (a b : Z) : Z := Z.land (toInt32 a) (toInt32 b).

(** [a + b] on numbers. *)
Definition nadd (a b : jsnumber) : jsnumber :=
  match a, b with
  | Num x, Num y => Num (x + y)
  | _, _ => NaN
  end.

(** [a > b] on numbers: false as soon as one side is [NaN]. *)
Definition ngt (a b : jsnumber) : bool :=
  match a, b with
  | Num x, Num y => x >? y
  | _, _ => false
  end.

(** Truthiness of a number: neither 0 nor [NaN]. *)
Definition truthy (n : jsnumber) : bool :=
  match n with
  | NaN => false
  | Num z => negb (z =? 0)
  end.

(** ** Buffers *)

Definition Buffer : Type := list byte.

Definition byteval (b : byte) : Z := Z.of_N (Byte.to_N b).

(** [buffer.length] *)
Definition blen (b : Buffer) : Z := Z.of_nat (List.length b).

(** [buffer[i]]: [undefined] outside [0 .. length-1]. *)
Definition at_ (b : Buffer) (i : Z) : option Z :=
  if i <? 0 then None else option_map byteval (nth_error b (Z.to_nat i)).

(** Node's [adjustOffset], used by [Buffer.prototype.slice]: a negative
    offset counts from the end, everything is clamped to [0 .. length]. *)
Definition adjustOffset (offset : jsnumber) (length : Z) : Z :=
  match offset with
  | NaN => 0
  | Num o =>
      if o =? 0 then 0
      else if o <? 0 then (if o + length >? 0 then o + length else 0)
      else if o <? length then o
      else length
  end.

(** [buffer.slice(start, end)] *)
Definition slice (b : Buffer) (start end_ : jsnumber) : Buffer :=
  let s := adjustOffset start (blen b) in
  let e := adjustOffset end_ (blen b) in
  let newLength := if e >? s then e - s else 0 in
  firstn (Z.to_nat newLength) (skipn (Z.to_nat s) b).

(** [buffer.slice(start)] *)
Definition slice_from (b : Buffer) (start : jsnumber) : Buffer :=
  let s := adjustOffset start (blen b) in
  let e := blen b in
  let newLength := if e >? s then e - s else 0 in
  firstn (Z.to_nat newLength) (skipn (Z.to_nat s) b).

(** [a.equals(b)] *)
Definition buffer_equals (a b : Buffer) : bool :=
  if list_eq_dec Byte.byte_eq_dec a b then true else false.

(** [buffer.toString('hex')] *)
Definition hexdigit (d : Z) : ascii :=
  match d with
  | 0 => "0" | 1 => "1" | 2 => "2" | 3 => "3"
  | 4 => "4" | 5 => "5" | 6 => "6" | 7 => "7"
  | 8 => "8" | 9 => "9" | 10 => "a" | 11 => "b"
  | 12 => "c" | 13 => "d" | 14 => "e" | _ => "f"
  end%char.

Fixpoint toHex (b : Buffer) : string :=
  match b with
  | [] => EmptyString
  | x :: rest =>
      String (hexdigit (byteval x / 16))
        (String (hexdigit (byteval x mod 16)) (toHex rest))
  end.

(** [const OPUS_HEAD = Buffer.from([...'OpusHead'].map(x => x.charCodeAt(0)))] *)
Definition OPUS_HEAD : Buffer :=
  map byte_of_ascii (list_ascii_of_string "OpusHead").

(** ** The symbol [TOO_SHORT] *)

Inductive short (A : Type) : Type :=
| TOO_SHORT
| Val (a : A).
Arguments TOO_SHORT {A}.
Arguments Val {A} a.

(** ** The tag table

    [TAGS] maps the hex form of an EBML ID to a boolean: whether the element
    has children. *)
Definition TAGS : list (string * bool) :=
  [ ("1a45dfa3", true);   (* EBML *)
    ("18538067", true);   (* Segment *)
    ("1f43b675", true);   (* Cluster *)
    ("1654ae6b", true);   (* Tracks *)
    ("ae", true);         (* TrackEntry *)
    ("d7", false);        (* TrackNumber *)
    ("83", false);        (* TrackType *)
    ("a3", false);        (* SimpleBlock *)
    ("63a2", false) ]%string.

(** [TAGS[key]]: [None] is [undefined]. *)
Fixpoint lookup (key : string) (table : list (string * bool)) : option bool :=
  match table with
  | [] => None
  | (k, v) :: rest => if String.eqb key k then Some v else lookup key rest
  end.

(** ** Variable-length integers *)

(** The scan of [vintLength]:
    [for (; i < 8; i++) if ((1 << (7 - i)) & buffer[index]) break;]
    [todo] counts the iterations left, so that [i + todo = 8]. *)
Fixpoint vint_scan (todo : nat) (i : Z) (b : option Z) : Z :=
  match todo with
  | O => i
  | S k =>
      if truthy (Num (js_and (js_shl 1 (7 - i)) (toInt32n (toNumber b))))
      then i
      else vint_scan k (i + 1) b
  end.

Definition vintLength (buffer : Buffer) (index : Z) : short Z :=
  let i := vint_scan 8 0 (at_ buffer index) in
  let i := i + 1 in
  if index + i >? blen buffer then TOO_SHORT else Val i.

(** The loop of [expandVint]:
    [for (let i = start + 1; i < end; i++) value = (value << 8) + buffer[i];]
    [todo] is the number of iterations left, [end - i]. *)
Fixpoint expand_loop (todo : nat) (buffer : Buffer) (i : Z) (value : jsnumber)
  : jsnumber :=
  match todo with
  | O => value
  | S k =>
      expand_loop k buffer (i + 1)
        (nadd (Num (js_shl (toInt32n value) 8)) (toNumber (at_ buffer i)))
  end.

Definition expandVint (buffer : Buffer) (start end_ : Z) : short jsnumber :=
  match vintLength buffer start with
  | TOO_SHORT => TOO_SHORT
  | Val length =>
      if end_ >? blen buffer then TOO_SHORT
      else
        let mask := js_shl 1 (8 - length) - 1 in
        let value := Num (js_and (toInt32n (toNumber (at_ buffer start))) mask) in
        Val (expand_loop (Z.to_nat (end_ - (start + 1))) buffer (start + 1) value)
  end.

(** ** The state of a demuxer

    [TrackInfo] is the object held by [this._incompleteTrack] and, once an
    audio track is found, by [this._track] too (the same object: after the
    assignment [this._track = this._incompleteTrack] nothing writes to either
    field again, so the sharing cannot be observed).  A property that is
    absent or [undefined] is [None]. *)
Record TrackInfo : Type := mkTrack {
  number : option Z;
  type : option Z
}.

Record Demuxer : Type := mkDemuxer {
  _remainder : option Buffer;       (* null or a Buffer *)
  _length : Z;
  _count : Z;
  _skipUntil : option Z;            (* null or a number *)
  _track : option TrackInfo;        (* null or an object *)
  _incompleteTrack : TrackInfo;
  _ebmlFound : bool;
  pushed : list Buffer              (* what [this.push] has sent downstream *)
}.

(** The constructor. *)
Definition init : Demuxer :=
  {| _remainder := None; _length := 0; _count := 0; _skipUntil := None;
     _track := None; _incompleteTrack := mkTrack None None;
     _ebmlFound := false; pushed := [] |}.

Definition set_remainder (v : option Buffer) (s : Demuxer) : Demuxer :=
  mkDemuxer v (_length s) (_count s) (_skipUntil s) (_track s)
    (_incompleteTrack s) (_ebmlFound s) (pushed s).
Definition set_length (v : Z) (s : Demuxer) : Demuxer :=
  mkDemuxer (_remainder s) v (_count s) (_skipUntil s) (_track s)
    (_incompleteTrack s) (_ebmlFound s) (pushed s).
Definition set_count (v : Z) (s : Demuxer) : Demuxer :=
  mkDemuxer (_remainder s) (_length s) v (_skipUntil s) (_track s)
    (_incompleteTrack s) (_ebmlFound s) (pushed s).
Definition set_skipUntil (v : option Z) (s : Demuxer) : Demuxer :=
  mkDemuxer (_remainder s) (_length s) (_count s) v (_track s)
    (_incompleteTrack s) (_ebmlFound s) (pushed s).
Definition set_track (v : option TrackInfo) (s : Demuxer) : Demuxer :=
  mkDemuxer (_remainder s) (_length s) (_count s) (_skipUntil s) v
    (_incompleteTrack s) (_ebmlFound s) (pushed s).
Definition set_incompleteTrack (v : TrackInfo) (s : Demuxer) : Demuxer :=
  mkDemuxer (_remainder s) (_length s) (_count s) (_skipUntil s) (_track s)
    v (_ebmlFound s) (pushed s).
Definition set_ebmlFound (v : bool) (s : Demuxer) : Demuxer :=
  mkDemuxer (_remainder s) (_length s) (_count s) (_skipUntil s) (_track s)
    (_incompleteTrack s) v (pushed s).
Definition push (data : Buffer) (s : Demuxer) : Demuxer :=
  mkDemuxer (_remainder s) (_length s) (_count s) (_skipUntil s) (_track s)
    (_incompleteTrack s) (_ebmlFound s) (pushed s ++ [data]).

(** ** A monad for methods: state, exceptions and fuel *)

Inductive outcome (A : Type) : Type :=
| Ok (a : A) (s : Demuxer)          (* normal return *)
| Throw (e : string) (s : Demuxer)  (* [throw Error(e)], with the state then *)
| OutOfFuel.                        (* the model ran out of fuel *)
Arguments Ok {A} a s.
Arguments Throw {A} e s.
Arguments OutOfFuel {A}.

Definition M (A : Type) : Type := Demuxer -> outcome A.

Definition ret {A : Type} (a : A) : M A := fun s => Ok a s.

Definition bind {A B : Type} (m : M A) (k : A -> M B) : M B :=
  fun s =>
    match m s with
    | Ok a s' => k a s'
    | Throw e s' => Throw e s'
    | OutOfFuel => OutOfFuel
    end.

Definition throw {A : Type} (e : string) : M A := fun s => Throw e s.
Definition this : M Demuxer := fun s => Ok s s.
Definition modify (f : Demuxer -> Demuxer) : M unit := fun s => Ok tt (f s).
Definition when (c : bool) (m : M unit) : M unit := if c then m else ret tt.

Declare Scope js_scope.
Delimit Scope js_scope with js.
Notation "x <- m ;; k" := (bind m (fun x => k))
  (at level 61, m at next level, right associativity) : js_scope.
Notation "m ;; k" := (bind m (fun _ => k))
  (at level 61, right associativity) : js_scope.
Open Scope js_scope.

(** ** Error messages *)

Definition EBML_NOT_FOUND : string :=
  "Did not find the EBML tag at the start of the stream".
Definition NOT_OPUS : string := "Audio codec is not Opus!".
Definition NO_AUDIO_TRACK : string := "No audio track in this webm!".
(** What the engine throws when a Symbol meets [+]. *)
Definition SYMBOL_TO_NUMBER : string :=
  "Cannot convert a Symbol value to a number".

(** [offset + dataLength], where [dataLength] is what [expandVint] gave. *)
Definition add_dataLength (offset : Z) (dataLength : short jsnumber) : M jsnumber :=
  match dataLength with
  | TOO_SHORT => throw SYMBOL_TO_NUMBER
  | Val d => ret (nadd (Num offset) d)
  end.

(** ** Reading tags *)

Record IdData : Type := mkIdData {
  id : Buffer;
  id_offset : Z
}.

Definition _readEBMLId (chunk : Buffer) (offset : Z) : short IdData :=
  match vintLength chunk offset with
  | TOO_SHORT => TOO_SHORT
  | Val idLength =>
      Val {| id := slice chunk (Num offset) (Num (offset + idLength));
             id_offset := offset + idLength |}
  end.

Record SizeData : Type := mkSizeData {
  size_offset : Z;
  dataLength : short jsnumber;
  sizeLength : Z
}.

Definition _readTagDataSize (chunk : Buffer) (offset : Z) : short SizeData :=
  match vintLength chunk offset with
  | TOO_SHORT => TOO_SHORT
  | Val sizeLength =>
      let dataLength := expandVint chunk offset (offset + sizeLength) in
      Val {| size_offset := offset + sizeLength;
             dataLength := dataLength;
             sizeLength := sizeLength |}
  end.

(** What [_readTag] returns when it is not [TOO_SHORT]: the new [offset] and,
    optionally, [_skipUntil]. *)
Record TagResult : Type := mkTagResult {
  res_offset : jsnumber;
  res_skipUntil : option jsnumber
}.

(** Lines 124-131: track discovery, while no track has been found. *)
Definition discover (ebmlID : string) (data : Buffer) : M unit :=
  s <- this ;;
  match _track s with
  | Some _ => ret tt
  | None =>
      when (ebmlID =? "ae")%string
        (modify (set_incompleteTrack (mkTrack None None))) ;;
      when (ebmlID =? "d7")%string
        (modify (fun s => set_incompleteTrack
           (mkTrack (at_ data 0) (type (_incompleteTrack s))) s)) ;;
      when (ebmlID =? "83")%string
        (modify (fun s => set_incompleteTrack
           (mkTrack (number (_incompleteTrack s)) (at_ data 0)) s)) ;;
      s <- this ;;
      match type (_incompleteTrack s), number (_incompleteTrack s) with
      | Some 2, Some _ => modify (set_track (Some (_incompleteTrack s)))
      | _, _ => ret tt
      end
  end.

(** Lines 132-141: the codec check and the emission of a block. *)
Definition dispatch (ebmlID : string) (data : Buffer) : M unit :=
  if (ebmlID =? "63a2")%string then
    if negb (buffer_equals (slice data (Num 0) (Num 8)) OPUS_HEAD)
    then throw NOT_OPUS
    else ret tt
  else if (ebmlID =? "a3")%string then
    s <- this ;;
    match _track s with
    | None => throw NO_AUDIO_TRACK
    | Some track =>
        match number track with
        | Some n =>
            when (js_and (toInt32n (toNumber (at_ data 0))) 15 =? n)
              (modify (push (slice_from data (Num 4))))
        | None => ret tt
        end
    end
  else ret tt.

Definition _readTag (chunk : Buffer) (offset : Z) : M (short TagResult) :=
  match _readEBMLId chunk offset with
  | TOO_SHORT => ret TOO_SHORT
  | Val idData =>
      let ebmlID := toHex (id idData) in
      s <- this ;;
      when (negb (_ebmlFound s))
        (if (ebmlID =? "1a45dfa3")%string
         then modify (set_ebmlFound true)
         else throw EBML_NOT_FOUND) ;;
      let offset := id_offset idData in
      match _readTagDataSize chunk offset with
      | TOO_SHORT => ret TOO_SHORT
      | Val sizeData =>
          let dataLength := dataLength sizeData in
          let offset := size_offset sizeData in
          match lookup ebmlID TAGS with
          | None =>
              (* this tag isn't useful *)
              end_ <- add_dataLength offset dataLength ;;
              if ngt (Num (blen chunk)) end_
              then ret (Val (mkTagResult end_ None))
              else
                s <- this ;;
                until <- add_dataLength (_count s + offset) dataLength ;;
                ret (Val (mkTagResult (Num offset) (Some until)))
          | Some true =>
              (* the tag has children *)
              ret (Val (mkTagResult (Num offset) None))
          | Some false =>
              end_ <- add_dataLength offset dataLength ;;
              if ngt end_ (Num (blen chunk)) then ret TOO_SHORT
              else
                let data := slice chunk (Num offset) end_ in
                discover ebmlID data ;;
                dispatch ebmlID data ;;
                ret (Val (mkTagResult end_ None))
          end
      end
  end.

(** ** [_transform] *)

(** The value of an optional number when it is truthy: [undefined], [NaN]
    and 0 are not. *)
Definition truthy_value (n : option jsnumber) : option Z :=
  match n with
  | Some (Num z) => if z =? 0 then None else Some z
  | _ => None
  end.

(** The [while] loop of [_transform]; it returns the final [offset]. *)
Fixpoint walk (fuel : nat) (chunk : Buffer) (offset : Z) : M Z :=
  match fuel with
  | O => fun _ => OutOfFuel
  | S fuel' =>
      result <- _readTag chunk offset ;;
      match result with
      | TOO_SHORT => ret offset
      | Val result =>
          match truthy_value (res_skipUntil result) with
          | Some until =>
              modify (set_skipUntil (Some until)) ;; ret offset
          | None =>
              match truthy_value (Some (res_offset result)) with
              | Some o => walk fuel' chunk o
              | None => ret offset
              end
          end
      end
  end.

(** [this._skipUntil] when it is truthy. *)
Definition active_skip (s : Demuxer) : option Z :=
  truthy_value (option_map Num (_skipUntil s)).

Definition _transform (fuel : nat) (chunk : Buffer) : M unit :=
  modify (fun s => set_length (_length s + blen chunk) s) ;;
  s <- this ;;
  chunk <- match _remainder s with
           | Some remainder =>
               modify (set_remainder None) ;; ret (remainder ++ chunk)
           | None => ret chunk
           end ;;
  s <- this ;;
  match active_skip s with
  | Some until =>
      if _length s >? until then
        let offset := until - _count s in
        modify (set_skipUntil None) ;;
        offset <- walk fuel chunk offset ;;
        modify (fun s => set_count (_count s + offset) s) ;;
        modify (set_remainder (Some (slice_from chunk (Num offset))))
      else
        modify (fun s => set_count (_count s + blen chunk) s)
  | None =>
      offset <- walk fuel chunk 0 ;;
      modify (fun s => set_count (_count s + offset) s) ;;
      modify (set_remainder (Some (slice_from chunk (Num offset))))
  end.

(** Writing chunks one after the other; the stream stops at the first
    exception. *)
Fixpoint run (fuel : nat) (chunks : list Buffer) : M unit :=
  match chunks with
  | [] => ret tt
  | chunk :: rest => _transform fuel chunk ;; run fuel rest
  end.


(** ** Definitions used by the statements *)

(** Modelled from the spec: the encoder of the format's length-prefix
    convention is not part of the repository (only the reader is).  An
    integer [v < 2^(7*len)] coded on [len] bytes, [1 <= len <= 8], is the
    big-endian form of [2^(7*len) + v]: [len - 1] zero bits, the marker bit,
    then the [7*len] payload bits. *)
Definition byte_of_Z (z : Z) : byte :=
  match Byte.of_N (Z.to_N (z mod 256)) with
  | Some b => b
  | None => x00
  end.

Fixpoint be_bytes (n : nat) (x : Z) : Buffer :=
  match n with
  | O => []
  | S k => be_bytes k (x / 256) ++ [byte_of_Z x]
  end.

Definition encodeVint (len : nat) (v : Z) : Buffer :=
  be_bytes len (2 ^ (7 * Z.of_nat len) + v).

(** Reading a vint back the way [_readTagDataSize] does: [vintLength] for the
    byte length, then [expandVint] over those bytes. *)
Definition decodeVint (buffer : Buffer) (index : Z) : short jsnumber :=
  match _readTagDataSize buffer index with
  | TOO_SHORT => TOO_SHORT
  | Val sizeData => dataLength sizeData
  end.

(** A stream whose second tag (ID [ec]) has a size field that starts with an
    all-zero byte. *)
Definition zero_marker_stream : Buffer :=
  [x1a; x45; xdf; xa3; x80;
   xec; x00; x00; x00; x00; x00; x00; x00; x00; x02; xaa; xbb;
   xd7; x81; x03].

(** A stream with two track entries: a video track (number 1, type 1), then
    an entry that gives its type (2, audio) before its number; a block of
    track 1 follows. *)
Definition two_entries_stream : Buffer :=
  [x1a; x45; xdf; xa3; x80;
   xae; x86; xd7; x81; x01; x83; x81; x01;
   xae; x86; x83; x81; x02;
   xa3; x85; x81; x00; x00; x00; xaa;
   xd7; x81; x02].

(** A stream with a track entry (number 3, type 2) and three blocks that
    refer to the tracks 3, 5 and 3, and a way of cutting it into chunks. *)
Definition sample_stream : Buffer :=
  [x1a; x45; xdf; xa3; x80;
   xae; x86; xd7; x81; x03; x83; x81; x02;
   xa3; x86; x83; x00; x00; x00; xaa; xbb;
   xa3; x85; x85; x00; x00; x00; xcc;
   xa3; x85; x83; x00; x00; x00; xdd].

Definition sample_chunks : list Buffer :=
  [ [x1a];
    [x45; xdf; xa3; x80; xae];
    [];
    [x86; xd7; x81; x03; x83; x81; x02; xa3; x86; x83; x00];
    [x00; x00; xaa; xbb; xa3];
    [x85; x85; x00; x00; x00; xcc; xa3; x85; x83; x00; x00; x00];
    [xdd] ].

(** A buffer that ends inside a tag unknown to [TAGS] (ID [ec], ten bytes of
    payload declared), the chunks that follow, and the state of the demuxer
    when it reads that tag. *)
Definition skip_chunk : Buffer :=
  [x1a; x45; xdf; xa3; x80; xec; x8a; x01; x02].
Definition skip_waiting : list Buffer := [[x03; x04]; [x05]].
Definition skip_next : Buffer :=
  [x06; x07; x08; x09; x0a; xd7; x81; x03].
Definition skip_state : Demuxer := set_ebmlFound true (set_length 9 init).

(** A codec tag that does not say "OpusHead", and a block. *)
Definition vorbis_tag : Buffer :=
  [x63; xa2; x88; x56; x6f; x72; x62; x69; x73; x48; x64].
Definition block_tag : Buffer := [xa3; x85; x83; x00; x00; x00; xaa].

(** The header of the tag at [offset], the way [_readTag] reads it: the ID in
    hex, the offset of the payload and the declared length. *)
Record Header : Type := mkHeader {
  h_id : string;
  h_data : Z;
  h_len : short jsnumber
}.

Definition header (chunk : Buffer) (offset : Z) : short Header :=
  match _readEBMLId chunk offset with
  | TOO_SHORT => TOO_SHORT
  | Val idData =>
      match _readTagDataSize chunk (id_offset idData) with
      | TOO_SHORT => TOO_SHORT
      | Val sizeData =>
          Val (mkHeader (toHex (id idData)) (size_offset sizeData)
                 (dataLength sizeData))
      end
  end.

(** A well-formed stream: walking it tag by tag from [pos] (a tag with
    children is entered, any other tag is stepped over), every tag that is
    not entered declares a length that [expandVint] reads as a number that is
    not negative.  The stream may stop anywhere, also in the middle of a tag.
    [fuel] bounds the number of tags walked. *)
Fixpoint well_formed_from (fuel : nat) (stream : Buffer) (pos : Z) : bool :=
  match fuel with
  | O => false
  | S fuel' =>
      match header stream pos with
      | TOO_SHORT => true
      | Val h =>
          match lookup (h_id h) TAGS with
          | Some true => well_formed_from fuel' stream (h_data h)
          | _ =>
              match h_len h with
              | Val (Num d) =>
                  (0 <=? d) && well_formed_from fuel' stream (h_data h + d)
              | _ => false
              end
          end
      end
  end.

Definition well_formed (stream : Buffer) : Prop :=
  well_formed_from (S (List.length stream)) stream 0 = true.

(** What can be seen of a run from outside: the units pushed downstream, in
    order, and the exception if there was one. *)
Definition observed {A : Type} (x : outcome A)
  : option (list Buffer * option string) :=
  match x with
  | Ok _ s => Some (pushed s, None)
  | Throw e s => Some (pushed s, Some e)
  | OutOfFuel => None
  end.

(** An accumulator that line 128 promotes to [_track]. *)
Definition promotable (t : TrackInfo) : Prop :=
  type t = Some 2 /\ number t <> None.

(** While no track has been found, the accumulator is not promotable: every
    state of a demuxer satisfies this (see [consistent_run]). *)
Definition consistent (s : Demuxer) : Prop :=
  _track s = None -> ~ promotable (_incompleteTrack s).

(** The check of [_ebmlFound] at the start of [_readTag]: whether it throws,
    and the state it leaves otherwise. *)
Definition gate_fails (s : Demuxer) (ebmlID : string) : bool :=
  negb (_ebmlFound s) && negb (ebmlID =? "1a45dfa3")%string.

Definition gate (s : Demuxer) : Demuxer :=
  if _ebmlFound s then s else set_ebmlFound true s.

(** The bytes kept from the previous chunks. *)
Definition pending (r : option Buffer) : Buffer :=
  match r with
  | Some x => x
  | None => []
  end.

(** [s] is in step with the bytes [P] received so far: [_length] counts
    them, [_count] is the position in [P] of the first byte kept in
    [_remainder], and [_remainder] holds the bytes from there on. *)
Definition synced (s : Demuxer) (P : Buffer) : Prop :=
  _length s = blen P
  /\ 0 <= _count s <= blen P
  /\ pending (_remainder s) = skipn (Z.to_nat (_count s)) P.

(** A tag as bytes: its ID, the length of its payload as a vint of [len]
    bytes, its payload. *)
Definition element (idb : Buffer) (len : nat) (payload : Buffer) : Buffer :=
  idb ++ encodeVint len (blen payload) ++ payload.

(** The length of [payload] can be written as a vint of [len] bytes that
    [expandVint] reads back. *)
Definition fits (len : nat) (payload : Buffer) : Prop :=
  (1 <= len <= 8)%nat
  /\ blen payload < 2 ^ (7 * Z.of_nat len)
  /\ blen payload < 2 ^ 31.

(** [data[0] & 0xF], the track a block refers to. *)
Definition low_nibble (data : Buffer) : Z :=
  js_and (toInt32n (toNumber (at_ data 0))) 15.

(** The EBML header, then a track entry with the number 3 and the type 2. *)
Definition track3_preamble : Buffer :=
  [x1a; x45; xdf; xa3; x80;
   xae; x86; xd7; x81; x03; x83; x81; x02].

Definition three_blocks (l1 l2 l3 : nat) (p1 p2 p3 : Buffer) : Buffer :=
  track3_preamble
  ++ element [xa3] l1 p1 ++ element [xa3] l2 p2 ++ element [xa3] l3 p3.

(** The EBML header and a track entry (number 3, type 2), then a tag unknown
    to [TAGS] (ID [ec]) whose length field, on eight bytes, declares
    [2^32 + 2] bytes of payload; nine bytes follow, among them a block of
    track 3. *)
Definition big_unknown_stream : Buffer :=
  track3_preamble
  ++ [xec; x01; x00; x00; x01; x00; x00; x00; x02;
      xaa; xbb; xa3; x85; x83; x00; x00; x00; xcc].

(** ** Definitions used by the proofs *)

(** The tag at [off] is entered, or declares a length that is not negative. *)
Definition tag_ok (b : Buffer) (off : Z) : Prop :=
  match header b off with
  | TOO_SHORT => True
  | Val h =>
      lookup (h_id h) TAGS = Some true
      \/ exists d, h_len h = Val (Num d) /\ 0 <= d
  end.

(** Mapping the result and the state of an outcome. *)
Definition omap {A B : Type} (g : A -> B) (F : Demuxer -> Demuxer)
  (x : outcome A) : outcome B :=
  match x with
  | Ok a s => Ok (g a) (F s)
  | Throw e s => Throw e (F s)
  | OutOfFuel => OutOfFuel
  end.

(** [F] changes nothing that [_readTag] reads or writes, but [_count], to
    which it adds [delta]. *)
Record Framing (F : Demuxer -> Demuxer) (delta : Z) : Prop := {
  fr_count : forall s, _count (F s) = _count s + delta;
  fr_track : forall s, _track (F s) = _track s;
  fr_inc : forall s, _incompleteTrack (F s) = _incompleteTrack s;
  fr_ebml : forall s, _ebmlFound (F s) = _ebmlFound s;
  fr_set_ebml : forall v s, F (set_ebmlFound v s) = set_ebmlFound v (F s);
  fr_set_inc : forall v s,
    F (set_incompleteTrack v s) = set_incompleteTrack v (F s);
  fr_set_track : forall v s, F (set_track v s) = set_track v (F s);
  fr_push : forall v s, F (push v s) = push v (F s)
}.

(** Results and headers seen from a buffer that starts [k] bytes later. *)
Definition shift_offset (k : Z) (n : jsnumber) : jsnumber :=
  match n with
  | NaN => NaN
  | Num o => Num (o - k)
  end.

Definition shift_result (k : Z) (r : short TagResult) : short TagResult :=
  match r with
  | TOO_SHORT => TOO_SHORT
  | Val r => Val (mkTagResult (shift_offset k (res_offset r)) (res_skipUntil r))
  end.

Definition shift_header (k : Z) (h : short Header) : short Header :=
  match h with
  | TOO_SHORT => TOO_SHORT
  | Val h => Val (mkHeader (h_id h) (h_data h - k) (h_len h))
  end.

(** What [_readTag] does with the payload of a tag without children. *)
Definition leaf (ebmlID : string) (data : Buffer) : M unit :=
  discover ebmlID data ;; dispatch ebmlID data.

(** [s1] differs from [s] only in what [_readTag] may write. *)
Definition same_frame (s s1 : Demuxer) : Prop :=
  _count s1 = _count s /\ _length s1 = _length s
  /\ _remainder s1 = _remainder s /\ _skipUntil s1 = _skipUntil s.

Definition preserves {A : Type} (m : M A) : Prop :=
  forall s,
    match m s with
    | Ok _ s1 => same_frame s s1
    | Throw _ s1 => same_frame s s1
    | OutOfFuel => False
    end.

(** The end of [_transform], after the loop. *)
Definition finish (chunk : Buffer) (x : outcome Z) : outcome unit :=
  match x with
  | Ok offset s =>
      Ok tt (set_remainder (Some (slice_from chunk (Num offset)))
               (set_count (_count s + offset) s))
  | Throw e s => Throw e s
  | OutOfFuel => OutOfFuel
  end.

(** The state in which a demuxer that has received nothing walks a first
    chunk of [n] bytes. *)
Definition fresh (n : Z) : Demuxer := set_length n init.

(** [s] is the state of a demuxer that has received the bytes [P], in one
    or several chunks. *)
Definition tracks (fuel : nat) (P : Buffer) (s : Demuxer) : Prop :=
  exists o s1 r cnt,
    walk fuel P 0 (fresh (blen P)) = Ok o s1
    /\ s = set_remainder r (set_count cnt s1)
    /\ ((cnt = o /\ pending r = skipn (Z.to_nat o) P)
        \/ (exists e, _skipUntil s1 = Some e /\ cnt = blen P /\ pending r = [])).

(** The state in which [_transform] walks a buffer of [n] bytes seen so far
    that starts [k] bytes after the one [s] walked. *)
Definition rebase (n k : Z) (s : Demuxer) : Demuxer :=
  set_remainder None (set_length n (set_count (_count s + k) s)).

(** Invariants of the state, kept by every method. *)
(** An outcome whose state satisfies [I] and whose exception, if any,
    satisfies [E]. *)
Definition holds (I : Demuxer -> Prop) (E : string -> Prop) {A : Type}
  (x : outcome A) : Prop :=
  match x with
  | Ok _ s => I s
  | Throw e s => I s /\ E e
  | OutOfFuel => True
  end.

Definition keeps (I : Demuxer -> Prop) (E : string -> Prop) {A : Type}
  (m : M A) : Prop :=
  forall s, I s -> holds I E (m s).

(** [I] looks only at the fields that tag reading writes. *)
Definition parse_only (I : Demuxer -> Prop) : Prop :=
  forall s s',
    _track s' = _track s -> _incompleteTrack s' = _incompleteTrack s ->
    _ebmlFound s' = _ebmlFound s -> pushed s' = pushed s ->
    I s -> I s'.

(** Something has been pushed only if the track found has a number that
    fits in four bits. *)
Definition emits_ok (s : Demuxer) : Prop :=
  pushed s <> [] ->
  exists t n, _track s = Some t /\ number t = Some n /\ 0 <= n <= 15.

Definition gate_open (s : Demuxer) : Prop := _ebmlFound s = true.

(** The state after the walk over [track3_preamble], [n] bytes having been
    received. *)
Definition after_preamble (n : Z) : Demuxer :=
  {| _remainder := None; _length := n; _count := 0; _skipUntil := None;
     _track := Some (mkTrack (Some 3) (Some 2));
     _incompleteTrack := mkTrack (Some 3) (Some 2);
     _ebmlFound := true; pushed := [] |}.

(** ** Definitions used by the further properties *)

(** The track found is [t] and the accumulator is [inc]. *)
Definition track_fixed (t inc : TrackInfo) (s : Demuxer) : Prop :=
  _track s = Some t /\ _incompleteTrack s = inc.

(** The track found, if any, is the accumulator, its type is 2 and its number
    is a byte; a number in the accumulator is a byte. *)
Definition track_sound (s : Demuxer) : Prop :=
  (forall t, _track s = Some t ->
     _incompleteTrack s = t /\ type t = Some 2
     /\ exists n, number t = Some n /\ 0 <= n <= 255)
  /\ (forall n, number (_incompleteTrack s) = Some n -> 0 <= n <= 255).

(** What line 128 does with the accumulator [inc] while no track has been
    found. *)
Definition promote (inc : TrackInfo) (s : Demuxer) : Demuxer :=
  match type inc, number inc with
  | Some 2, Some _ => set_track (Some inc) s
  | _, _ => s
  end.

(** The EBML header, then a tag unknown to [TAGS] (ID [ec]) whose length
    field, [08 ff ff ff fa], is read by [expandVint] as -6: the end of the
    tag is its own start. *)
Definition backward_stream : Buffer :=
  [x1a; x45; xdf; xa3; x80; xec; x08; xff; xff; xff; xfa].

(** A codec tag that says "OpusHead", followed by two more bytes. *)
Definition opus_tag : Buffer :=
  [x63; xa2; x8a; x4f; x70; x75; x73; x48; x65; x61; x64; x01; x02].

(** A track number written on two bytes (256), read when the track type 2 is
    known already. *)
Definition wide_number_tag : Buffer := [xd7; x82; x01; x00].
Definition type_known : Demuxer :=
  set_incompleteTrack (mkTrack None (Some 2)) (set_ebmlFound true init).

(** A track type with an empty payload, read when the track number 1 is
    known already. *)
Definition empty_type_tag : Buffer := [x83; x80; xd7].
Definition number_known : Demuxer :=
  set_incompleteTrack (mkTrack (Some 1) None) (set_ebmlFound true init).

(** * Theorems *)

(** ** Lemmas on buffers, tags and walks *)

(** ** Buffers: reading from a longer buffer and from a suffix *)

Lemma blen_nonneg (b : Buffer) : 0 <= blen b.
Proof. unfold blen. lia. Qed.

Lemma blen_app (b c : Buffer) : blen (b ++ c) = blen b + blen c.
Proof. unfold blen. rewrite length_app. lia. Qed.

Lemma blen_skipn (k : nat) (b : Buffer) :
  (k <= List.length b)%nat -> blen (skipn k b) = blen b - Z.of_nat k.
Proof. intros H. unfold blen. rewrite length_skipn. lia. Qed.

Lemma at_app (b c : Buffer) (i : Z) :
  i < blen b -> at_ (b ++ c) i = at_ b i.
Proof.
  intros H. unfold at_, blen in *.
  destruct (i <? 0) eqn:E; [reflexivity|].
  apply Z.ltb_ge in E. rewrite nth_error_app1 by lia. reflexivity.
Qed.

Lemma at_skipn (k : nat) (b : Buffer) (i : Z) :
  0 <= i -> at_ (skipn k b) i = at_ b (i + Z.of_nat k).
Proof.
  intros H. unfold at_.
  destruct (i <? 0) eqn:E; [apply Z.ltb_lt in E; lia|].
  destruct (i + Z.of_nat k <? 0) eqn:E'; [apply Z.ltb_lt in E'; lia|].
  rewrite nth_error_skipn. do 2 f_equal. lia.
Qed.

Lemma at_beyond (b : Buffer) (i : Z) : blen b <= i -> at_ b i = None.
Proof.
  intros H. unfold at_, blen in *.
  destruct (i <? 0); [reflexivity|].
  replace (nth_error b (Z.to_nat i)) with (@None byte); [reflexivity|].
  symmetry. apply nth_error_None. lia.
Qed.

Lemma gtb_shift (a b k : Z) : (a + k >? b + k) = (a >? b).
Proof.
  destruct (Z.gtb_spec a b), (Z.gtb_spec (a + k) (b + k)); lia || reflexivity.
Qed.

Lemma vint_scan_bounds (n : nat) (i : Z) (b : option Z) :
  i <= vint_scan n i b <= i + Z.of_nat n.
Proof.
  revert i. induction n as [|n IH]; intros i; simpl vint_scan.
  - lia.
  - match goal with |- context [if ?c then _ else _] => destruct c end;
      [lia|]. specialize (IH (i + 1)). lia.
Qed.

Lemma vintLength_unfold (b : Buffer) (off : Z) :
  vintLength b off =
    if off + (vint_scan 8 0 (at_ b off) + 1) >? blen b then TOO_SHORT
    else Val (vint_scan 8 0 (at_ b off) + 1).
Proof. reflexivity. Qed.

Lemma vintLength_Val (b : Buffer) (off n : Z) :
  vintLength b off = Val n -> 1 <= n <= 9 /\ off + n <= blen b.
Proof.
  rewrite vintLength_unfold. intros H.
  pose proof (vint_scan_bounds 8 0 (at_ b off)) as Hb.
  remember (vint_scan 8 0 (at_ b off)) as i.
  destruct (Z.gtb_spec (off + (i + 1)) (blen b)); [discriminate|].
  injection H as <-. lia.
Qed.

Lemma vintLength_app (b c : Buffer) (off n : Z) :
  vintLength b off = Val n -> vintLength (b ++ c) off = Val n.
Proof.
  intros H. pose proof (vintLength_Val _ _ _ H) as [Hn Hl].
  rewrite vintLength_unfold in *. rewrite at_app by lia.
  remember (vint_scan 8 0 (at_ b off)) as i.
  destruct (Z.gtb_spec (off + (i + 1)) (blen b)); [discriminate|].
  destruct (Z.gtb_spec (off + (i + 1)) (blen (b ++ c))); [|assumption].
  rewrite blen_app in *. pose proof (blen_nonneg c). lia.
Qed.

Lemma vintLength_skipn (k : nat) (b : Buffer) (off : Z) :
  0 <= off -> (k <= List.length b)%nat ->
  vintLength (skipn k b) off = vintLength b (off + Z.of_nat k).
Proof.
  intros H0 Hk. rewrite !vintLength_unfold. rewrite at_skipn by assumption.
  rewrite blen_skipn by assumption.
  set (i := vint_scan 8 0 (at_ b (off + Z.of_nat k)) + 1).
  replace (off + Z.of_nat k + i) with (off + i + Z.of_nat k) by lia.
  replace (blen b) with (blen b - Z.of_nat k + Z.of_nat k) at 2 by lia.
  rewrite gtb_shift. reflexivity.
Qed.

Lemma expand_loop_app (n : nat) (b c : Buffer) (i : Z) (v : jsnumber) :
  i + Z.of_nat n <= blen b ->
  expand_loop n (b ++ c) i v = expand_loop n b i v.
Proof.
  revert i v. induction n as [|n IH]; intros i v H; simpl; [reflexivity|].
  rewrite at_app by lia. apply IH. lia.
Qed.

Lemma expand_loop_skipn (n k : nat) (b : Buffer) (i : Z) (v : jsnumber) :
  0 <= i ->
  expand_loop n (skipn k b) i v = expand_loop n b (i + Z.of_nat k) v.
Proof.
  revert i v. induction n as [|n IH]; intros i v H; simpl; [reflexivity|].
  rewrite at_skipn by lia. rewrite IH by lia. f_equal. lia.
Qed.

Lemma expandVint_app (b c : Buffer) (s e n : Z) :
  vintLength b s = Val n -> e <= blen b ->
  expandVint (b ++ c) s e = expandVint b s e.
Proof.
  intros Hv He. unfold expandVint.
  rewrite (vintLength_app _ c _ _ Hv), Hv.
  pose proof (vintLength_Val _ _ _ Hv) as [Hn Hl].
  destruct (Z.gtb_spec e (blen b)); [lia|].
  destruct (Z.gtb_spec e (blen (b ++ c)));
    [rewrite blen_app in *; pose proof (blen_nonneg c); lia|].
  rewrite at_app by lia. f_equal.
  destruct (Z_le_gt_dec (e - (s + 1)) 0) as [Hle|Hgt].
  - replace (Z.to_nat (e - (s + 1))) with 0%nat by lia. reflexivity.
  - apply expand_loop_app. lia.
Qed.

Lemma expandVint_skipn (k : nat) (b : Buffer) (s e : Z) :
  0 <= s -> (k <= List.length b)%nat ->
  expandVint (skipn k b) s e = expandVint b (s + Z.of_nat k) (e + Z.of_nat k).
Proof.
  intros H0 Hk. unfold expandVint.
  rewrite vintLength_skipn by assumption.
  destruct (vintLength b (s + Z.of_nat k)); [reflexivity|].
  rewrite blen_skipn by assumption.
  replace (blen b) with (blen b - Z.of_nat k + Z.of_nat k) at 2 by lia.
  rewrite gtb_shift.
  destruct (e >? blen b - Z.of_nat k); [reflexivity|].
  rewrite at_skipn by assumption. f_equal.
  rewrite expand_loop_skipn by lia.
  f_equal; [f_equal|]; lia.
Qed.

(** Slices with non-negative bounds. *)
Lemma adjustOffset_nonneg (o len : Z) :
  0 <= o -> 0 <= len -> adjustOffset (Num o) len = Z.min o len.
Proof.
  intros Ho Hl. unfold adjustOffset.
  destruct (Z.eqb_spec o 0); [lia|].
  destruct (Z.ltb_spec o 0); [lia|].
  destruct (Z.ltb_spec o len); lia.
Qed.

Lemma slice_nonneg (b : Buffer) (s e : Z) :
  0 <= s -> 0 <= e ->
  slice b (Num s) (Num e) = firstn (Z.to_nat (e - s)) (skipn (Z.to_nat s) b).
Proof.
  intros Hs He. unfold slice.
  pose proof (blen_nonneg b) as Hb.
  rewrite !adjustOffset_nonneg by assumption.
  destruct (Z_lt_ge_dec s (blen b)) as [Hlt|Hge].
  - rewrite (Z.min_l s) by lia.
    destruct (Z.gtb_spec (Z.min e (blen b)) s).
    + destruct (Z_le_gt_dec e (blen b)).
      * rewrite Z.min_l by lia. reflexivity.
      * rewrite Z.min_r by lia.
        rewrite !firstn_all2; try reflexivity;
          rewrite length_skipn; unfold blen in *; lia.
    + replace (Z.to_nat (e - s)) with 0%nat by lia. reflexivity.
  - rewrite !skipn_all2 by (unfold blen in *; lia).
    rewrite !firstn_nil. reflexivity.
Qed.

Lemma slice_from_nonneg (b : Buffer) (o : Z) :
  0 <= o -> slice_from b (Num o) = skipn (Z.to_nat o) b.
Proof.
  intros Ho. unfold slice_from.
  pose proof (blen_nonneg b) as Hb.
  rewrite adjustOffset_nonneg by assumption.
  destruct (Z_lt_ge_dec o (blen b)) as [Hlt|Hge].
  - rewrite Z.min_l by lia.
    destruct (Z.gtb_spec (blen b) o); [|lia].
    apply firstn_all2. rewrite length_skipn. unfold blen in *. lia.
  - rewrite Z.min_r by lia.
    rewrite !skipn_all2 by (unfold blen in *; lia).
    apply firstn_nil.
Qed.

Lemma slice_app (b c : Buffer) (s e : Z) :
  0 <= s -> 0 <= e <= blen b ->
  slice (b ++ c) (Num s) (Num e) = slice b (Num s) (Num e).
Proof.
  intros Hs He. rewrite !slice_nonneg by lia.
  destruct (Z_le_gt_dec e s).
  - replace (Z.to_nat (e - s)) with 0%nat by lia. reflexivity.
  - rewrite skipn_app, firstn_app.
    replace (Z.to_nat (e - s) - List.length (skipn (Z.to_nat s) b))%nat
      with 0%nat by (rewrite length_skipn; unfold blen in *; lia).
    simpl. apply app_nil_r.
Qed.

Lemma slice_skipn (k : nat) (b : Buffer) (s e : Z) :
  0 <= s -> 0 <= e ->
  slice (skipn k b) (Num s) (Num e)
  = slice b (Num (s + Z.of_nat k)) (Num (e + Z.of_nat k)).
Proof.
  intros Hs He. rewrite !slice_nonneg by lia.
  rewrite skipn_skipn. f_equal; [lia|]. f_equal. lia.
Qed.

Lemma readEBMLId_skipn (k : nat) (b : Buffer) (off : Z) :
  0 <= off -> (k <= List.length b)%nat ->
  _readEBMLId (skipn k b) off =
    match _readEBMLId b (off + Z.of_nat k) with
    | TOO_SHORT => TOO_SHORT
    | Val idd => Val (mkIdData (id idd) (id_offset idd - Z.of_nat k))
    end.
Proof.
  intros H0 Hk. unfold _readEBMLId. rewrite vintLength_skipn by assumption.
  destruct (vintLength b (off + Z.of_nat k)) as [|n] eqn:E; [reflexivity|].
  apply vintLength_Val in E. simpl.
  rewrite slice_skipn by lia. do 2 f_equal; [|lia]. do 2 f_equal. lia.
Qed.

Lemma readTagDataSize_skipn (k : nat) (b : Buffer) (off : Z) :
  0 <= off -> (k <= List.length b)%nat ->
  _readTagDataSize (skipn k b) off =
    match _readTagDataSize b (off + Z.of_nat k) with
    | TOO_SHORT => TOO_SHORT
    | Val sd =>
        Val (mkSizeData (size_offset sd - Z.of_nat k) (dataLength sd)
               (sizeLength sd))
    end.
Proof.
  intros H0 Hk. unfold _readTagDataSize. rewrite vintLength_skipn by assumption.
  destruct (vintLength b (off + Z.of_nat k)) as [|n] eqn:E; [reflexivity|].
  simpl. rewrite expandVint_skipn by assumption.
  f_equal. f_equal; [lia|]. f_equal. lia.
Qed.

Lemma readEBMLId_bounds (b : Buffer) (off : Z) (idd : IdData) :
  _readEBMLId b off = Val idd ->
  off + 1 <= id_offset idd <= blen b.
Proof.
  unfold _readEBMLId. destruct (vintLength b off) eqn:E; [discriminate|].
  intros H. injection H as <-. simpl. apply vintLength_Val in E. lia.
Qed.

Lemma readTagDataSize_bounds (b : Buffer) (off : Z) (sd : SizeData) :
  _readTagDataSize b off = Val sd ->
  off + 1 <= size_offset sd <= blen b.
Proof.
  unfold _readTagDataSize. destruct (vintLength b off) eqn:E; [discriminate|].
  intros H. injection H as <-. simpl. apply vintLength_Val in E. lia.
Qed.

Lemma header_bounds (b : Buffer) (off : Z) (h : Header) :
  header b off = Val h -> off + 2 <= h_data h <= blen b.
Proof.
  unfold header. destruct (_readEBMLId b off) as [|idd] eqn:E1; [discriminate|].
  destruct (_readTagDataSize b (id_offset idd)) as [|sd] eqn:E2; [discriminate|].
  intros H. injection H as <-. simpl.
  apply readEBMLId_bounds in E1. apply readTagDataSize_bounds in E2. lia.
Qed.

Section Frames.
Variables (F : Demuxer -> Demuxer) (delta : Z).
Hypothesis HF : Framing F delta.

Lemma discover_frame (ebmlID : string) (data : Buffer) (s : Demuxer) :
  discover ebmlID data (F s) = omap (fun u => u) F (discover ebmlID data s).
Proof.
  destruct HF as [Hc Ht Hi He Hse Hsi Hst Hp].
  unfold discover, bind, this, when, modify, ret.
  rewrite Ht. destruct (_track s); [reflexivity|].
  destruct (ebmlID =? "ae")%string, (ebmlID =? "d7")%string,
    (ebmlID =? "83")%string; cbn [omap];
    rewrite ?Hsi, ?Hi; cbn [_incompleteTrack set_incompleteTrack number type];
    rewrite ?Hi;
    repeat match goal with
      | |- context [match ?x with _ => _ end] => destruct x
      end; cbn [omap]; rewrite ?Hst, ?Hsi, ?Hi; reflexivity.
Qed.

Lemma dispatch_frame (ebmlID : string) (data : Buffer) (s : Demuxer) :
  dispatch ebmlID data (F s) = omap (fun u => u) F (dispatch ebmlID data s).
Proof.
  destruct HF as [Hc Ht Hi He Hse Hsi Hst Hp].
  unfold dispatch, bind, this, when, modify, ret, throw.
  destruct (ebmlID =? "63a2")%string.
  - destruct (negb _); reflexivity.
  - destruct (ebmlID =? "a3")%string; [|reflexivity].
    rewrite Ht. destruct (_track s) as [t|]; [|reflexivity].
    destruct (number t); [|reflexivity].
    destruct (_ =? _); cbn [omap]; rewrite ?Hp; reflexivity.
Qed.
End Frames.

Lemma header_inv (b : Buffer) (off : Z) (h : Header) :
  header b off = Val h ->
  exists idd sd,
    _readEBMLId b off = Val idd
    /\ _readTagDataSize b (id_offset idd) = Val sd
    /\ h = mkHeader (toHex (id idd)) (size_offset sd) (dataLength sd).
Proof.
  unfold header. destruct (_readEBMLId b off) as [|idd]; [discriminate|].
  destruct (_readTagDataSize b (id_offset idd)) as [|sd] eqn:E; [discriminate|].
  intros H. injection H as <-. exists idd, sd. auto.
Qed.

Lemma readTag_short_id b off s :
  _readEBMLId b off = TOO_SHORT -> _readTag b off s = Ok TOO_SHORT s.
Proof. intros E. unfold _readTag. rewrite E. reflexivity. Qed.

Lemma readTag_gate_fails b off s idd :
  _readEBMLId b off = Val idd -> gate_fails s (toHex (id idd)) = true ->
  _readTag b off s = Throw EBML_NOT_FOUND s.
Proof.
  intros E G. unfold _readTag. rewrite E.
  unfold gate_fails in G. apply andb_prop in G as [G1 G2].
  unfold bind, this, when. rewrite G1.
  apply negb_true_iff in G2. rewrite G2. reflexivity.
Qed.

Lemma gate_step s ebmlID (A : Type) (k : M A) :
  gate_fails s ebmlID = false ->
  (s0 <- this ;;
   when (negb (_ebmlFound s0))
     (if (ebmlID =? "1a45dfa3")%string
      then modify (set_ebmlFound true) else throw EBML_NOT_FOUND) ;; k) s
  = k (gate s).
Proof.
  intros G. unfold gate_fails in G. unfold gate, bind, this, when, modify, ret.
  destruct (_ebmlFound s); [reflexivity|].
  destruct (ebmlID =? "1a45dfa3")%string; [reflexivity|discriminate].
Qed.

Lemma readTag_short_size b off s idd :
  _readEBMLId b off = Val idd -> gate_fails s (toHex (id idd)) = false ->
  _readTagDataSize b (id_offset idd) = TOO_SHORT ->
  _readTag b off s = Ok TOO_SHORT (gate s).
Proof.
  intros E G E2. unfold _readTag. rewrite E.
  cbv zeta. rewrite gate_step by assumption. rewrite E2. reflexivity.
Qed.

Lemma readTag_header b off s h :
  header b off = Val h -> gate_fails s (h_id h) = false ->
  _readTag b off s =
    match lookup (h_id h) TAGS with
    | None =>
        (end_ <- add_dataLength (h_data h) (h_len h) ;;
         if ngt (Num (blen b)) end_
         then ret (Val (mkTagResult end_ None))
         else
           s <- this ;;
           until <- add_dataLength (_count s + h_data h) (h_len h) ;;
           ret (Val (mkTagResult (Num (h_data h)) (Some until)))) (gate s)
    | Some true => Ok (Val (mkTagResult (Num (h_data h)) None)) (gate s)
    | Some false =>
        (end_ <- add_dataLength (h_data h) (h_len h) ;;
         if ngt end_ (Num (blen b)) then ret TOO_SHORT
         else
           let data := slice b (Num (h_data h)) end_ in
           leaf (h_id h) data ;; ret (Val (mkTagResult end_ None))) (gate s)
    end.
Proof.
  intros H G. apply header_inv in H as (idd & sd & E1 & E2 & ->).
  cbn [h_id h_data h_len] in *.
  unfold _readTag. rewrite E1. cbv zeta. rewrite gate_step by assumption.
  rewrite E2. destruct (lookup (toHex (id idd)) TAGS) as [[|]|]; try reflexivity.
  unfold leaf. unfold bind. destruct (add_dataLength _ _ _); try reflexivity.
  destruct (ngt _ _); try reflexivity.
  destruct (discover _ _ _); reflexivity.
Qed.

Lemma readTag_container b off s h :
  header b off = Val h -> gate_fails s (h_id h) = false ->
  lookup (h_id h) TAGS = Some true ->
  _readTag b off s = Ok (Val (mkTagResult (Num (h_data h)) None)) (gate s).
Proof. intros H G L. rewrite (readTag_header _ _ _ _ H G), L. reflexivity. Qed.

Lemma readTag_unknown b off s h d :
  header b off = Val h -> gate_fails s (h_id h) = false ->
  lookup (h_id h) TAGS = None -> h_len h = Val (Num d) ->
  _readTag b off s =
    if blen b >? h_data h + d
    then Ok (Val (mkTagResult (Num (h_data h + d)) None)) (gate s)
    else Ok (Val (mkTagResult (Num (h_data h))
                    (Some (Num (_count (gate s) + h_data h + d))))) (gate s).
Proof.
  intros H G L D. rewrite (readTag_header _ _ _ _ H G), L, D.
  unfold bind, add_dataLength, ret, this, nadd, ngt.
  destruct (blen b >? h_data h + d); reflexivity.
Qed.

Lemma readTag_leaf b off s h d :
  header b off = Val h -> gate_fails s (h_id h) = false ->
  lookup (h_id h) TAGS = Some false -> h_len h = Val (Num d) ->
  _readTag b off s =
    if h_data h + d >? blen b then Ok TOO_SHORT (gate s)
    else omap (fun _ => Val (mkTagResult (Num (h_data h + d)) None))
           (fun s => s)
           (leaf (h_id h) (slice b (Num (h_data h)) (Num (h_data h + d)))
              (gate s)).
Proof.
  intros H G L D. rewrite (readTag_header _ _ _ _ H G), L, D.
  unfold bind, add_dataLength, ret, this, nadd, ngt.
  destruct (h_data h + d >? blen b); [reflexivity|].
  destruct (leaf _ _ _); reflexivity.
Qed.

Lemma header_skipn (k : nat) (b : Buffer) (off : Z) :
  0 <= off -> (k <= List.length b)%nat ->
  header (skipn k b) off = shift_header (Z.of_nat k) (header b (off + Z.of_nat k)).
Proof.
  intros H0 Hk. unfold header. rewrite readEBMLId_skipn by assumption.
  destruct (_readEBMLId b (off + Z.of_nat k)) as [|idd] eqn:E1; [reflexivity|].
  apply readEBMLId_bounds in E1. cbn [id id_offset].
  rewrite readTagDataSize_skipn by lia.
  replace (id_offset idd - Z.of_nat k + Z.of_nat k) with (id_offset idd) by lia.
  destruct (_readTagDataSize b (id_offset idd)); reflexivity.
Qed.

Lemma readEBMLId_app (b c : Buffer) (off : Z) (idd : IdData) :
  0 <= off -> _readEBMLId b off = Val idd -> _readEBMLId (b ++ c) off = Val idd.
Proof.
  intros H0. unfold _readEBMLId.
  destruct (vintLength b off) as [|n] eqn:E; [discriminate|].
  rewrite (vintLength_app _ c _ _ E). apply vintLength_Val in E.
  rewrite slice_app by lia. trivial.
Qed.

Lemma readTagDataSize_app (b c : Buffer) (off : Z) (sd : SizeData) :
  _readTagDataSize b off = Val sd -> _readTagDataSize (b ++ c) off = Val sd.
Proof.
  unfold _readTagDataSize.
  destruct (vintLength b off) as [|n] eqn:E; [discriminate|].
  rewrite (vintLength_app _ c _ _ E).
  rewrite (expandVint_app _ c _ _ _ E) by (apply vintLength_Val in E; lia).
  trivial.
Qed.

Lemma header_app (b c : Buffer) (off : Z) (h : Header) :
  0 <= off -> header b off = Val h -> header (b ++ c) off = Val h.
Proof.
  intros H0 H. apply header_inv in H as (idd & sd & E1 & E2 & ->).
  unfold header. rewrite (readEBMLId_app _ c _ _ H0 E1).
  rewrite (readTagDataSize_app _ c _ _ E2). reflexivity.
Qed.

Lemma header_short_id (b : Buffer) (off : Z) :
  _readEBMLId b off = TOO_SHORT -> header b off = TOO_SHORT.
Proof. intros E. unfold header. rewrite E. reflexivity. Qed.

Lemma header_id (b : Buffer) (off : Z) (idd : IdData) :
  _readEBMLId b off = Val idd ->
  header b off =
    match _readTagDataSize b (id_offset idd) with
    | TOO_SHORT => TOO_SHORT
    | Val sd => Val (mkHeader (toHex (id idd)) (size_offset sd) (dataLength sd))
    end.
Proof. intros E. unfold header. rewrite E. reflexivity. Qed.

Lemma gate_frame F delta s : Framing F delta -> gate (F s) = F (gate s).
Proof.
  intros HF. unfold gate. rewrite (fr_ebml _ _ HF).
  destruct (_ebmlFound s); [reflexivity|]. symmetry. apply (fr_set_ebml _ _ HF).
Qed.

Lemma gate_fails_frame F delta s ebmlID :
  Framing F delta -> gate_fails (F s) ebmlID = gate_fails s ebmlID.
Proof. intros HF. unfold gate_fails. rewrite (fr_ebml _ _ HF). reflexivity. Qed.

Lemma gate_count s : _count (gate s) = _count s.
Proof. unfold gate. destruct (_ebmlFound s); reflexivity. Qed.

Lemma gate_gate s : gate (gate s) = gate s.
Proof. unfold gate. destruct (_ebmlFound s) eqn:E; [rewrite E|]; reflexivity. Qed.

Lemma gate_fails_gate s ebmlID : gate_fails (gate s) ebmlID = false.
Proof.
  unfold gate_fails, gate. destruct (_ebmlFound s) eqn:E; [rewrite E|]; reflexivity.
Qed.

Lemma leaf_frame F delta ebmlID data s :
  Framing F delta ->
  leaf ebmlID data (F s) = omap (fun u => u) F (leaf ebmlID data s).
Proof.
  intros HF. unfold leaf, bind. rewrite (discover_frame _ _ HF).
  destruct (discover ebmlID data s) as [u s1|e s1|]; cbn [omap]; try reflexivity.
  apply (dispatch_frame _ _ HF).
Qed.

Lemma readTag_shift F (k : nat) (b : Buffer) (off : Z) (s : Demuxer) :
  Framing F (Z.of_nat k) -> 0 <= off -> (k <= List.length b)%nat ->
  tag_ok b (off + Z.of_nat k) ->
  _readTag (skipn k b) off (F s)
  = omap (shift_result (Z.of_nat k)) F (_readTag b (off + Z.of_nat k) s).
Proof.
  intros HF H0 Hk Hok. unfold tag_ok in Hok.
  pose proof (readEBMLId_skipn k b off H0 Hk) as E1'.
  pose proof (header_skipn k b off H0 Hk) as EH'.
  destruct (_readEBMLId b (off + Z.of_nat k)) as [|idd] eqn:E1.
  { rewrite !readTag_short_id by assumption. reflexivity. }
  destruct (gate_fails s (toHex (id idd))) eqn:G.
  { rewrite (readTag_gate_fails _ _ _ _ E1 G).
    rewrite (readTag_gate_fails _ _ _ _ E1');
      [reflexivity | rewrite (gate_fails_frame _ _ _ _ HF); exact G]. }
  rewrite (header_id _ _ _ E1) in Hok, EH'.
  destruct (_readTagDataSize b (id_offset idd)) as [|sd] eqn:E2.
  { rewrite (readTag_short_size _ _ _ _ E1 G E2).
    pose proof (readEBMLId_bounds _ _ _ E1) as Hb.
    rewrite (readTag_short_size _ _ _ _ E1').
    - cbn [omap shift_result]. rewrite (gate_frame _ _ _ HF). reflexivity.
    - rewrite (gate_fails_frame _ _ _ _ HF). exact G.
    - cbn [id_offset]. rewrite readTagDataSize_skipn by lia.
      replace (id_offset idd - Z.of_nat k + Z.of_nat k) with (id_offset idd) by lia.
      rewrite E2. reflexivity. }
  remember (mkHeader (toHex (id idd)) (size_offset sd) (dataLength sd)) as h eqn:Eh.
  assert (EH : header b (off + Z.of_nat k) = Val h).
  { rewrite (header_id _ _ _ E1), E2, Eh. reflexivity. }
  cbn [shift_header] in EH'.
  assert (G' : gate_fails (F s) (h_id h) = false).
  { rewrite (gate_fails_frame _ _ _ _ HF), Eh. exact G. }
  assert (G0 : gate_fails s (h_id h) = false) by (rewrite Eh; exact G).
  pose proof (header_bounds _ _ _ EH) as Hb.
  destruct (lookup (h_id h) TAGS) as [[|]|] eqn:EL.
  - rewrite (readTag_container _ _ _ _ EH G0 EL).
    rewrite (readTag_container _ _ _ _ EH' G' EL).
    cbn [omap shift_result h_data res_offset res_skipUntil shift_offset].
    rewrite (gate_frame _ _ _ HF). reflexivity.
  - destruct Hok as [Hc|[d [Hd Hd0]]]; [discriminate|].
    rewrite (readTag_leaf _ _ _ _ d EH G0 EL Hd).
    rewrite (readTag_leaf _ _ _ _ d EH' G' EL Hd).
    cbn [h_id h_data h_len]. rewrite blen_skipn by assumption.
    replace (h_data h - Z.of_nat k + d >? blen b - Z.of_nat k)
      with (h_data h + d >? blen b).
    2:{ rewrite <- (gtb_shift (h_data h - Z.of_nat k + d) _ (Z.of_nat k)).
        f_equal; lia. }
    destruct (h_data h + d >? blen b).
    + cbn [omap shift_result]. rewrite (gate_frame _ _ _ HF). reflexivity.
    + rewrite slice_skipn by lia.
      replace (h_data h - Z.of_nat k + Z.of_nat k) with (h_data h) by lia.
      replace (h_data h - Z.of_nat k + d + Z.of_nat k) with (h_data h + d) by lia.
      rewrite (gate_frame _ _ _ HF), (leaf_frame _ _ _ _ _ HF).
      replace (h_data h - Z.of_nat k + d) with (h_data h + d - Z.of_nat k) by lia.
      destruct (leaf _ _ (gate s)); reflexivity.
  - destruct Hok as [Hc|[d [Hd Hd0]]]; [discriminate|].
    rewrite (readTag_unknown _ _ _ _ d EH G0 EL Hd).
    rewrite (readTag_unknown _ _ _ _ d EH' G' EL Hd).
    cbn [h_id h_data h_len]. rewrite blen_skipn by assumption.
    replace (blen b - Z.of_nat k >? h_data h - Z.of_nat k + d)
      with (blen b >? h_data h + d).
    2:{ rewrite <- (gtb_shift (blen b - Z.of_nat k) _ (Z.of_nat k)).
        f_equal; lia. }
    rewrite (gate_frame _ _ _ HF), (fr_count _ _ HF).
    replace (h_data h - Z.of_nat k + d) with (h_data h + d - Z.of_nat k) by lia.
    replace (_count (gate s) + Z.of_nat k + (h_data h - Z.of_nat k) + d)
      with (_count (gate s) + h_data h + d) by lia.
    destruct (blen b >? h_data h + d); reflexivity.
Qed.

Lemma readTag_gate_idem (b : Buffer) (off : Z) (s : Demuxer) (idd : IdData) :
  _readEBMLId b off = Val idd -> gate_fails s (toHex (id idd)) = false ->
  _readTag b off (gate s) = _readTag b off s.
Proof.
  intros E1 G.
  destruct (_readTagDataSize b (id_offset idd)) as [|sd] eqn:E2.
  - rewrite !(readTag_short_size _ _ _ _ E1) by (assumption || apply gate_fails_gate).
    rewrite gate_gate. reflexivity.
  - assert (EH : header b off = Val (mkHeader (toHex (id idd)) (size_offset sd)
                                       (dataLength sd))).
    { rewrite (header_id _ _ _ E1), E2. reflexivity. }
    rewrite !(readTag_header _ _ _ _ EH) by (assumption || apply gate_fails_gate).
    rewrite gate_gate. reflexivity.
Qed.

Lemma same_frame_refl s : same_frame s s.
Proof. repeat split. Qed.

Lemma same_frame_trans s1 s2 s3 :
  same_frame s1 s2 -> same_frame s2 s3 -> same_frame s1 s3.
Proof. unfold same_frame. intuition congruence. Qed.

Lemma preserves_ret {A : Type} (a : A) : preserves (ret a).
Proof. intros s. apply same_frame_refl. Qed.

Lemma preserves_throw {A : Type} (e : string) : preserves (@throw A e).
Proof. intros s. apply same_frame_refl. Qed.

Lemma preserves_bind {A B : Type} (m : M A) (k : A -> M B) :
  preserves m -> (forall a, preserves (k a)) -> preserves (bind m k).
Proof.
  intros Hm Hk s. unfold bind. specialize (Hm s).
  destruct (m s) as [a s1|e s1|]; try assumption.
  specialize (Hk a s1). destruct (k a s1); try assumption;
    eapply same_frame_trans; eassumption.
Qed.

Lemma preserves_this : preserves this.
Proof. intros s. apply same_frame_refl. Qed.

Lemma preserves_modify (f : Demuxer -> Demuxer) :
  (forall s, same_frame s (f s)) -> preserves (modify f).
Proof. intros H s. apply H. Qed.

Lemma preserves_when (c : bool) (m : M unit) : preserves m -> preserves (when c m).
Proof. intros H. destruct c; [exact H|apply preserves_ret]. Qed.

Lemma preserves_discover ebmlID data : preserves (discover ebmlID data).
Proof.
  unfold discover. apply preserves_bind; [apply preserves_this|]. intros s0.
  destruct (_track s0); [apply preserves_ret|].
  repeat (apply preserves_bind; [|intros ?]);
    try (apply preserves_when; apply preserves_modify; intros ?; repeat split);
    try apply preserves_this.
  destruct (type _) as [[|[| |]|]|]; try apply preserves_ret.
  all: destruct (number _); try apply preserves_ret;
    try (destruct p; try apply preserves_ret);
    apply preserves_modify; intros ?; repeat split.
Qed.

Lemma preserves_dispatch ebmlID data : preserves (dispatch ebmlID data).
Proof.
  unfold dispatch.
  destruct (ebmlID =? "63a2")%string.
  { destruct (negb _); [apply preserves_throw|apply preserves_ret]. }
  destruct (ebmlID =? "a3")%string; [|apply preserves_ret].
  apply preserves_bind; [apply preserves_this|]. intros s0.
  destruct (_track s0) as [t|]; [|apply preserves_throw].
  destruct (number t); [|apply preserves_ret].
  apply preserves_when. apply preserves_modify. intros ?; repeat split.
Qed.

Lemma preserves_leaf ebmlID data : preserves (leaf ebmlID data).
Proof.
  unfold leaf. apply preserves_bind; [apply preserves_discover|].
  intros _. apply preserves_dispatch.
Qed.

Lemma same_frame_gate s : same_frame s (gate s).
Proof. unfold gate. destruct (_ebmlFound s); repeat split. Qed.

(** What _readTag returns on a tag that is fine. *)
Lemma readTag_result (b : Buffer) (o : Z) (s : Demuxer) :
  tag_ok b o ->
  match _readTag b o s with
  | OutOfFuel => False
  | Throw e s1 => same_frame s s1
  | Ok TOO_SHORT s1 => same_frame s s1
  | Ok (Val r) s1 =>
      same_frame s s1 /\
      exists h, header b o = Val h /\
        match res_skipUntil r with
        | Some u =>
            exists d, lookup (h_id h) TAGS = None /\ h_len h = Val (Num d)
              /\ 0 <= d /\ blen b <= h_data h + d
              /\ res_offset r = Num (h_data h)
              /\ u = Num (_count s + h_data h + d)
        | None =>
            (lookup (h_id h) TAGS = Some true /\ res_offset r = Num (h_data h))
            \/ (lookup (h_id h) TAGS <> Some true /\
                exists d, h_len h = Val (Num d) /\ 0 <= d
                  /\ res_offset r = Num (h_data h + d)
                  /\ h_data h + d <= blen b)
        end
  end.
Proof.
  intros Hok. unfold tag_ok in Hok.
  destruct (_readEBMLId b o) as [|idd] eqn:E1.
  { rewrite readTag_short_id by assumption. apply same_frame_refl. }
  destruct (gate_fails s (toHex (id idd))) eqn:G.
  { rewrite (readTag_gate_fails _ _ _ _ E1 G). apply same_frame_refl. }
  destruct (_readTagDataSize b (id_offset idd)) as [|sd] eqn:E2.
  { rewrite (readTag_short_size _ _ _ _ E1 G E2). apply same_frame_gate. }
  remember (mkHeader (toHex (id idd)) (size_offset sd) (dataLength sd)) as h eqn:Eh.
  assert (EH : header b o = Val h).
  { rewrite (header_id _ _ _ E1), E2, Eh. reflexivity. }
  assert (G0 : gate_fails s (h_id h) = false) by (rewrite Eh; exact G).
  rewrite EH in Hok.
  destruct (lookup (h_id h) TAGS) as [[|]|] eqn:EL.
  - rewrite (readTag_container _ _ _ _ EH G0 EL).
    split; [apply same_frame_gate|]. exists h. split; [exact EH|].
    left. split; [exact EL|reflexivity].
  - destruct Hok as [Hc|[d [Hd Hd0]]]; [discriminate|].
    rewrite (readTag_leaf _ _ _ _ d EH G0 EL Hd).
    destruct (Z.gtb_spec (h_data h + d) (blen b)); [apply same_frame_gate|].
    pose proof (preserves_leaf (h_id h)
      (slice b (Num (h_data h)) (Num (h_data h + d))) (gate s)) as Hp.
    destruct (leaf _ _ (gate s)) as [u s1|e s1|]; cbn [omap].
    + split; [eapply same_frame_trans; [apply same_frame_gate|exact Hp]|].
      exists h. split; [exact EH|]. right. split; [congruence|].
      exists d. cbn. repeat split; try assumption.
    + eapply same_frame_trans; [apply same_frame_gate|exact Hp].
    + exact Hp.
  - destruct Hok as [Hc|[d [Hd Hd0]]]; [discriminate|].
    rewrite (readTag_unknown _ _ _ _ d EH G0 EL Hd).
    destruct (Z.gtb_spec (blen b) (h_data h + d)).
    + split; [apply same_frame_gate|]. exists h. split; [exact EH|].
      right. split; [congruence|]. exists d. cbn. repeat split; try assumption. lia.
    + split; [apply same_frame_gate|]. exists h. split; [exact EH|].
      exists d. cbn. rewrite gate_count. repeat split; assumption.
Qed.

(** The same tag in a longer buffer. *)
Lemma readTag_ext (b c : Buffer) (o : Z) (s : Demuxer) :
  0 <= o -> tag_ok (b ++ c) o ->
  match _readTag b o s with
  | OutOfFuel => False
  | Throw e s1 => _readTag (b ++ c) o s = Throw e s1
  | Ok TOO_SHORT s1 => _readTag (b ++ c) o s1 = _readTag (b ++ c) o s
  | Ok (Val r) s1 =>
      match res_skipUntil r with
      | Some u =>
          exists e, u = Num (_count s + e) /\
            _readTag (b ++ c) o s =
              if blen (b ++ c) >? e
              then Ok (Val (mkTagResult (Num e) None)) s1
              else Ok (Val r) s1
      | None => _readTag (b ++ c) o s = Ok (Val r) s1
      end
  end.
Proof.
  intros H0 Hok. unfold tag_ok in Hok.
  destruct (_readEBMLId b o) as [|idd] eqn:E1.
  { rewrite readTag_short_id by assumption. reflexivity. }
  pose proof (readEBMLId_app _ c _ _ H0 E1) as E1'.
  destruct (gate_fails s (toHex (id idd))) eqn:G.
  { rewrite (readTag_gate_fails _ _ _ _ E1 G).
    apply (readTag_gate_fails _ _ _ _ E1' G). }
  destruct (_readTagDataSize b (id_offset idd)) as [|sd] eqn:E2.
  { rewrite (readTag_short_size _ _ _ _ E1 G E2).
    apply (readTag_gate_idem _ _ _ _ E1' G). }
  remember (mkHeader (toHex (id idd)) (size_offset sd) (dataLength sd)) as h eqn:Eh.
  assert (EH : header b o = Val h).
  { rewrite (header_id _ _ _ E1), E2, Eh. reflexivity. }
  pose proof (header_app _ c _ _ H0 EH) as EH'.
  assert (G0 : gate_fails s (h_id h) = false) by (rewrite Eh; exact G).
  pose proof (header_bounds _ _ _ EH) as Hb.
  pose proof (blen_nonneg c) as Hc0.
  rewrite EH' in Hok.
  destruct (lookup (h_id h) TAGS) as [[|]|] eqn:EL.
  - rewrite (readTag_container _ _ _ _ EH G0 EL). cbn [res_skipUntil].
    apply (readTag_container _ _ _ _ EH' G0 EL).
  - destruct Hok as [Hc|[d [Hd Hd0]]]; [discriminate|].
    rewrite (readTag_leaf _ _ _ _ d EH G0 EL Hd).
    destruct (Z.gtb_spec (h_data h + d) (blen b)).
    { assert (E : _readEBMLId (b ++ c) o = Val idd) by exact E1'.
      rewrite Eh in G0. apply (readTag_gate_idem _ _ _ _ E G). }
    rewrite (readTag_leaf _ _ _ _ d EH' G0 EL Hd).
    destruct (Z.gtb_spec (h_data h + d) (blen (b ++ c)));
      [rewrite blen_app in *; lia|].
    rewrite slice_app by lia.
    pose proof (preserves_leaf (h_id h)
      (slice b (Num (h_data h)) (Num (h_data h + d))) (gate s)) as Hp.
    destruct (leaf _ _ (gate s)); cbn [omap res_skipUntil];
      [reflexivity|reflexivity|exact Hp].
  - destruct Hok as [Hc|[d [Hd Hd0]]]; [discriminate|].
    rewrite (readTag_unknown _ _ _ _ d EH G0 EL Hd).
    rewrite (readTag_unknown _ _ _ _ d EH' G0 EL Hd).
    destruct (Z.gtb_spec (blen b) (h_data h + d)).
    + cbn [res_skipUntil].
      destruct (Z.gtb_spec (blen (b ++ c)) (h_data h + d));
        [reflexivity|rewrite blen_app in *; lia].
    + cbn [res_skipUntil]. exists (h_data h + d).
      rewrite gate_count, Z.add_assoc. split; reflexivity.
Qed.

Lemma wf_tag_ok (f : nat) (b : Buffer) (o : Z) :
  well_formed_from (S f) b o = true -> tag_ok b o.
Proof.
  cbn [well_formed_from]. unfold tag_ok.
  destruct (header b o) as [|h]; [trivial|].
  destruct (lookup (h_id h) TAGS) as [[|]|]; auto;
    destruct (h_len h) as [|[|d]]; try discriminate;
    intros H; apply andb_prop in H as [H1 _]; right; exists d;
    (split; [reflexivity|lia]).
Qed.

Lemma wf_container (f : nat) (b : Buffer) (o : Z) (h : Header) :
  well_formed_from (S f) b o = true -> header b o = Val h ->
  lookup (h_id h) TAGS = Some true -> well_formed_from f b (h_data h) = true.
Proof.
  cbn [well_formed_from]. intros H EH EL. rewrite EH, EL in H. exact H.
Qed.

Lemma wf_payload (f : nat) (b : Buffer) (o : Z) (h : Header) (d : Z) :
  well_formed_from (S f) b o = true -> header b o = Val h ->
  lookup (h_id h) TAGS <> Some true -> h_len h = Val (Num d) ->
  well_formed_from f b (h_data h + d) = true.
Proof.
  cbn [well_formed_from]. intros H EH EL ED. rewrite EH, ED in H.
  destruct (lookup (h_id h) TAGS) as [[|]|]; try congruence;
    apply andb_prop in H as [_ H]; exact H.
Qed.

Lemma wf_mono (f : nat) : forall (f' : nat) (b : Buffer) (o : Z),
  well_formed_from f b o = true -> (f <= f')%nat ->
  well_formed_from f' b o = true.
Proof.
  induction f as [|f IH]; intros f' b o H Hle; [discriminate|].
  destruct f' as [|f']; [lia|]. cbn [well_formed_from] in *.
  destruct (header b o) as [|h]; [reflexivity|].
  destruct (lookup (h_id h) TAGS) as [[|]|];
    try (apply IH; [exact H|lia]);
    destruct (h_len h) as [|[|d]]; try discriminate;
    apply andb_prop in H as [H1 H2]; rewrite H1; cbn;
    (apply IH; [exact H2|lia]).
Qed.

Lemma wf_prefix (f : nat) : forall (b c : Buffer) (o : Z),
  0 <= o -> well_formed_from f (b ++ c) o = true ->
  well_formed_from f b o = true.
Proof.
  induction f as [|f IH]; intros b c o H0 H; [discriminate|].
  cbn [well_formed_from] in *.
  destruct (header b o) as [|h] eqn:EH; [reflexivity|].
  rewrite (header_app _ c _ _ H0 EH) in H.
  pose proof (header_bounds _ _ _ EH) as Hb.
  destruct (lookup (h_id h) TAGS) as [[|]|];
    try (apply (IH _ c); [lia|exact H]);
    destruct (h_len h) as [|[|d]]; try discriminate;
    apply andb_prop in H as [H1 H2]; rewrite H1; cbn;
    (apply (IH _ c); [lia|exact H2]).
Qed.

Lemma truthy_Num (x : Z) : x <> 0 -> truthy_value (Some (Num x)) = Some x.
Proof.
  intros H. cbn. destruct (Z.eqb_spec x 0); [contradiction|reflexivity].
Qed.

Lemma walk_step (f : nat) (b : Buffer) (o : Z) (s : Demuxer) :
  walk (S f) b o s =
    match _readTag b o s with
    | Ok TOO_SHORT s1 => Ok o s1
    | Ok (Val r) s1 =>
        match truthy_value (res_skipUntil r) with
        | Some u => Ok o (set_skipUntil (Some u) s1)
        | None =>
            match truthy_value (Some (res_offset r)) with
            | Some o' => walk f b o' s1
            | None => Ok o s1
            end
        end
    | Throw e s1 => Throw e s1
    | OutOfFuel => OutOfFuel
    end.
Proof.
  cbn [walk]. unfold bind. destruct (_readTag b o s) as [[|r] s1|e s1|];
    try reflexivity.
  destruct (truthy_value (res_skipUntil r)); [reflexivity|].
  destruct (truthy_value (Some (res_offset r))); reflexivity.
Qed.

(** One step of the walk on a well-formed buffer. *)
Lemma readTag_wf (f : nat) (b : Buffer) (o : Z) (s : Demuxer) :
  well_formed_from (S f) b o = true -> 0 <= o -> 0 <= _count s ->
  match _readTag b o s with
  | OutOfFuel => False
  | Throw e s1 => same_frame s s1
  | Ok TOO_SHORT s1 => same_frame s s1
  | Ok (Val r) s1 =>
      same_frame s s1 /\
      ((exists o' e, r = mkTagResult (Num o') (Some (Num (_count s + e)))
             /\ o < o' <= blen b /\ o' <= e /\ blen b <= e
             /\ well_formed_from f b e = true)
       \/ (exists o', r = mkTagResult (Num o') None
             /\ o < o' <= blen b /\ well_formed_from f b o' = true))
  end.
Proof.
  intros Hwf H0 Hc. pose proof (readTag_result b o s (wf_tag_ok _ _ _ Hwf)) as H.
  destruct (_readTag b o s) as [[|r] s1|e s1|]; try exact H.
  destruct H as [Hs (h & EH & H)]. split; [exact Hs|].
  pose proof (header_bounds _ _ _ EH) as Hb.
  destruct r as [ro [u|]]; cbn [res_skipUntil res_offset] in H.
  - destruct H as (d & EL & ED & Hd & Hl & -> & ->).
    left. exists (h_data h), (h_data h + d).
    rewrite Z.add_assoc. repeat split; try lia.
    apply (wf_payload _ _ _ _ _ Hwf EH); [congruence|exact ED].
  - destruct H as [[EL ->]|[EL (d & ED & Hd & -> & Hl)]].
    + right. exists (h_data h). repeat split; try lia.
      apply (wf_container _ _ _ _ Hwf EH EL).
    + right. exists (h_data h + d). repeat split; try lia.
      apply (wf_payload _ _ _ _ _ Hwf EH EL ED).
Qed.

Lemma truthy_None : truthy_value None = None.
Proof. reflexivity. Qed.

(** The three shapes of a step, as [walk] sees them. *)
Ltac step_cases Hwf H0 Hc :=
  match type of Hwf with
  | well_formed_from (S ?f) ?b ?o = true =>
      match type of Hc with
      | 0 <= _count ?s =>
          let H := fresh "Hstep" in
          pose proof (readTag_wf f b o s Hwf H0 Hc) as H
      end
  end.

Lemma walk_fuel (f : nat) : forall (f' : nat) (b : Buffer) (o : Z) (s : Demuxer),
  well_formed_from f b o = true -> 0 <= o -> 0 <= _count s -> (f <= f')%nat ->
  walk f' b o s = walk f b o s /\ walk f b o s <> OutOfFuel.
Proof.
  induction f as [|f IH]; intros f' b o s Hwf H0 Hc Hle; [discriminate|].
  destruct f' as [|f']; [lia|]. rewrite !walk_step.
  step_cases Hwf H0 Hc.
  destruct (_readTag b o s) as [[|r] s1|e s1|];
    try (split; [reflexivity|discriminate]); try contradiction.
  - destruct Hstep as [Hs [(o' & e & -> & Ho' & Hoe & He & Hwf')|(o' & -> & Ho' & Hwf')]];
      cbn [res_skipUntil res_offset].
    + rewrite truthy_Num by lia. split; [reflexivity|discriminate].
    + rewrite truthy_None, truthy_Num by lia.
      apply IH; try assumption; try lia. destruct Hs as [-> _]. exact Hc.
Qed.

Lemma walk_fuel_eq (f f' : nat) (b : Buffer) (o : Z) (s : Demuxer) :
  well_formed_from f b o = true -> 0 <= o -> 0 <= _count s -> (f <= f')%nat ->
  walk f' b o s = walk f b o s.
Proof. intros. apply walk_fuel; assumption. Qed.

(** Where a walk ends and what it leaves untouched. *)
Lemma walk_result (f : nat) : forall (b : Buffer) (o : Z) (s : Demuxer),
  well_formed_from f b o = true -> 0 <= o -> 0 <= _count s ->
  match walk f b o s with
  | OutOfFuel => False
  | Throw e s1 => True
  | Ok o1 s1 =>
      o <= o1 /\ (o <= blen b -> o1 <= blen b)
      /\ _count s1 = _count s /\ _length s1 = _length s
      /\ _remainder s1 = _remainder s
      /\ (_skipUntil s1 = _skipUntil s
          \/ exists e, _skipUntil s1 = Some (_count s + e) /\ blen b <= e /\ o1 < e)
  end.
Proof.
  induction f as [|f IH]; intros b o s Hwf H0 Hc; [discriminate|].
  rewrite walk_step. step_cases Hwf H0 Hc.
  destruct (_readTag b o s) as [[|r] s1|e s1|]; try exact I; try contradiction.
  - destruct Hstep as (E1 & E2 & E3 & E4). repeat split; try lia; try assumption.
    left; assumption.
  - destruct Hstep as [Hs [(o' & e & -> & Ho' & Hoe & He & Hwf')|(o' & -> & Ho' & Hwf')]];
      cbn [res_skipUntil res_offset]; destruct Hs as (E1 & E2 & E3 & E4).
    + rewrite truthy_Num by lia. cbn. repeat split; try lia; try assumption.
      right. exists e. repeat split; lia.
    + rewrite truthy_None, truthy_Num by lia.
      assert (Hc1 : 0 <= _count s1) by lia.
      specialize (IH b o' s1 Hwf' ltac:(lia) Hc1).
      destruct (walk f b o' s1) as [o1 s2|e s2|]; try exact IH.
      destruct IH as (I1 & I2 & I3 & I4 & I5 & I6).
      repeat split; try lia; try congruence.
      destruct I6 as [I6|(e & I6 & I7 & I8)]; [left; congruence|].
      right. exists e. rewrite <- E1. repeat split; assumption.
Qed.

(** Walking a suffix of the buffer. *)
Lemma walk_shift F (k : nat) (f : nat) : forall (b : Buffer) (off : Z) (s : Demuxer),
  Framing F (Z.of_nat k) ->
  (forall v s, F (set_skipUntil v s) = set_skipUntil v (F s)) ->
  well_formed_from f b (off + Z.of_nat k) = true ->
  0 <= off -> (k <= List.length b)%nat -> 0 <= _count s ->
  walk f (skipn k b) off (F s)
  = omap (fun o => o - Z.of_nat k) F (walk f b (off + Z.of_nat k) s).
Proof.
  induction f as [|f IH]; intros b off s HF Hsk Hwf H0 Hk Hc; [discriminate|].
  rewrite !walk_step.
  rewrite (readTag_shift F k b off s HF H0 Hk (wf_tag_ok _ _ _ Hwf)).
  assert (H0' : 0 <= off + Z.of_nat k) by lia.
  step_cases Hwf H0' Hc.
  destruct (_readTag b (off + Z.of_nat k) s) as [[|r] s1|e s1|];
    cbn [omap shift_result]; try reflexivity.
  - rewrite Z.add_simpl_r. reflexivity.
  - destruct Hstep as [Hs [(o' & e & -> & Ho' & Hoe & He & Hwf')|(o' & -> & Ho' & Hwf')]];
      cbn [res_skipUntil res_offset shift_offset]; destruct Hs as (E1 & E2 & E3 & E4).
    + rewrite truthy_Num by lia. cbn [omap].
      rewrite Z.add_simpl_r, Hsk. reflexivity.
    + rewrite !truthy_None, !truthy_Num by lia.
      replace o' with (o' - Z.of_nat k + Z.of_nat k) in Hwf' |- * at 2 by lia.
      apply IH; try assumption; lia.
Qed.

(** Walking a longer buffer: the walk passes where the shorter one stopped. *)
Lemma walk_ext (f : nat) : forall (b c : Buffer) (o : Z) (s : Demuxer),
  well_formed_from f (b ++ c) o = true -> 0 <= o -> 0 <= _count s ->
  match walk f b o s with
  | OutOfFuel => False
  | Throw e s1 => walk f (b ++ c) o s = Throw e s1
  | Ok o1 s1 =>
      (_skipUntil s1 = _skipUntil s
       /\ well_formed_from f (b ++ c) o1 = true
       /\ walk f (b ++ c) o s = walk f (b ++ c) o1 s1)
      \/ (exists s0 e,
            s1 = set_skipUntil (Some (_count s + e)) s0
            /\ same_frame s s0 /\ o1 < e /\ blen b <= e
            /\ well_formed_from f (b ++ c) e = true
            /\ walk f (b ++ c) o s =
                 if blen (b ++ c) >? e then walk f (b ++ c) e s0 else Ok o1 s1)
  end.
Proof.
  induction f as [|f IH]; intros b c o s Hwf H0 Hc; [discriminate|].
  pose proof (wf_prefix _ _ _ _ H0 Hwf) as Hwfb.
  rewrite walk_step.
  pose proof (readTag_ext b c o s H0 (wf_tag_ok _ _ _ Hwf)) as Hext.
  pose proof (readTag_wf f b o s Hwfb H0 Hc) as Hb.
  pose proof (readTag_wf f (b ++ c) o s Hwf H0 Hc) as Hbc.
  destruct (_readTag b o s) as [[|r] s1|e s1|]; try contradiction.
  - (* not enough data *)
    left. destruct Hb as (E1 & E2 & E3 & E4).
    split; [exact E4|]. split; [exact Hwf|].
    rewrite !walk_step, Hext. reflexivity.
  - destruct Hb as [Hs [(o' & e & -> & Ho' & Hoe & He & _)|(o' & -> & Ho' & _)]];
      cbn [res_skipUntil res_offset] in *.
    + (* an unknown tag that ends beyond the buffer *)
      rewrite truthy_Num by lia.
      destruct Hext as (e' & Ee & Hext).
      assert (e' = e) by (injection Ee; lia). subst e'.
      right. exists s1, e.
      rewrite walk_step, Hext. rewrite Hext in Hbc.
      destruct (blen (b ++ c) >? e).
      * destruct Hbc as [_ [(o2 & e2 & E & _)|(o2 & E & Ho2 & Hwf2)]];
          [discriminate|]. injection E as <-.
        split; [reflexivity|]. split; [exact Hs|]. split; [lia|].
        split; [exact He|]. split; [apply (wf_mono f); [exact Hwf2|lia]|].
        cbn [res_skipUntil res_offset].
        rewrite truthy_None, truthy_Num by lia.
        symmetry. apply walk_fuel_eq; try assumption; try lia.
        destruct Hs as [-> _]. exact Hc.
      * destruct Hbc as [_ [(o2 & e2 & E & _ & _ & _ & Hwf2)|(o2 & E & _)]];
          [|discriminate]. injection E as _ E. assert (e2 = e) by lia. subst e2.
        split; [reflexivity|]. split; [exact Hs|]. split; [lia|].
        split; [exact He|]. split; [apply (wf_mono f); [exact Hwf2|lia]|].
        cbn [res_skipUntil res_offset]. rewrite truthy_Num by lia. reflexivity.
    + (* a tag that is read in full *)
      rewrite truthy_None, truthy_Num by lia.
      rewrite Hext in Hbc.
      destruct Hbc as [_ [(o2 & e2 & E & _)|(o2 & E & Ho2 & Hwf2)]];
        [discriminate|]. injection E as <-.
      destruct Hs as (E1 & E2 & E3 & E4).
      assert (Hc1 : 0 <= _count s1) by lia.
      assert (Ho0 : 0 <= o') by lia.
      specialize (IH b c o' s1 Hwf2 Ho0 Hc1).
      pose proof (walk_result f b o' s1 (wf_prefix _ _ _ _ Ho0 Hwf2) Ho0 Hc1) as Hres.
      assert (Estep : walk (S f) (b ++ c) o s = walk f (b ++ c) o' s1).
      { rewrite walk_step, Hext. cbn [res_skipUntil res_offset].
        rewrite truthy_None, truthy_Num by lia. reflexivity. }
      rewrite Estep.
      destruct (walk f b o' s1) as [o1 s2|e s2|]; try exact IH.
      destruct Hres as (R1 & R2 & R3 & R4 & R5 & R6).
      destruct IH as [(I1 & I2 & I3)|(s0 & e & I1 & I2 & I3 & I4 & I5 & I6)].
      * left. split; [congruence|]. split; [apply (wf_mono f); [exact I2|lia]|].
        rewrite I3. symmetry. apply walk_fuel_eq; try assumption; lia.
      * right. exists s0, e. rewrite E1 in I1.
        split; [exact I1|].
        split; [eapply same_frame_trans; [|exact I2]; repeat split; assumption|].
        split; [exact I3|]. split; [exact I4|].
        split; [apply (wf_mono f); [exact I5|lia]|].
        rewrite I6. destruct (blen (b ++ c) >? e); [|reflexivity].
        symmetry. apply walk_fuel_eq; try assumption; try lia.
        destruct I2 as [-> _]. lia.
  - (* an exception *)
    rewrite walk_step, Hext. reflexivity.
Qed.

Lemma transform_unfold (fuel : nat) (c : Buffer) (s : Demuxer) :
  _transform fuel c s =
    let s1 := set_remainder None (set_length (_length s + blen c) s) in
    let chunk := pending (_remainder s) ++ c in
    match active_skip s with
    | Some until =>
        if _length s + blen c >? until
        then finish chunk (walk fuel chunk (until - _count s) (set_skipUntil None s1))
        else Ok tt (set_count (_count s + blen chunk) s1)
    | None => finish chunk (walk fuel chunk 0 s1)
    end.
Proof.
  destruct s as [r l cnt sk tr inc eb pu].
  cbv beta iota zeta delta
    [_transform bind modify this ret active_skip finish set_length
     set_remainder set_count set_skipUntil _remainder _length _count
     _skipUntil _track _incompleteTrack _ebmlFound pushed pending].
  destruct r as [r|]; cbv beta iota;
    destruct (truthy_value (option_map Num sk)) as [u|];
    try destruct (l + blen c >? u); try reflexivity;
    match goal with
    | |- context [walk ?f ?b ?o ?s] => destruct (walk f b o s); reflexivity
    end.
Qed.

Lemma walk_frame G (f : nat) (b : Buffer) (o : Z) (s : Demuxer) :
  Framing G 0 ->
  (forall v s, G (set_skipUntil v s) = set_skipUntil v (G s)) ->
  well_formed_from f b o = true -> 0 <= o -> 0 <= _count s ->
  walk f b o (G s) = omap (fun x => x) G (walk f b o s).
Proof.
  intros HG Hsk Hwf H0 Hc.
  pose proof (walk_shift G 0 f b o s HG Hsk) as H.
  cbn [Z.of_nat skipn] in H. rewrite Z.add_0_r in H.
  rewrite H by (assumption || lia).
  destruct (walk f b o s); cbn [omap]; rewrite ?Z.sub_0_r; reflexivity.
Qed.

Lemma Framing_set_length (v : Z) : Framing (set_length v) 0.
Proof. constructor; intros; try reflexivity. cbn. lia. Qed.

Lemma Framing_rebase (n k : Z) : Framing (rebase n k) k.
Proof. constructor; intros; reflexivity. Qed.

Lemma skipn_app_le (k : nat) (b c : Buffer) :
  (k <= List.length b)%nat -> skipn k (b ++ c) = skipn k b ++ c.
Proof.
  intros H. rewrite skipn_app. replace (k - List.length b)%nat with 0%nat by lia.
  reflexivity.
Qed.

(** Walking the part of [b] that starts at [cnt], from the position [p] of
    [b], is walking [b] from [p]. *)
Lemma resume (fuel : nat) (b : Buffer) (cnt p : Z) (s0 : Demuxer) :
  0 <= cnt <= p -> cnt <= blen b -> _count s0 = 0 ->
  well_formed_from fuel b p = true ->
  match finish (skipn (Z.to_nat cnt) b)
          (walk fuel (skipn (Z.to_nat cnt) b) (p - cnt) (rebase (blen b) cnt s0))
  with
  | Ok _ s' =>
      exists o2 s2,
        walk fuel b p s0 = Ok o2 s2
        /\ s' = set_remainder (Some (skipn (Z.to_nat o2) b))
                  (set_count o2 (set_length (blen b) s2))
  | Throw e s' => exists s2, walk fuel b p s0 = Throw e s2 /\ pushed s' = pushed s2
  | OutOfFuel => False
  end.
Proof.
  intros Hcnt Hle Hc Hwf.
  assert (Hk : Z.of_nat (Z.to_nat cnt) = cnt) by lia.
  pose proof (walk_shift (rebase (blen b) cnt) (Z.to_nat cnt) fuel b (p - cnt) s0) as H.
  rewrite Hk in H. replace (p - cnt + cnt) with p in H by lia.
  rewrite H; try assumption; try lia;
    [|apply Framing_rebase|reflexivity|unfold blen in Hle; lia].
  clear H.
  pose proof (walk_fuel fuel fuel b p s0 Hwf ltac:(lia) ltac:(lia) (le_n _)) as [_ Hne].
  pose proof (walk_result fuel b p s0 Hwf ltac:(lia) ltac:(lia)) as Hres.
  destruct (walk fuel b p s0) as [o2 s2|e s2|]; cbn [omap finish].
  - destruct Hres as (R1 & R2 & R3 & R4 & R5 & R6).
    exists o2, s2. split; [reflexivity|].
    rewrite slice_from_nonneg by lia. rewrite skipn_skipn.
    replace (Z.to_nat (o2 - cnt) + Z.to_nat cnt)%nat with (Z.to_nat o2) by lia.
    unfold rebase, set_remainder, set_count, set_length; cbn.
    f_equal. lia.
  - exists s2. split; reflexivity.
  - congruence.
Qed.

Lemma fresh_set_length (n m : Z) : set_length n (fresh m) = fresh n.
Proof. reflexivity. Qed.

Lemma canon_frame (fuel : nat) (b : Buffer) (m : Z) :
  well_formed_from fuel b 0 = true ->
  walk fuel b 0 (fresh (blen b))
  = omap (fun x => x) (set_length (blen b)) (walk fuel b 0 (fresh m)).
Proof.
  intros Hwf. rewrite <- (fresh_set_length (blen b) m).
  apply walk_frame; try assumption; try reflexivity; try lia.
  apply Framing_set_length.
Qed.

Lemma merge (fuel : nat) (P c : Buffer) (s : Demuxer) :
  well_formed_from fuel (P ++ c) 0 = true -> tracks fuel P s ->
  match _transform fuel c s with
  | Ok _ s' => tracks fuel (P ++ c) s'
  | Throw e s' =>
      exists s1,
        walk fuel (P ++ c) 0 (fresh (blen (P ++ c))) = Throw e s1
        /\ pushed s' = pushed s1
  | OutOfFuel => False
  end.
Proof.
  intros Hwf (o & s1 & r & cnt & HW & -> & Hshape).
  pose proof (wf_prefix _ _ _ _ (Z.le_refl 0) Hwf) as Hwfp.
  pose proof (walk_result fuel P 0 (fresh (blen P)) Hwfp (Z.le_refl 0) (Z.le_refl 0)) as Hres.
  pose proof (walk_ext fuel P c 0 (fresh (blen P)) Hwf (Z.le_refl 0) (Z.le_refl 0)) as Hext.
  pose proof (canon_frame fuel (P ++ c) (blen P) Hwf) as Hcanon.
  rewrite HW in Hres, Hext.
  destruct Hres as (R1 & R2 & R3 & R4 & R5 & _).
  specialize (R2 (blen_nonneg P)).
  cbn [fresh _count _length _remainder set_length init] in R3, R4, R5.
  pose proof (blen_app P c) as Hn. pose proof (blen_nonneg c) as Hc0.
  rewrite transform_unfold.
  cbv zeta.
  replace (_length (set_remainder r (set_count cnt s1))) with (blen P) by (symmetry; exact R4).
  replace (_remainder (set_remainder r (set_count cnt s1))) with r by reflexivity.
  replace (_count (set_remainder r (set_count cnt s1))) with cnt by reflexivity.
  replace (active_skip (set_remainder r (set_count cnt s1))) with (active_skip s1) by reflexivity.
  rewrite <- Hn.
  destruct Hext as [(I1 & I2 & I3)|(s0 & e & I1 & I2 & I3 & I4 & I5 & I6)].
  - (* the walk over P stopped for lack of data *)
    cbn [fresh _skipUntil set_length init] in I1.
    unfold active_skip. rewrite I1. cbn [option_map truthy_value].
    destruct Hshape as [[-> Hr]|(e & He & _)]; [|congruence].
    rewrite Hr, <- skipn_app_le by (unfold blen in R2; lia).
    replace (set_remainder None (set_length (blen (P ++ c)) (set_remainder r (set_count o s1))))
      with (rebase (blen (P ++ c)) o s1)
      by (unfold rebase, set_remainder, set_length, set_count; cbn; f_equal; lia).
    pose proof (resume fuel (P ++ c) o o s1 ltac:(lia) ltac:(lia) R3 I2) as H.
    rewrite Z.sub_diag in H.
    rewrite I3 in Hcanon.
    destruct (finish _ _) as [u s'|e s'|]; [| |exact H].
    + destruct H as (o2 & s2 & H1 & ->). rewrite H1 in Hcanon. cbn [omap] in Hcanon.
      exists o2, (set_length (blen (P ++ c)) s2), (Some (skipn (Z.to_nat o2) (P ++ c))), o2.
      split; [exact Hcanon|]. split; [reflexivity|]. left. split; reflexivity.
    + destruct H as (s2 & H1 & H2). rewrite H1 in Hcanon. cbn [omap] in Hcanon.
      exists (set_length (blen (P ++ c)) s2). split; [exact Hcanon|exact H2].
  - (* the walk over P stopped on an unknown tag that ends at e *)
    destruct I2 as (J1 & J2 & J3 & J4).
    cbn [fresh _count _skipUntil set_length init] in I1, J1, J4.
    rewrite Z.add_0_l in I1.
    assert (Ha : active_skip s1 = Some e).
    { unfold active_skip. rewrite I1. cbn [_skipUntil set_skipUntil option_map].
      apply truthy_Num. lia. }
    rewrite Ha.
    assert (Hcnt : 0 <= cnt <= blen P
                   /\ pending r ++ c = skipn (Z.to_nat cnt) (P ++ c)).
    { destruct Hshape as [[-> Hr]|(e' & _ & -> & Hr)].
      - split; [lia|]. rewrite Hr, <- skipn_app_le by (unfold blen in R2; lia).
        reflexivity.
      - split; [lia|]. rewrite Hr. unfold blen. rewrite Nat2Z.id.
        rewrite skipn_app_le by lia. rewrite skipn_all. reflexivity. }
    destruct Hcnt as [Hcnt Hchunk]. rewrite Hchunk.
    rewrite I6 in Hcanon.
    destruct (Z.gtb_spec (blen (P ++ c)) e) as [Hgt|Hle].
    + replace (set_skipUntil None
                 (set_remainder None (set_length (blen (P ++ c))
                    (set_remainder r (set_count cnt s1)))))
        with (rebase (blen (P ++ c)) cnt s0).
      2:{ rewrite I1. unfold rebase, set_remainder, set_length, set_count,
            set_skipUntil; cbn. rewrite J1, J4. reflexivity. }
      pose proof (resume fuel (P ++ c) cnt e s0 ltac:(lia) ltac:(lia) J1 I5) as H.
      destruct (finish _ _) as [u s'|e' s'|]; [| |exact H].
      * destruct H as (o2 & s2 & H1 & ->). rewrite H1 in Hcanon. cbn [omap] in Hcanon.
        exists o2, (set_length (blen (P ++ c)) s2), (Some (skipn (Z.to_nat o2) (P ++ c))), o2.
        split; [exact Hcanon|]. split; [reflexivity|]. left. split; reflexivity.
      * destruct H as (s2 & H1 & H2). rewrite H1 in Hcanon. cbn [omap] in Hcanon.
        exists (set_length (blen (P ++ c)) s2). split; [exact Hcanon|exact H2].
    + cbn [omap] in Hcanon.
      exists o, (set_length (blen (P ++ c)) s1), None, (blen (P ++ c)).
      split; [exact Hcanon|]. split.
      * rewrite blen_skipn by (unfold blen in *; lia).
        unfold set_remainder, set_length, set_count; cbn. f_equal. lia.
      * right. exists e. rewrite I1. repeat split.
Qed.

Lemma tracks_init (fuel : nat) : tracks (S fuel) [] init.
Proof.
  exists 0, (fresh 0), None, 0. split; [reflexivity|].
  split; [reflexivity|]. left. split; reflexivity.
Qed.

Lemma run_tracks (fuel : nat) (chunks : list Buffer) :
  forall (P : Buffer) (s : Demuxer),
  tracks fuel P s ->
  well_formed_from fuel (P ++ List.concat chunks) 0 = true ->
  match run fuel chunks s with
  | Ok _ s' => tracks fuel (P ++ List.concat chunks) s'
  | Throw e s' =>
      exists s1,
        walk fuel (P ++ List.concat chunks) 0 (fresh (blen (P ++ List.concat chunks)))
          = Throw e s1
        /\ pushed s' = pushed s1
  | OutOfFuel => False
  end.
Proof.
  induction chunks as [|c rest IH]; intros P s Ht Hwf; cbn [run List.concat] in *.
  - rewrite app_nil_r. exact Ht.
  - rewrite app_assoc in *.
    pose proof (wf_prefix _ _ _ _ (Z.le_refl 0) Hwf) as Hwf1.
    pose proof (merge fuel P c s Hwf1 Ht) as Hm.
    unfold bind. destruct (_transform fuel c s) as [u s'|e s'|]; [| |exact Hm].
    + apply IH; assumption.
    + destruct Hm as (s1 & H1 & H2).
      pose proof (walk_ext fuel (P ++ c) (List.concat rest) 0 (fresh (blen (P ++ c)))
                    Hwf (Z.le_refl 0) (Z.le_refl 0)) as Hext.
      rewrite H1 in Hext.
      rewrite (canon_frame fuel _ (blen (P ++ c)) Hwf), Hext.
      exists (set_length (blen ((P ++ c) ++ List.concat rest)) s1).
      split; [reflexivity|exact H2].
Qed.

Lemma run_canonical (fuel : nat) (chunks : list Buffer) :
  well_formed_from (S fuel) (List.concat chunks) 0 = true ->
  observed (run (S fuel) chunks init)
  = observed (walk (S fuel) (List.concat chunks) 0 (fresh (blen (List.concat chunks))))
  /\ observed (run (S fuel) chunks init) <> None.
Proof.
  intros Hwf.
  pose proof (run_tracks (S fuel) chunks [] init (tracks_init fuel) Hwf) as H.
  cbn [app] in H.
  destruct (run (S fuel) chunks init) as [u s'|e s'|]; [| |contradiction].
  - destruct H as (o & s1 & r & cnt & HW & -> & _). rewrite HW.
    split; [reflexivity|discriminate].
  - destruct H as (s1 & HW & Hp). rewrite HW. cbn [observed]. rewrite Hp.
    split; [reflexivity|discriminate].
Qed.

(** ** Invariants *)

Section Keeps.
Variables (I : Demuxer -> Prop) (E : string -> Prop).

Lemma keeps_ret {A : Type} (a : A) : keeps I E (ret a).
Proof. intros s H. exact H. Qed.

Lemma keeps_throw {A : Type} (e : string) : E e -> keeps I E (@throw A e).
Proof. intros He s H. split; assumption. Qed.

Lemma keeps_bind {A B : Type} (m : M A) (k : A -> M B) :
  keeps I E m -> (forall a, keeps I E (k a)) -> keeps I E (bind m k).
Proof.
  intros Hm Hk s H. unfold bind. specialize (Hm s H).
  destruct (m s) as [a s1|e s1|]; cbn [holds] in *; try assumption.
  apply Hk. exact Hm.
Qed.

Lemma keeps_bind_this {B : Type} (k : Demuxer -> M B) :
  (forall s, I s -> holds I E (k s s)) -> keeps I E (bind this k).
Proof. intros Hk s H. unfold bind, this. apply Hk. exact H. Qed.

Lemma keeps_modify (f : Demuxer -> Demuxer) :
  (forall s, I s -> I (f s)) -> keeps I E (modify f).
Proof. intros Hf s H. apply Hf. exact H. Qed.

Lemma keeps_when (c : bool) (m : M unit) : keeps I E m -> keeps I E (when c m).
Proof. intros H. destruct c; [exact H|apply keeps_ret]. Qed.

Lemma keeps_add_dataLength (o : Z) (d : short jsnumber) :
  E SYMBOL_TO_NUMBER -> keeps I E (add_dataLength o d).
Proof.
  intros He. destruct d; [apply keeps_throw; exact He|apply keeps_ret].
Qed.

(** Reading a tag keeps an invariant that track discovery and the emission
    of a block keep, and that opening the gate keeps. *)
Lemma keeps_readTag (b : Buffer) (o : Z) :
  E SYMBOL_TO_NUMBER ->
  (forall s ebmlID, I s -> _ebmlFound s = false ->
     if (ebmlID =? "1a45dfa3")%string then I (set_ebmlFound true s)
     else E EBML_NOT_FOUND) ->
  (forall ebmlID data, keeps I E (discover ebmlID data)) ->
  (forall ebmlID data, keeps I E (dispatch ebmlID data)) ->
  keeps I E (_readTag b o).
Proof.
  intros He Hgate Hdisc Hdisp. unfold _readTag.
  destruct (_readEBMLId b o) as [|idd]; [apply keeps_ret|].
  apply keeps_bind_this. intros s Hs.
  match goal with
  | |- holds _ _ (bind _ ?k _) => assert (HK : forall u, keeps I E (k u))
  end.
  { intros _. destruct (_readTagDataSize b (id_offset idd)) as [|sd];
      [apply keeps_ret|].
    destruct (lookup (toHex (id idd)) TAGS) as [[|]|].
    + apply keeps_ret.
    + apply keeps_bind; [apply keeps_add_dataLength; exact He|]. intros end_.
      destruct (ngt end_ (Num (blen b))); [apply keeps_ret|].
      apply keeps_bind; [apply Hdisc|]. intros _.
      apply keeps_bind; [apply Hdisp|]. intros _. apply keeps_ret.
    + apply keeps_bind; [apply keeps_add_dataLength; exact He|]. intros end_.
      destruct (ngt (Num (blen b)) end_); [apply keeps_ret|].
      apply keeps_bind_this. intros s1 Hs1.
      apply (keeps_bind _ _ (keeps_add_dataLength _ _ He)); [|exact Hs1].
      intros u. apply keeps_ret. }
  unfold bind at 1. unfold when, modify, throw, ret.
  specialize (Hgate s (toHex (id idd)) Hs).
  destruct (_ebmlFound s); cbn [negb].
  - exact (HK tt s Hs).
  - destruct (toHex (id idd) =? "1a45dfa3")%string.
    + exact (HK tt _ (Hgate eq_refl)).
    + split; [exact Hs|]. exact (Hgate eq_refl).
Qed.

Lemma keeps_walk (fuel : nat) (b : Buffer) :
  (forall v s, I s -> I (set_skipUntil v s)) ->
  (forall o, keeps I E (_readTag b o)) ->
  forall o, keeps I E (walk fuel b o).
Proof.
  intros Hsk Hrt. induction fuel as [|fuel IH]; intros o; [intros s _; exact Logic.I|].
  cbn [walk]. apply keeps_bind; [apply Hrt|]. intros [|r]; [apply keeps_ret|].
  destruct (truthy_value (res_skipUntil r)) as [u|].
  - apply keeps_bind; [apply keeps_modify; intros s; apply Hsk|]. intros _.
    apply keeps_ret.
  - destruct (truthy_value (Some (res_offset r))); [apply IH|apply keeps_ret].
Qed.

Lemma keeps_transform (fuel : nat) (c : Buffer) :
  parse_only I ->
  (forall b o, keeps I E (_readTag b o)) ->
  keeps I E (_transform fuel c).
Proof.
  intros Hpo Hrt.
  assert (Hw : forall b o, keeps I E (walk fuel b o)).
  { intros b o. apply keeps_walk; [|apply Hrt].
    intros v s. apply Hpo; reflexivity. }
  assert (Hm : forall f : Demuxer -> Demuxer,
             (forall s, _track (f s) = _track s
                        /\ _incompleteTrack (f s) = _incompleteTrack s
                        /\ _ebmlFound (f s) = _ebmlFound s
                        /\ pushed (f s) = pushed s) ->
             keeps I E (modify f)).
  { intros f Hf. apply keeps_modify. intros s. destruct (Hf s) as (H1 & H2 & H3 & H4).
    apply Hpo; assumption. }
  unfold _transform.
  apply keeps_bind; [apply Hm; intros s; repeat split|]. intros _.
  apply keeps_bind_this. intros s Hs. revert s Hs.
  intros s0 Hs0.
  match goal with
  | |- holds _ _ (bind ?m ?k _) =>
      assert (H1 : keeps I E m);
      [|assert (H2 : forall u, keeps I E (k u)); [|apply (keeps_bind _ _ H1 H2); exact Hs0]]
  end.
  - destruct (_remainder s0); [|apply keeps_ret].
    apply keeps_bind; [apply Hm; intros s; repeat split|]. intros _. apply keeps_ret.
  - intros chunk. apply keeps_bind_this. intros s Hs.
    destruct (active_skip s) as [u|].
    + destruct (_length s >? u).
      * revert s Hs. intros s Hs.
        apply (fun H1 H2 => keeps_bind _ _ H1 H2 s Hs);
          [apply Hm; intros; repeat split|]. intros _.
        apply keeps_bind; [apply Hw|]. intros o.
        apply keeps_bind; [apply Hm; intros; repeat split|]. intros _.
        apply Hm; intros; repeat split.
      * apply (Hm (fun s1 => set_count (_count s1 + blen chunk) s1));
          [intros; repeat split|exact Hs].
    + apply (fun H1 H2 => keeps_bind _ _ H1 H2 s Hs); [apply Hw|]. intros o.
      apply keeps_bind; [apply Hm; intros; repeat split|]. intros _.
      apply Hm; intros; repeat split.
Qed.

Lemma keeps_run (fuel : nat) (chunks : list Buffer) :
  parse_only I ->
  (forall b o, keeps I E (_readTag b o)) ->
  keeps I E (run fuel chunks).
Proof.
  intros Hpo Hrt. induction chunks as [|c rest IH]; cbn [run]; [apply keeps_ret|].
  apply keeps_bind; [apply keeps_transform; assumption|]. intros _. exact IH.
Qed.
End Keeps.

Lemma discover_result (ebmlID : string) (data : Buffer) (s : Demuxer) :
  exists s1,
    discover ebmlID data s = Ok tt s1
    /\ pushed s1 = pushed s /\ _ebmlFound s1 = _ebmlFound s
    /\ (_track s <> None -> s1 = s)
    /\ (_track s = None -> consistent s1).
Proof.
  unfold discover, bind, this, when, modify, ret, consistent, promotable.
  destruct (_track s) as [t|] eqn:Et.
  { exists s. repeat split; try congruence. }
  destruct (ebmlID =? "ae")%string, (ebmlID =? "d7")%string,
    (ebmlID =? "83")%string;
    cbn [_incompleteTrack set_incompleteTrack type number];
    repeat match goal with
    | |- context [match ?x with _ => _ end] => destruct x eqn:?
    end;
    eexists; (split; [reflexivity|]);
    cbn [pushed _ebmlFound _track _incompleteTrack set_track
         set_incompleteTrack type number];
    repeat split; try congruence;
    try (intros _ _ [H1 H2]; congruence).
Qed.

Lemma land_15_range (x : Z) : 0 <= Z.land x 15 <= 15.
Proof.
  change 15 with (Z.ones 4). rewrite Z.land_ones by lia.
  pose proof (Z.mod_pos_bound x (2 ^ 4) ltac:(lia)). change (Z.ones 4) with 15.
  change (2 ^ 4) with 16 in *. lia.
Qed.

Lemma js_and_15_range (x : Z) : 0 <= js_and x 15 <= 15.
Proof. unfold js_and. change (toInt32 15) with 15. apply land_15_range. Qed.

Lemma dispatch_result (ebmlID : string) (data : Buffer) (s : Demuxer) :
  match dispatch ebmlID data s with
  | Ok _ s1 =>
      s1 = s
      \/ (exists t n, s1 = push (slice_from data (Num 4)) s
            /\ ebmlID = "a3"%string
            /\ _track s = Some t /\ number t = Some n
            /\ js_and (toInt32n (toNumber (at_ data 0))) 15 = n)
  | Throw e s1 =>
      s1 = s
      /\ ((e = NOT_OPUS /\ ebmlID = "63a2"%string)
          \/ (e = NO_AUDIO_TRACK /\ ebmlID = "a3"%string /\ _track s = None))
  | OutOfFuel => False
  end.
Proof.
  unfold dispatch, bind, this, when, modify, ret, throw.
  destruct (String.eqb_spec ebmlID "63a2") as [Hc|Hc].
  { destruct (negb _); [split; [reflexivity|left; split; assumption || reflexivity]
                       |left; reflexivity]. }
  destruct (String.eqb_spec ebmlID "a3") as [Ha|Ha]; [|left; reflexivity].
  destruct (_track s) as [t|] eqn:Et.
  - destruct (number t) as [n|] eqn:En; [|left; reflexivity].
    destruct (Z.eqb_spec (js_and (toInt32n (toNumber (at_ data 0))) 15) n)
      as [Hn|Hn]; [|left; reflexivity].
    right. exists t, n. repeat split; assumption.
  - split; [reflexivity|]. right. repeat split; assumption.
Qed.

(** *** The header gate stays open *)

Lemma gate_keeps_readTag (b : Buffer) (o : Z) :
  keeps gate_open (fun e => e <> EBML_NOT_FOUND) (_readTag b o).
Proof.
  apply keeps_readTag.
  - discriminate.
  - unfold gate_open. intros s ebmlID H1 H2. congruence.
  - intros ebmlID data s Hs.
    destruct (discover_result ebmlID data s) as (s1 & -> & _ & He & _).
    unfold gate_open in *. cbn [holds]. congruence.
  - intros ebmlID data s Hs. pose proof (dispatch_result ebmlID data s) as H.
    unfold gate_open in *.
    destruct (dispatch ebmlID data s) as [u s1|e s1|]; cbn [holds]; [| |exact Logic.I].
    + destruct H as [->|(t & n & -> & _)]; exact Hs.
    + destruct H as [-> [[-> _]|[-> _]]]; (split; [exact Hs|discriminate]).
Qed.

Lemma parse_only_gate_open : parse_only gate_open.
Proof. unfold parse_only, gate_open. intros. congruence. Qed.

(** *** Consistency of the accumulator *)

Lemma consistent_keeps_readTag (b : Buffer) (o : Z) :
  keeps consistent (fun _ => True) (_readTag b o).
Proof.
  apply keeps_readTag.
  - exact Logic.I.
  - intros s ebmlID Hs _. destruct (ebmlID =? "1a45dfa3")%string;
      [exact Hs|exact Logic.I].
  - intros ebmlID data s Hs.
    destruct (discover_result ebmlID data s) as (s1 & -> & _ & _ & H1 & H2).
    cbn [holds]. destruct (_track s) eqn:Et.
    + rewrite H1 by congruence. exact Hs.
    + apply H2. reflexivity.
  - intros ebmlID data s Hs. pose proof (dispatch_result ebmlID data s) as H.
    destruct (dispatch ebmlID data s) as [u s1|e s1|]; cbn [holds]; [| |exact Logic.I].
    + destruct H as [->|(t & n & -> & _)]; exact Hs.
    + destruct H as [-> _]. split; [exact Hs|exact Logic.I].
Qed.

Lemma parse_only_consistent : parse_only consistent.
Proof.
  unfold parse_only, consistent. intros s s' H1 H2 _ _ H Ht.
  rewrite H2. apply H. congruence.
Qed.

Lemma consistent_init : consistent init.
Proof. intros _ [H _]. discriminate. Qed.

Lemma consistent_run (fuel : nat) (chunks : list Buffer) :
  holds consistent (fun _ => True) (run fuel chunks init).
Proof.
  apply keeps_run;
    [exact parse_only_consistent|exact consistent_keeps_readTag|exact consistent_init].
Qed.

(** *** What is pushed *)

Lemma emits_keeps_readTag (b : Buffer) (o : Z) :
  keeps emits_ok (fun _ => True) (_readTag b o).
Proof.
  apply keeps_readTag.
  - exact Logic.I.
  - intros s ebmlID Hs _. destruct (ebmlID =? "1a45dfa3")%string;
      [exact Hs|exact Logic.I].
  - intros ebmlID data s Hs.
    destruct (discover_result ebmlID data s) as (s1 & -> & Hp & _ & H1 & _).
    cbn [holds]. unfold emits_ok in *. rewrite Hp. intros Hne.
    specialize (Hs Hne). destruct Hs as (t & n & Ht & Hn).
    rewrite H1 by congruence. exists t, n. split; assumption.
  - intros ebmlID data s Hs. pose proof (dispatch_result ebmlID data s) as H.
    destruct (dispatch ebmlID data s) as [u s1|e s1|]; cbn [holds]; [| |exact Logic.I].
    + destruct H as [->|(t & n & -> & _ & Ht & Hn & Hnib)]; [exact Hs|].
      intros _. exists t, n. cbn [_track push]. repeat split; try assumption;
        rewrite <- Hnib; apply js_and_15_range.
    + destruct H as [-> _]. split; [exact Hs|exact Logic.I].
Qed.

Lemma parse_only_emits_ok : parse_only emits_ok.
Proof.
  unfold parse_only, emits_ok. intros s s' H1 _ _ H4 H. rewrite H1, H4. exact H.
Qed.

(** ** A length field that starts with a zero byte *)

Lemma vintLength_zero_marker (buffer : Buffer) (index : Z) :
  at_ buffer index = Some 0 ->
  vintLength buffer index =
    if index + 9 >? blen buffer then TOO_SHORT else Val 9.
Proof.
  intros H. unfold vintLength. rewrite H. reflexivity.
Qed.

(** C6 (the code does not do this).  A length field whose first byte is zero
    is not rejected: [vintLength] answers 9 as soon as nine bytes are there
    ([TOO_SHORT] before), whatever the buffer and the position.  In
    [zero_marker_stream] the nine bytes are read as the length 2 and the walk
    goes on to the next tag without an exception. *)
Theorem zero_marker_is_read_as_nine_bytes :
  (forall (buffer : Buffer) (index : Z),
     at_ buffer index = Some 0 ->
     vintLength buffer index =
       if index + 9 >? blen buffer then TOO_SHORT else Val 9)
  /\ _readTagDataSize zero_marker_stream 6 =
       Val {| size_offset := 15; dataLength := Val (Num 2); sizeLength := 9 |}
  /\ run 100 [zero_marker_stream] init =
       Ok tt {| _remainder := Some []; _length := 20; _count := 20;
                _skipUntil := None; _track := None;
                _incompleteTrack := {| number := Some 3; type := None |};
                _ebmlFound := true; pushed := [] |}.
Proof.
  split; [exact vintLength_zero_marker|]. split; vm_compute; reflexivity.
Qed.

(** ** Reading back an encoded vint *)

Lemma byteval_range (b : byte) : 0 <= byteval b < 256.
Proof.
  unfold byteval. pose proof (Byte.to_N_bounded b). lia.
Qed.

Lemma byteval_byte_of_Z (z : Z) : byteval (byte_of_Z z) = z mod 256.
Proof.
  unfold byte_of_Z, byteval.
  pose proof (Z.mod_pos_bound z 256 ltac:(lia)) as Hb.
  destruct (Byte.of_N (Z.to_N (z mod 256))) as [b|] eqn:E.
  - apply Byte.to_of_N in E. rewrite E. lia.
  - apply Byte.of_N_None_iff in E. lia.
Qed.

(** The scan finds the highest bit of a byte that is not zero. *)
Lemma vint_scan_log2 (b : Z) :
  0 < b < 256 -> vint_scan 8 0 (Some b) = 7 - Z.log2 b.
Proof.
  intros Hb.
  assert (H : forallb (fun n => vint_scan 8 0 (Some (Z.of_nat n))
                                =? 7 - Z.log2 (Z.of_nat n))
                (seq 1 255) = true) by (vm_compute; reflexivity).
  rewrite forallb_forall in H.
  specialize (H (Z.to_nat b)). rewrite Z2Nat.id in H by lia.
  apply Z.eqb_eq. apply H. apply in_seq. lia.
Qed.

Lemma toInt32_small (z : Z) : - 2 ^ 31 <= z < 2 ^ 31 -> toInt32 z = z.
Proof.
  intros H. unfold toInt32. rewrite Z.mod_small; lia.
Qed.

Lemma js_shl_8 (z : Z) : 0 <= z -> z * 256 < 2 ^ 31 -> js_shl z 8 = z * 256.
Proof.
  intros H0 H. unfold js_shl. rewrite (toInt32_small z) by lia.
  change (8 mod 32) with 8. rewrite Z.shiftl_mul_pow2 by lia.
  change (2 ^ 8) with 256. apply toInt32_small. lia.
Qed.

Lemma js_and_mask (b : Z) (k : Z) :
  0 <= b < 256 -> 0 <= k <= 7 ->
  js_and b (js_shl 1 k - 1) = b mod 2 ^ k.
Proof.
  intros Hb Hk. unfold js_and.
  assert (E : js_shl 1 k = 2 ^ k).
  { unfold js_shl. rewrite (toInt32_small 1) by lia.
    rewrite Z.mod_small by lia. rewrite Z.shiftl_1_l.
    apply toInt32_small. split; [lia|]. apply Z.pow_lt_mono_r; lia. }
  rewrite E, (toInt32_small b) by lia.
  assert (0 < 2 ^ k <= 2 ^ 7) by (split; [lia|apply Z.pow_le_mono_r; lia]).
  rewrite toInt32_small by lia.
  rewrite <- Z.land_ones by lia. rewrite Z.ones_equiv. reflexivity.
Qed.

Lemma at_head (b : byte) (l : Buffer) : at_ (b :: l) 0 = Some (byteval b).
Proof. reflexivity. Qed.

Lemma at_tail (b : byte) (l : Buffer) (i : Z) :
  0 < i -> at_ (b :: l) i = at_ l (i - 1).
Proof.
  intros H. unfold at_.
  destruct (Z.ltb_spec i 0); [lia|]. destruct (Z.ltb_spec (i - 1) 0); [lia|].
  replace (Z.to_nat i) with (S (Z.to_nat (i - 1))) by lia. reflexivity.
Qed.

(** Folding bytes that are the base-256 digits of [x]. *)
Lemma expand_loop_digits (n : nat) : forall (buf : Buffer) (i x acc : Z),
  0 <= x < 2 ^ 31 -> 0 <= i ->
  acc = x / 256 ^ Z.of_nat n ->
  (forall j, 0 <= j < Z.of_nat n ->
     at_ buf (i + j) = Some ((x / 256 ^ (Z.of_nat n - 1 - j)) mod 256)) ->
  expand_loop n buf i (Num acc) = Num x.
Proof.
  induction n as [|n IH]; intros buf i x acc Hx Hi Hacc Hat.
  - cbn [expand_loop]. rewrite Hacc. cbn. rewrite Z.div_1_r. reflexivity.
  - cbn [expand_loop].
    specialize (Hat 0 ltac:(lia)) as H0. rewrite Z.add_0_r in H0. rewrite H0.
    replace (Z.of_nat (S n) - 1 - 0) with (Z.of_nat n) by lia.
    cbn [toNumber toInt32n nadd].
    assert (Hp : 0 < 256 ^ Z.of_nat n) by (apply Z.pow_pos_nonneg; lia).
    remember (x / 256 ^ Z.of_nat n) as y eqn:Ey.
    assert (Hy : 0 <= y <= x).
    { rewrite Ey. split; [apply Z.div_pos; lia|].
      apply Z.div_le_upper_bound; [lia|]. nia. }
    assert (Ea : acc = y / 256).
    { rewrite Hacc, Ey. rewrite Z.div_div by lia.
      f_equal. rewrite Nat2Z.inj_succ, Z.pow_succ_r by lia. lia. }
    assert (Hacc' : 0 <= acc /\ acc * 256 + y mod 256 = y).
    { clear - Ea Hy. Z.div_mod_to_equations. lia. }
    pose proof (Z.mod_pos_bound y 256 ltac:(lia)) as Hm.
    rewrite toInt32_small by lia.
    rewrite js_shl_8 by lia.
    apply (IH buf (i + 1) x); try lia.
    + intros j Hj. replace (i + 1 + j) with (i + (j + 1)) by lia.
      rewrite Hat by lia.
      replace (Z.of_nat (S n) - 1 - (j + 1)) with (Z.of_nat n - 1 - j) by lia.
      reflexivity.
Qed.

Lemma at_app_r (b c : Buffer) (i : Z) :
  blen b <= i -> at_ (b ++ c) i = at_ c (i - blen b).
Proof.
  intros H. unfold at_, blen in *.
  destruct (Z.ltb_spec i 0); [lia|].
  destruct (Z.ltb_spec (i - Z.of_nat (List.length b)) 0); [lia|].
  rewrite nth_error_app2 by lia. do 2 f_equal. lia.
Qed.

Lemma length_be_bytes (n : nat) : forall x, List.length (be_bytes n x) = n.
Proof.
  induction n as [|n IH]; intros x; cbn [be_bytes]; [reflexivity|].
  rewrite length_app, IH. cbn. lia.
Qed.

(** The bytes of [be_bytes] are the base-256 digits, most significant
    first. *)
Lemma at_be_bytes (n : nat) : forall (x : Z) (rest : Buffer) (i : Z),
  0 <= i < Z.of_nat n ->
  at_ (be_bytes n x ++ rest) i
  = Some ((x / 256 ^ (Z.of_nat n - 1 - i)) mod 256).
Proof.
  induction n as [|n IH]; intros x rest i Hi; [lia|].
  cbn [be_bytes]. rewrite <- app_assoc.
  destruct (Z_lt_ge_dec i (Z.of_nat n)) as [Hlt|Hge].
  - rewrite IH by lia. rewrite Z.div_div by (try apply Z.pow_pos_nonneg; lia).
    do 3 f_equal. rewrite <- Z.pow_succ_r by lia. f_equal. lia.
  - assert (i = Z.of_nat n) by lia. subst i.
    rewrite at_app_r by (unfold blen; rewrite length_be_bytes; lia).
    unfold blen. rewrite length_be_bytes, Z.sub_diag. cbn [app].
    rewrite at_head, byteval_byte_of_Z.
    replace (Z.of_nat (S n) - 1 - Z.of_nat n) with 0 by lia.
    rewrite Z.pow_0_r, Z.div_1_r. reflexivity.
Qed.

Ltac eval_pow :=
  repeat match goal with
    | |- context [Z.pow ?a ?b] =>
        let c := eval vm_compute in (Z.pow a b) in
        progress change (Z.pow a b) with c
    | H : context [Z.pow ?a ?b] |- _ =>
        let c := eval vm_compute in (Z.pow a b) in
        progress change (Z.pow a b) with c in H
    end.

Ltac each_length len :=
  destruct len as [|[|[|[|[|[|[|[|[|len]]]]]]]]]; try lia.

(** The first byte of a vint: the marker bit, then the high bits of the
    value. *)
Lemma vint_first_byte (len : nat) (v : Z) :
  (1 <= len <= 8)%nat -> 0 <= v < 2 ^ (7 * Z.of_nat len) ->
  ((2 ^ (7 * Z.of_nat len) + v) / 256 ^ (Z.of_nat len - 1)) mod 256
  = 2 ^ (8 - Z.of_nat len) + v / 256 ^ (Z.of_nat len - 1)
  /\ 0 <= v / 256 ^ (Z.of_nat len - 1) < 2 ^ (8 - Z.of_nat len).
Proof.
  intros Hl Hv. each_length len; eval_pow; Z.div_mod_to_equations; lia.
Qed.

(** The other bytes are digits of the value. *)
Lemma vint_other_bytes (len : nat) (v m : Z) :
  (1 <= len <= 8)%nat -> 0 <= v < 2 ^ (7 * Z.of_nat len) ->
  0 <= m <= Z.of_nat len - 2 ->
  ((2 ^ (7 * Z.of_nat len) + v) / 256 ^ m) mod 256 = (v / 256 ^ m) mod 256.
Proof.
  intros Hl Hv Hm.
  each_length len;
    assert (Em : m = 0 \/ m = 1 \/ m = 2 \/ m = 3 \/ m = 4 \/ m = 5 \/ m = 6)
      by lia;
    repeat (destruct Em as [Em|Em]; [subst m; try lia|]); try subst m; try lia;
    eval_pow; Z.div_mod_to_equations; lia.
Qed.

Lemma blen_encodeVint (len : nat) (v : Z) : blen (encodeVint len v) = Z.of_nat len.
Proof. unfold blen, encodeVint. rewrite length_be_bytes. reflexivity. Qed.

(** Reading back a vint whose value is below [2^31]. *)
Lemma vint_roundtrip (len : nat) (v : Z) (rest : Buffer) :
  (1 <= len <= 8)%nat -> 0 <= v < 2 ^ (7 * Z.of_nat len) -> v < 2 ^ 31 ->
  vintLength (encodeVint len v ++ rest) 0 = Val (Z.of_nat len)
  /\ expandVint (encodeVint len v ++ rest) 0 (0 + Z.of_nat len) = Val (Num v).
Proof.
  intros Hl Hv Hv31.
  destruct (vint_first_byte len v Hl Hv) as [Hb0 Hhi].
  set (L := Z.of_nat len) in *.
  assert (HL : 1 <= L <= 8) by (unfold L; lia).
  set (buf := encodeVint len v ++ rest).
  assert (Hlen : L <= blen buf).
  { unfold buf. rewrite blen_app, blen_encodeVint. pose proof (blen_nonneg rest).
    fold L. lia. }
  assert (Hat0 : at_ buf 0 = Some (2 ^ (8 - L) + v / 256 ^ (L - 1))).
  { unfold buf, encodeVint. rewrite at_be_bytes by lia.
    rewrite Z.sub_0_r. fold L. rewrite Hb0. reflexivity. }
  assert (Hp : 0 < 2 ^ (8 - L) <= 128).
  { split; [apply Z.pow_pos_nonneg; lia|].
    change 128 with (2 ^ 7). apply Z.pow_le_mono_r; lia. }
  assert (Hlog : Z.log2 (2 ^ (8 - L) + v / 256 ^ (L - 1)) = 8 - L).
  { apply Z.log2_unique; [lia|]. rewrite Z.pow_succ_r by lia. lia. }
  assert (Hvl : vintLength buf 0 = Val L).
  { rewrite vintLength_unfold, Hat0. rewrite vint_scan_log2 by lia.
    rewrite Hlog. replace (7 - (8 - L) + 1) with L by lia.
    destruct (Z.gtb_spec (0 + L) (blen buf)); [lia|reflexivity]. }
  split; [exact Hvl|].
  unfold expandVint. rewrite Hvl.
  destruct (Z.gtb_spec (0 + L) (blen buf)); [lia|].
  rewrite Hat0. cbn [toNumber toInt32n].
  rewrite toInt32_small by lia.
  rewrite js_and_mask by lia.
  replace ((2 ^ (8 - L) + v / 256 ^ (L - 1)) mod 2 ^ (8 - L))
    with (v / 256 ^ (L - 1)).
  2:{ rewrite <- (Z.mul_1_l (2 ^ (8 - L))) at 1.
      rewrite Z.add_comm, Z.mod_add by lia. symmetry. apply Z.mod_small. lia. }
  f_equal.
  replace (0 + L - (0 + 1)) with (L - 1) by lia.
  apply expand_loop_digits; try lia.
  - rewrite Z2Nat.id by lia. reflexivity.
  - intros j Hj. rewrite Z2Nat.id in * by lia.
    unfold buf, encodeVint. subst L. rewrite at_be_bytes by lia.
    replace (Z.of_nat len - 1 - (0 + 1 + j)) with (Z.of_nat len - 1 - 1 - j)
      by lia.
    rewrite vint_other_bytes by lia. reflexivity.
Qed.

(** The same through [decodeVint], which is how [_readTagDataSize] reads a
    size. *)
Lemma decodeVint_encodeVint (len : nat) (v : Z) (rest : Buffer) :
  (1 <= len <= 8)%nat -> 0 <= v < 2 ^ (7 * Z.of_nat len) -> v < 2 ^ 31 ->
  decodeVint (encodeVint len v ++ rest) 0 = Val (Num v).
Proof.
  intros Hl Hv Hv31. destruct (vint_roundtrip len v rest Hl Hv Hv31) as [H1 H2].
  unfold decodeVint, _readTagDataSize. rewrite H1. cbn [dataLength]. exact H2.
Qed.

(** C2 (the code does not do this).  [decodeVint_encodeVint] stops at
    [2^31]: the five-byte vint of [2^31] is read back as [-2^31], because
    [value << 8] is a 32-bit operation. *)
Theorem vint_roundtrip_fails_at_2_31 :
  encodeVint 5 (2 ^ 31) = [x08; x80; x00; x00; x00]
  /\ decodeVint (encodeVint 5 (2 ^ 31)) 0 = Val (Num (- 2 ^ 31)).
Proof. split; vm_compute; reflexivity. Qed.

(** ** Track entries *)

(** Reading a tag [ae] leaves the accumulator and the track as they are. *)
Lemma readTag_track_entry (chunk : Buffer) (offset : Z) (s s' : Demuxer)
  (idd : IdData) (r : short TagResult) :
  _readEBMLId chunk offset = Val idd ->
  toHex (id idd) = "ae"%string ->
  _readTag chunk offset s = Ok r s' ->
  _incompleteTrack s' = _incompleteTrack s /\ _track s' = _track s.
Proof.
  intros E1 Hid H.
  assert (Hg : forall x, _incompleteTrack (gate x) = _incompleteTrack x
                         /\ _track (gate x) = _track x).
  { intros x. unfold gate. destruct (_ebmlFound x); split; reflexivity. }
  destruct (gate_fails s (toHex (id idd))) eqn:G.
  { rewrite (readTag_gate_fails _ _ _ _ E1 G) in H. discriminate. }
  destruct (_readTagDataSize chunk (id_offset idd)) as [|sd] eqn:E2.
  { rewrite (readTag_short_size _ _ _ _ E1 G E2) in H.
    injection H as _ <-. apply Hg. }
  assert (EH : header chunk offset
               = Val (mkHeader (toHex (id idd)) (size_offset sd) (dataLength sd))).
  { rewrite (header_id _ _ _ E1), E2. reflexivity. }
  rewrite (readTag_container _ _ _ _ EH G) in H
    by (cbn [h_id]; rewrite Hid; reflexivity).
  injection H as _ <-. apply Hg.
Qed.

(** C5 (the code does not do this).  [ae] is a tag with children, so
    [_readTag] returns before the line that resets [_incompleteTrack]:
    whatever the buffer and the state, reading a tag [ae] leaves the
    accumulator as it is.  In [two_entries_stream] the number of the first
    entry (1) is combined with the type of the second (2), and a block of
    track 1 is pushed. *)
Theorem track_entry_does_not_reset :
  (forall (chunk : Buffer) (offset : Z) (s s' : Demuxer) (idd : IdData)
          (r : short TagResult),
     _readEBMLId chunk offset = Val idd ->
     toHex (id idd) = "ae"%string ->
     _readTag chunk offset s = Ok r s' ->
     _incompleteTrack s' = _incompleteTrack s /\ _track s' = _track s)
  /\ run 100 [two_entries_stream] init =
       Ok tt {| _remainder := Some []; _length := 28; _count := 28;
                _skipUntil := None;
                _track := Some {| number := Some 1; type := Some 2 |};
                _incompleteTrack := {| number := Some 1; type := Some 2 |};
                _ebmlFound := true; pushed := [[xaa]] |}.
Proof.
  split; [exact readTag_track_entry|]. vm_compute. reflexivity.
Qed.

(** ** Chunking

    C1.  For every well-formed stream and every way of cutting it into
    chunks, writing the chunks one after the other pushes the same units, in
    the same order, as writing the whole stream as one chunk (and ends the
    same way: no exception, or the same exception).  Any fuel larger than
    the length of the stream is enough for both runs to end. *)
Theorem chunking_does_not_change_the_output
  (stream : Buffer) (chunks : list Buffer) (fuel : nat) :
  well_formed stream ->
  List.concat chunks = stream ->
  (List.length stream < fuel)%nat ->
  observed (run fuel chunks init) = observed (run fuel [stream] init)
  /\ observed (run fuel [stream] init) <> None.
Proof.
  intros Hwf Hc Hf. destruct fuel as [|fuel]; [lia|].
  assert (Hwf' : well_formed_from (S fuel) stream 0 = true).
  { apply (wf_mono (S (List.length stream))); [exact Hwf|lia]. }
  pose proof (run_canonical fuel chunks) as H1.
  pose proof (run_canonical fuel [stream]) as H2.
  cbn [List.concat] in H2. rewrite app_nil_r in H2. rewrite Hc in H1.
  destruct (H1 Hwf') as [E1 _]. destruct (H2 Hwf') as [E2 N2].
  split; [congruence|exact N2].
Qed.

Lemma chunking_witness :
  observed (run 36 sample_chunks init) = observed (run 36 [sample_stream] init)
  /\ observed (run 36 [sample_stream] init) <> None.
Proof.
  apply (chunking_does_not_change_the_output sample_stream sample_chunks 36).
  - vm_compute. reflexivity.
  - reflexivity.
  - vm_compute. lia.
Defined.

(** ** Emission, codec check, blocks without a track *)

(** C10.  Whatever is written to a new demuxer, something is pushed only if
    the number of the track found fits in four bits; with a track number of
    16 or more nothing is ever pushed. *)
Theorem emitted_units_need_a_4bit_track_number
  (fuel : nat) (chunks : list Buffer) :
  match run fuel chunks init with
  | Ok _ s | Throw _ s =>
      (pushed s <> [] ->
       exists t n, _track s = Some t /\ number t = Some n /\ 0 <= n <= 15)
      /\ (forall t n,
            _track s = Some t -> number t = Some n -> 16 <= n -> pushed s = [])
  | OutOfFuel => True
  end.
Proof.
  assert (H : holds emits_ok (fun _ => True) (run fuel chunks init)).
  { apply keeps_run;
      [exact parse_only_emits_ok|exact emits_keeps_readTag|].
    intros Hne. exfalso. apply Hne. reflexivity. }
  assert (G : forall s, emits_ok s ->
    (pushed s <> [] ->
       exists t n, _track s = Some t /\ number t = Some n /\ 0 <= n <= 15)
    /\ (forall t n,
          _track s = Some t -> number t = Some n -> 16 <= n -> pushed s = [])).
  { intros s Hs. split; [exact Hs|]. intros t n Ht Hn Hge.
    destruct (pushed s) as [|x l] eqn:Ep; [reflexivity|exfalso].
    unfold emits_ok in Hs. rewrite Ep in Hs.
    destruct (Hs ltac:(discriminate)) as (t' & n' & Ht' & Hn' & Hr).
    assert (t' = t) by congruence. subst t'. assert (n' = n) by congruence. lia. }
  destruct (run fuel chunks init) as [u s|e s|]; cbn [holds] in H;
    [apply G; exact H|apply G; apply H|exact Logic.I].
Qed.

(** C7.  Past the header gate, a tag [63a2] whose payload is in the buffer
    and does not start with the eight bytes of "OpusHead" makes [_readTag]
    throw, whether a track has been found or not; nothing is pushed. *)
Theorem codec_mismatch_is_fatal
  (chunk : Buffer) (offset : Z) (s : Demuxer) (h : Header) (d : Z) :
  _ebmlFound s = true ->
  header chunk offset = Val h ->
  h_id h = "63a2"%string ->
  h_len h = Val (Num d) ->
  h_data h + d <= blen chunk ->
  buffer_equals
    (slice (slice chunk (Num (h_data h)) (Num (h_data h + d))) (Num 0) (Num 8))
    OPUS_HEAD = false ->
  exists s', _readTag chunk offset s = Throw NOT_OPUS s' /\ pushed s' = pushed s.
Proof.
  intros Hg Hh Hid Hd Hfull Hneq.
  assert (G : gate_fails s (h_id h) = false).
  { unfold gate_fails. rewrite Hg. reflexivity. }
  assert (L : lookup (h_id h) TAGS = Some false) by (rewrite Hid; reflexivity).
  rewrite (readTag_leaf _ _ _ _ d Hh G L Hd).
  destruct (Z.gtb_spec (h_data h + d) (blen chunk)); [lia|].
  unfold gate. rewrite Hg. unfold leaf, bind.
  destruct (discover_result (h_id h)
              (slice chunk (Num (h_data h)) (Num (h_data h + d))) s)
    as (s1 & -> & Hp & _).
  rewrite Hid. unfold dispatch. cbn [String.eqb Ascii.eqb Bool.eqb].
  rewrite Hneq. cbn [negb omap throw]. exists s1. split; [reflexivity|exact Hp].
Qed.

(** C8.  Past the header gate and before any track has been found, a tag
    [a3] whose payload is in the buffer makes [_readTag] throw; nothing is
    pushed. *)
Theorem block_before_track_is_fatal
  (chunk : Buffer) (offset : Z) (s : Demuxer) (h : Header) (d : Z) :
  _ebmlFound s = true ->
  consistent s ->
  _track s = None ->
  header chunk offset = Val h ->
  h_id h = "a3"%string ->
  h_len h = Val (Num d) ->
  h_data h + d <= blen chunk ->
  exists s',
    _readTag chunk offset s = Throw NO_AUDIO_TRACK s' /\ pushed s' = pushed s.
Proof.
  intros Hg Hc Ht Hh Hid Hd Hfull.
  assert (G : gate_fails s (h_id h) = false).
  { unfold gate_fails. rewrite Hg. reflexivity. }
  assert (L : lookup (h_id h) TAGS = Some false) by (rewrite Hid; reflexivity).
  rewrite (readTag_leaf _ _ _ _ d Hh G L Hd).
  destruct (Z.gtb_spec (h_data h + d) (blen chunk)); [lia|].
  unfold gate. rewrite Hg. rewrite Hid. unfold leaf, bind.
  set (data := slice chunk (Num (h_data h)) (Num (h_data h + d))).
  assert (E : discover "a3" data s = Ok tt s).
  { unfold discover, bind, this, when, modify, ret. rewrite Ht.
    cbn [String.eqb Ascii.eqb Bool.eqb].
    unfold consistent, promotable in Hc. specialize (Hc Ht).
    destruct (type (_incompleteTrack s)) as [[|[p|[p|p|]|]|p]|]; try reflexivity.
    destruct (number (_incompleteTrack s)); [|reflexivity].
    exfalso. apply Hc. split; [reflexivity|discriminate]. }
  rewrite E. unfold dispatch, bind, this, throw.
  cbn [String.eqb Ascii.eqb Bool.eqb]. rewrite Ht. cbn [omap].
  exists s. split; reflexivity.
Qed.

Lemma codec_mismatch_witness :
  exists s',
    _readTag vorbis_tag 0 (set_ebmlFound true init) = Throw NOT_OPUS s'
    /\ pushed s' = pushed (set_ebmlFound true init).
Proof.
  apply (codec_mismatch_is_fatal vorbis_tag 0 (set_ebmlFound true init)
           (mkHeader "63a2" 3 (Val (Num 8))) 8);
    reflexivity || (vm_compute; discriminate).
Defined.

Lemma block_before_track_witness :
  exists s',
    _readTag block_tag 0 (set_ebmlFound true init) = Throw NO_AUDIO_TRACK s'
    /\ pushed s' = pushed (set_ebmlFound true init).
Proof.
  apply (block_before_track_is_fatal block_tag 0 (set_ebmlFound true init)
           (mkHeader "a3" 2 (Val (Num 5))) 5);
    reflexivity || (vm_compute; discriminate)
    || (intros _ [H _]; discriminate).
Defined.

(** ** The header gate *)

Lemma holds_finish (I : Demuxer -> Prop) (E : string -> Prop)
  (chunk : Buffer) (x : outcome Z) :
  parse_only I -> holds I E x -> holds I E (finish chunk x).
Proof.
  intros Hpo H. destruct x as [o s|e s|]; cbn [finish holds] in *;
    [|exact H|exact H].
  revert H. apply Hpo; reflexivity.
Qed.

Lemma walk_gate (fuel : nat) (b : Buffer) (s : Demuxer) (idd : IdData) :
  _readEBMLId b 0 = Val idd -> toHex (id idd) = "1a45dfa3"%string ->
  walk fuel b 0 s = walk fuel b 0 (gate s).
Proof.
  intros E1 E2. destruct fuel as [|fuel]; [reflexivity|].
  rewrite !walk_step. rewrite (readTag_gate_idem b 0 s idd E1); [reflexivity|].
  unfold gate_fails. rewrite E2. apply andb_false_r.
Qed.

Lemma gate_open_gate (s : Demuxer) : gate_open (gate s).
Proof. unfold gate_open, gate. destruct (_ebmlFound s) eqn:E; [exact E|reflexivity]. Qed.

(** The first ID of the stream, whatever the chunks. *)
Lemma first_id (fuel : nat) (idd : IdData) (chunks : list Buffer) :
  forall (P : Buffer) (r : option Buffer),
  pending r = P ->
  _readEBMLId P 0 = TOO_SHORT ->
  _readEBMLId (P ++ List.concat chunks) 0 = Val idd ->
  if (toHex (id idd) =? "1a45dfa3")%string
  then holds gate_open (fun e => e <> EBML_NOT_FOUND)
         (run (S fuel) chunks (set_remainder r (fresh (blen P))))
  else exists s,
         run (S fuel) chunks (set_remainder r (fresh (blen P)))
           = Throw EBML_NOT_FOUND s
         /\ pushed s = [].
Proof.
  induction chunks as [|c rest IH]; intros P r Hr Hshort Hid;
    cbn [List.concat run] in *.
  { rewrite app_nil_r in Hid. congruence. }
  rewrite app_assoc in Hid.
  unfold bind. rewrite transform_unfold. cbv zeta.
  replace (active_skip (set_remainder r (fresh (blen P)))) with (@None Z)
    by reflexivity.
  replace (_remainder (set_remainder r (fresh (blen P)))) with r by reflexivity.
  replace (set_remainder None
             (set_length (_length (set_remainder r (fresh (blen P))) + blen c)
                (set_remainder r (fresh (blen P)))))
    with (fresh (blen (P ++ c)))
    by (rewrite blen_app; reflexivity).
  rewrite Hr.
  destruct (_readEBMLId (P ++ c) 0) as [|idd'] eqn:E1.
  - (* the ID is not complete yet *)
    rewrite walk_step, (readTag_short_id _ _ _ E1). cbn [finish].
    rewrite slice_from_nonneg by lia. cbn [Z.to_nat skipn].
    replace (set_remainder (Some (P ++ c))
               (set_count (_count (fresh (blen (P ++ c))) + 0)
                  (fresh (blen (P ++ c)))))
      with (set_remainder (Some (P ++ c)) (fresh (blen (P ++ c))))
      by reflexivity.
    apply IH; [reflexivity|exact E1|exact Hid].
  - (* the ID is complete *)
    pose proof (readEBMLId_app _ (List.concat rest) _ _ (Z.le_refl 0) E1) as E2.
    assert (idd' = idd) by congruence. subst idd'.
    destruct (String.eqb_spec (toHex (id idd)) "1a45dfa3") as [Heq|Hne].
    + rewrite (walk_gate _ _ _ _ E1 Heq).
      assert (H : holds gate_open (fun e => e <> EBML_NOT_FOUND)
                    (finish (P ++ c)
                       (walk (S fuel) (P ++ c) 0 (gate (fresh (blen (P ++ c))))))).
      { apply holds_finish; [exact parse_only_gate_open|].
        apply keeps_walk.
        - intros v s Hs. exact Hs.
        - intros o. apply gate_keeps_readTag.
        - apply gate_open_gate. }
      destruct (finish _ _) as [u s1|e s1|]; cbn [holds] in H |- *;
        [|exact H|exact Logic.I].
      apply keeps_run;
        [exact parse_only_gate_open|exact gate_keeps_readTag|exact H].
    + rewrite walk_step, (readTag_gate_fails _ _ _ _ E1).
      * cbn [finish]. eexists. split; reflexivity.
      * unfold gate_fails. apply String.eqb_neq in Hne. rewrite Hne. reflexivity.
Qed.

(** C4.  Whatever the chunks, once the bytes written hold a complete first
    ID: if it is not [1a45dfa3] the run throws the error of the missing EBML
    tag and nothing is pushed; if it is, the gate is open at the end of the
    run and that error is not thrown, however many chunks follow. *)
Theorem header_gate (fuel : nat) (chunks : list Buffer) (idd : IdData) :
  (0 < fuel)%nat ->
  _readEBMLId (List.concat chunks) 0 = Val idd ->
  if (toHex (id idd) =? "1a45dfa3")%string
  then match run fuel chunks init with
       | Ok _ s => _ebmlFound s = true
       | Throw e s => _ebmlFound s = true /\ e <> EBML_NOT_FOUND
       | OutOfFuel => True
       end
  else exists s,
         run fuel chunks init = Throw EBML_NOT_FOUND s /\ pushed s = [].
Proof.
  intros Hf Hid. destruct fuel as [|fuel]; [lia|].
  exact (first_id fuel idd chunks [] None eq_refl eq_refl Hid).
Qed.

Lemma header_gate_witness :
  match run 10 [[x1a]; [x45; xdf]; [xa3; x80; xd7]] init with
  | Ok _ s => _ebmlFound s = true
  | Throw e s => _ebmlFound s = true /\ e <> EBML_NOT_FOUND
  | OutOfFuel => True
  end
  /\ exists s,
       run 10 [[x18]; [x53; x80]; [x67; x80]] init = Throw EBML_NOT_FOUND s
       /\ pushed s = [].
Proof.
  split.
  - apply (header_gate 10 [[x1a]; [x45; xdf]; [xa3; x80; xd7]]
             (mkIdData [x1a; x45; xdf; xa3] 4)); [lia|reflexivity].
  - apply (header_gate 10 [[x18]; [x53; x80]; [x67; x80]]
             (mkIdData [x18; x53; x80; x67] 4)); [lia|reflexivity].
Defined.

(** ** Skipping *)

(** Chunks that do not reach the target are dropped unread. *)
Lemma skip_run (target : Z) (waiting : list Buffer) :
  forall (s : Demuxer) (P : Buffer),
  synced s P -> active_skip s = Some target ->
  blen P + blen (List.concat waiting) <= target ->
  exists s2,
    (forall fuel, run fuel waiting s = Ok tt s2)
    /\ synced s2 (P ++ List.concat waiting)
    /\ active_skip s2 = Some target /\ _skipUntil s2 = _skipUntil s
    /\ pushed s2 = pushed s /\ _track s2 = _track s
    /\ _incompleteTrack s2 = _incompleteTrack s /\ _ebmlFound s2 = _ebmlFound s.
Proof.
  induction waiting as [|c rest IH]; intros s P Hs Ha Hle; cbn [run List.concat] in *.
  { exists s. rewrite app_nil_r. repeat split; try assumption; apply Hs. }
  assert (Et : forall fuel, _transform fuel c s
    = Ok tt (set_count (_count s + blen (pending (_remainder s) ++ c))
               (set_remainder None (set_length (_length s + blen c) s)))).
  { intros fuel. rewrite transform_unfold. cbv zeta. rewrite Ha.
    destruct (Z.gtb_spec (_length s + blen c) target) as [Hgt|Hng];
      [destruct Hs as (S1 & _); rewrite blen_app in Hle;
       pose proof (blen_nonneg (List.concat rest)); lia|reflexivity]. }
  rewrite blen_app in Hle. pose proof (blen_nonneg (List.concat rest)) as Hr.
  pose proof (blen_nonneg c) as Hc.
  destruct Hs as (S1 & S2 & S3).
  set (s1 := set_count _ _) in Et.
  assert (Hs1 : synced s1 (P ++ c)).
  { unfold synced, s1. cbn [_length _count _remainder set_count set_remainder
      set_length pending]. rewrite !blen_app, S3.
    rewrite blen_skipn by (unfold blen in S2; lia).
    replace (Z.to_nat (_count s + (blen P - Z.of_nat (Z.to_nat (_count s)) + blen c)))
      with (List.length (P ++ c)) by (rewrite length_app; unfold blen in *; lia).
    rewrite skipn_all. repeat split; lia. }
  destruct (IH s1 (P ++ c) Hs1) as (s2 & E & H1 & H2 & H3 & H4 & H5 & H6 & H7).
  - exact Ha.
  - rewrite blen_app. lia.
  - exists s2. rewrite app_assoc. repeat split; try assumption; try apply H1.
    intros fuel. unfold bind. rewrite Et. apply E.
Qed.

(** The chunk that passes the target: the walk starts at the target. *)
Lemma skip_resume (fuel : nat) (target : Z) (s : Demuxer) (P c : Buffer) :
  synced s P -> active_skip s = Some target -> blen P <= target ->
  target < blen P + blen c ->
  let rest := skipn (Z.to_nat (_count s)) (P ++ c) in
  _transform fuel c s =
    finish rest
      (walk fuel rest (target - _count s)
         (set_skipUntil None
            (set_remainder None (set_length (blen (P ++ c)) s))))
  /\ 0 <= target - _count s
  /\ forall i, 0 <= i ->
       at_ rest (target - _count s + i) = at_ (P ++ c) (target + i).
Proof.
  intros (S1 & S2 & S3) Ha Hle Hlt rest. split; [|split; [lia|]].
  - rewrite transform_unfold. cbv zeta. rewrite Ha.
    destruct (Z.gtb_spec (_length s + blen c) target) as [Hgt|Hng]; [|lia].
    rewrite S3, <- skipn_app_le by (unfold blen in S2; lia).
    rewrite S1, <- blen_app. reflexivity.
  - intros i Hi. unfold rest. rewrite at_skipn by lia. f_equal. lia.
Qed.

(** X18.  The working buffer [chunk] starts after the bytes [before]; at
    [offset] it holds a tag unknown to [TAGS] whose payload, by the length
    [d] that [expandVint] reads (the declared length when it is below
    [2^31]), ends at or beyond the end of the buffer.  Then the loop stops
    there with one skip target,
    the position of the end of the tag in the stream.  The chunks [waiting],
    which do not reach the target, are dropped: no tag is read (no fuel is
    needed), nothing is pushed, the target stays.  With the chunk [next],
    which passes the target, the target is cleared and the walk starts
    again exactly at the byte of the stream that has the target's position. *)
Theorem skip_target
  (fuel : nat) (before chunk : Buffer) (offset : Z) (s : Demuxer)
  (h : Header) (d : Z) (waiting : list Buffer) (next : Buffer) :
  _count s = blen before ->
  _length s = blen before + blen chunk ->
  0 <= offset ->
  gate_fails s (h_id h) = false ->
  header chunk offset = Val h ->
  lookup (h_id h) TAGS = None ->
  h_len h = Val (Num d) ->
  blen chunk <= h_data h + d ->
  let target := blen before + (h_data h + d) in
  blen before + blen chunk + blen (List.concat waiting) <= target ->
  target < blen before + blen chunk + blen (List.concat waiting) + blen next ->
  let s1 := set_remainder (Some (slice_from chunk (Num offset)))
              (set_count (_count s + offset)
                 (set_skipUntil (Some target) (gate s))) in
  _readTag chunk offset s
    = Ok (Val (mkTagResult (Num (h_data h)) (Some (Num target)))) (gate s)
  /\ finish chunk (walk (S fuel) chunk offset s) = Ok tt s1
  /\ exists s2,
       (forall f, run f waiting s1 = Ok tt s2)
       /\ pushed s2 = pushed s
       /\ _skipUntil s2 = Some target
       /\ let stream := before ++ chunk ++ List.concat waiting ++ next in
          let rest := skipn (Z.to_nat (_count s2)) stream in
          _transform fuel next s2 =
            finish rest
              (walk fuel rest (target - _count s2)
                 (set_skipUntil None
                    (set_remainder None (set_length (blen stream) s2))))
          /\ 0 <= target - _count s2
          /\ forall i, 0 <= i ->
               at_ rest (target - _count s2 + i) = at_ stream (target + i).
Proof.
  intros Hcnt Hlen Ho G Hh L Hd Hend target Hwait Hnext s1.
  pose proof (header_bounds _ _ _ Hh) as Hb.
  pose proof (blen_nonneg before) as Hb0.
  assert (Hrt : _readTag chunk offset s
    = Ok (Val (mkTagResult (Num (h_data h)) (Some (Num target)))) (gate s)).
  { rewrite (readTag_unknown _ _ _ _ d Hh G L Hd).
    destruct (Z.gtb_spec (blen chunk) (h_data h + d)); [lia|].
    rewrite gate_count, Hcnt. unfold target. rewrite Z.add_assoc. reflexivity. }
  split; [exact Hrt|]. split.
  { rewrite walk_step, Hrt. cbn [res_skipUntil].
    rewrite truthy_Num by (unfold target; lia). cbn [finish].
    unfold s1. cbn [_count set_skipUntil]. rewrite gate_count. reflexivity. }
  assert (Hs1 : synced s1 (before ++ chunk)).
  { unfold synced, s1. cbn [_length _count _remainder set_remainder set_count
      set_skipUntil pending].
    assert (_length (gate s) = _length s) by apply same_frame_gate.
    rewrite blen_app, slice_from_nonneg by lia. repeat split; try lia.
    rewrite Hcnt. replace (Z.to_nat (blen before + offset))
      with (Z.to_nat offset + List.length before)%nat by (unfold blen; lia).
    rewrite <- skipn_skipn. rewrite skipn_app_le by lia.
    rewrite skipn_all. reflexivity. }
  assert (Ha1 : active_skip s1 = Some target).
  { unfold active_skip, s1. cbn [_skipUntil set_remainder set_count
      set_skipUntil option_map]. apply truthy_Num. unfold target. lia. }
  destruct (skip_run target waiting s1 (before ++ chunk) Hs1 Ha1)
    as (s2 & E & H1 & H2 & H3 & H4 & _).
  { rewrite blen_app. lia. }
  exists s2. split; [exact E|]. split.
  { rewrite H4. unfold s1. cbn [pushed set_remainder set_count set_skipUntil].
    unfold gate. destruct (_ebmlFound s); reflexivity. }
  split.
  { rewrite H3. reflexivity. }
  cbv zeta.
  replace (before ++ chunk ++ List.concat waiting ++ next)
    with (((before ++ chunk) ++ List.concat waiting) ++ next)
    by (rewrite <- !app_assoc; reflexivity).
  apply skip_resume; try assumption.
  - rewrite !blen_app. lia.
  - rewrite !blen_app. lia.
Qed.

Lemma skip_target_witness :
  _readTag skip_chunk 5 skip_state
    = Ok (Val (mkTagResult (Num 7) (Some (Num 17)))) skip_state
  /\ exists s2,
       (forall f, run f skip_waiting
                    (set_remainder (Some [xec; x8a; x01; x02])
                       (set_count 5 (set_skipUntil (Some 17) skip_state)))
                  = Ok tt s2)
       /\ pushed s2 = [] /\ _skipUntil s2 = Some 17.
Proof.
  destruct (skip_target 10 [] skip_chunk 5 skip_state
              (mkHeader "ec" 7 (Val (Num 10))) 10 skip_waiting skip_next)
    as (H1 & _ & s2 & H2 & H3 & H4 & _);
    try reflexivity; try (vm_compute; lia); try (vm_compute; discriminate).
  split; [exact H1|]. exists s2. split; [exact H2|]. split; assumption.
Defined.

(** C3 (the code does not do this).  The skip target is computed from the
    length as [expandVint] reads it, and a declared length of [2^31] or more
    is not read as declared.  [big_unknown_stream] holds, after a track
    entry, an unknown tag (ID [ec]) that declares [2^32 + 2] bytes of
    payload, of which nine are in the buffer.  The length is read as 2:
    [_readTag] sets no skip target and returns an offset two bytes further,
    inside the element; the walk reads the block found there and pushes its
    payload, and [_skipUntil] is never set. *)
Theorem big_unknown_tag_is_not_skipped :
  encodeVint 8 (2 ^ 32 + 2) = [x01; x00; x00; x01; x00; x00; x00; x02]
  /\ header big_unknown_stream 13 = Val (mkHeader "ec" 22 (Val (Num 2)))
  /\ _readTag big_unknown_stream 13 (after_preamble 31)
     = Ok (Val (mkTagResult (Num 24) None)) (after_preamble 31)
  /\ run 100 [big_unknown_stream] init =
       Ok tt {| _remainder := Some []; _length := 31; _count := 31;
                _skipUntil := None;
                _track := Some {| number := Some 3; type := Some 2 |};
                _incompleteTrack := {| number := Some 3; type := Some 2 |};
                _ebmlFound := true; pushed := [[xcc]] |}.
Proof. repeat split; vm_compute; reflexivity. Qed.

(** ** Blocks *)

Lemma skipn_pre (pre R : Buffer) : skipn (List.length pre) (pre ++ R) = R.
Proof. rewrite skipn_app_le by lia. rewrite skipn_all. reflexivity. Qed.

(** The header of a tag that comes after the bytes [pre]. *)
Lemma header_after (pre R : Buffer) (h : Header) :
  header R 0 = Val h ->
  header (pre ++ R) (blen pre)
  = Val (mkHeader (h_id h) (h_data h + blen pre) (h_len h)).
Proof.
  intros H.
  pose proof (header_skipn (List.length pre) (pre ++ R) 0 (Z.le_refl 0)) as E.
  rewrite skipn_pre, H, Z.add_0_l in E.
  specialize (E ltac:(rewrite length_app; lia)). fold (blen pre) in E.
  destruct (header (pre ++ R) (blen pre)) as [|h']; [discriminate|].
  cbn [shift_header] in E. injection E as E. subst h.
  destruct h' as [i0 d0 l0]; cbn [h_id h_data h_len]. do 2 f_equal. lia.
Qed.

Lemma header_end (b : Buffer) : header b (blen b) = TOO_SHORT.
Proof.
  apply header_short_id. unfold _readEBMLId.
  rewrite vintLength_unfold, at_beyond by lia.
  change (vint_scan 8 0 None) with 8.
  destruct (Z.gtb_spec (blen b + (8 + 1)) (blen b)); [reflexivity|lia].
Qed.

Lemma slice_middle (A payload post : Buffer) :
  slice (A ++ payload ++ post) (Num (blen A)) (Num (blen A + blen payload))
  = payload.
Proof.
  pose proof (blen_nonneg A). pose proof (blen_nonneg payload).
  rewrite slice_nonneg by lia. unfold blen. rewrite Nat2Z.id.
  rewrite skipn_pre. replace (Z.to_nat _) with (List.length payload) by lia.
  rewrite firstn_app, Nat.sub_diag, firstn_all. cbn. apply app_nil_r.
Qed.

(** The header of a tag written by [element], with what follows. *)
Lemma header_element (idb payload post : Buffer) (len : nat) :
  vintLength idb 0 = Val (blen idb) ->
  fits len payload ->
  header (element idb len payload ++ post) 0
  = Val (mkHeader (toHex idb) (blen idb + Z.of_nat len)
           (Val (Num (blen payload)))).
Proof.
  intros Hid (Hl & Hv & Hv31). unfold element.
  pose proof (blen_nonneg payload) as Hp0. pose proof (blen_nonneg idb) as Hi0.
  rewrite <- !app_assoc.
  set (R := encodeVint len (blen payload) ++ payload ++ post).
  assert (E1 : _readEBMLId (idb ++ R) 0 = Val (mkIdData idb (blen idb))).
  { unfold _readEBMLId. rewrite (vintLength_app _ R _ _ Hid).
    rewrite Z.add_0_l. f_equal. f_equal.
    pose proof (slice_middle [] idb R) as S. cbn [app] in S.
    change (blen []) with 0 in S. rewrite Z.add_0_l in S. exact S. }
  rewrite (header_id _ _ _ E1). cbn [id id_offset].
  pose proof (readTagDataSize_skipn (List.length idb) (idb ++ R) 0 (Z.le_refl 0)) as E2.
  rewrite skipn_pre, Z.add_0_l in E2.
  specialize (E2 ltac:(rewrite length_app; lia)). fold (blen idb) in E2.
  destruct (vint_roundtrip len (blen payload) (payload ++ post) Hl
              ltac:(lia) Hv31) as [V1 V2].
  fold R in V1, V2.
  assert (E3 : _readTagDataSize R 0
               = Val (mkSizeData (Z.of_nat len) (Val (Num (blen payload)))
                        (Z.of_nat len))).
  { unfold _readTagDataSize. rewrite V1, V2. reflexivity. }
  rewrite E3 in E2.
  destruct (_readTagDataSize (idb ++ R) (blen idb)) as [|sd]; [discriminate|].
  injection E2 as E4 E5 E6. rewrite <- E5. do 2 f_equal. lia.
Qed.

Lemma blen_element (idb : Buffer) (len : nat) (payload : Buffer) :
  blen (element idb len payload) = blen idb + Z.of_nat len + blen payload.
Proof. unfold element. rewrite !blen_app, blen_encodeVint. lia. Qed.

Lemma wf_unfold (f : nat) (b : Buffer) (o : Z) :
  well_formed_from (S f) b o =
    match header b o with
    | TOO_SHORT => true
    | Val h =>
        match lookup (h_id h) TAGS with
        | Some true => well_formed_from f b (h_data h)
        | _ =>
            match h_len h with
            | Val (Num d) => (0 <=? d) && well_formed_from f b (h_data h + d)
            | _ => false
            end
        end
    end.
Proof. reflexivity. Qed.

Lemma a3_is_an_id : vintLength [xa3] 0 = Val (blen [xa3]).
Proof. reflexivity. Qed.

(** The header of a block that comes after [pre]. *)
Lemma header_block (pre post payload : Buffer) (len : nat) :
  fits len payload ->
  header (pre ++ element [xa3] len payload ++ post) (blen pre)
  = Val (mkHeader "a3" (blen pre + 1 + Z.of_nat len) (Val (Num (blen payload)))).
Proof.
  intros Hfit.
  rewrite (header_after pre _ _ (header_element [xa3] payload post len
                                   a3_is_an_id Hfit)).
  cbn [h_id h_data h_len toHex]. change (blen [xa3]) with 1.
  f_equal. f_equal. lia.
Qed.

Lemma wf_block (f : nat) (pre post payload : Buffer) (len : nat) :
  fits len payload ->
  well_formed_from (S f) (pre ++ element [xa3] len payload ++ post) (blen pre)
  = well_formed_from f (pre ++ element [xa3] len payload ++ post)
      (blen (pre ++ element [xa3] len payload)).
Proof.
  intros Hfit. rewrite wf_unfold, (header_block pre post payload len Hfit).
  cbn [h_id h_data h_len]. change (lookup "a3" TAGS) with (Some false).
  pose proof (blen_nonneg payload) as Hp.
  destruct (Z.leb_spec 0 (blen payload)); [|lia]. cbn [andb].
  f_equal. rewrite blen_app, blen_element. change (blen [xa3]) with 1. lia.
Qed.

Lemma discover_found (ebmlID : string) (data : Buffer) (s : Demuxer)
  (t : TrackInfo) :
  _track s = Some t -> discover ebmlID data s = Ok tt s.
Proof. intros Ht. unfold discover, bind, this. rewrite Ht. reflexivity. Qed.

Lemma dispatch_block (data : Buffer) (s : Demuxer) (t : TrackInfo) (n : Z) :
  _track s = Some t -> number t = Some n ->
  dispatch "a3" data s
  = Ok tt (if low_nibble data =? n
           then push (slice_from data (Num 4)) s else s).
Proof.
  intros Ht Hn. unfold dispatch. cbn [String.eqb Ascii.eqb Bool.eqb].
  unfold bind, this. rewrite Ht, Hn. unfold when, modify, ret, low_nibble.
  destruct (_ =? n); reflexivity.
Qed.

(** Reading a block once a track has been found. *)
Lemma readTag_block (pre post payload : Buffer) (len : nat) (s : Demuxer)
  (t : TrackInfo) (n : Z) :
  fits len payload ->
  _ebmlFound s = true -> _track s = Some t -> number t = Some n ->
  _readTag (pre ++ element [xa3] len payload ++ post) (blen pre) s
  = Ok (Val (mkTagResult (Num (blen (pre ++ element [xa3] len payload))) None))
      (if low_nibble payload =? n
       then push (slice_from payload (Num 4)) s else s).
Proof.
  intros Hfit Hg Ht Hn.
  pose proof (header_block pre post payload len Hfit) as Hh.
  pose proof (blen_nonneg payload) as Hp. pose proof (blen_nonneg pre) as Hpre.
  pose proof (blen_nonneg post) as Hpost.
  assert (G : gate_fails s "a3" = false) by (unfold gate_fails; rewrite Hg; reflexivity).
  rewrite (readTag_leaf _ _ _ _ (blen payload) Hh G eq_refl eq_refl).
  cbn [h_id h_data h_len].
  assert (Eb : blen (pre ++ element [xa3] len payload ++ post)
               = blen pre + 1 + Z.of_nat len + blen payload + blen post).
  { rewrite !blen_app, blen_element. change (blen [xa3]) with 1. lia. }
  destruct (Z.gtb_spec (blen pre + 1 + Z.of_nat len + blen payload)
              (blen (pre ++ element [xa3] len payload ++ post))); [lia|].
  assert (Ed : slice (pre ++ element [xa3] len payload ++ post)
                 (Num (blen pre + 1 + Z.of_nat len))
                 (Num (blen pre + 1 + Z.of_nat len + blen payload)) = payload).
  { unfold element.
    replace (pre ++ ([xa3] ++ encodeVint len (blen payload) ++ payload) ++ post)
      with ((pre ++ [xa3] ++ encodeVint len (blen payload)) ++ payload ++ post)
      by (rewrite <- !app_assoc; reflexivity).
    replace (blen pre + 1 + Z.of_nat len)
      with (blen (pre ++ [xa3] ++ encodeVint len (blen payload)))
      by (rewrite !blen_app, blen_encodeVint; change (blen [xa3]) with 1; lia).
    apply slice_middle. }
  rewrite Ed. unfold gate. rewrite Hg.
  unfold leaf, bind. rewrite (discover_found _ _ _ _ Ht).
  rewrite (dispatch_block _ _ _ _ Ht Hn). cbn [omap].
  replace (blen pre + 1 + Z.of_nat len + blen payload)
    with (blen (pre ++ element [xa3] len payload))
    by (rewrite blen_app, blen_element; change (blen [xa3]) with 1; lia).
  reflexivity.
Qed.

Lemma walk_block (f : nat) (pre post payload : Buffer) (len : nat) (s : Demuxer)
  (t : TrackInfo) (n : Z) :
  fits len payload ->
  _ebmlFound s = true -> _track s = Some t -> number t = Some n ->
  walk (S f) (pre ++ element [xa3] len payload ++ post) (blen pre) s
  = walk f (pre ++ element [xa3] len payload ++ post)
      (blen (pre ++ element [xa3] len payload))
      (if low_nibble payload =? n
       then push (slice_from payload (Num 4)) s else s).
Proof.
  intros Hfit Hg Ht Hn. rewrite walk_step.
  rewrite (readTag_block pre post payload len s t n Hfit Hg Ht Hn).
  cbn [res_skipUntil res_offset]. rewrite truthy_None, truthy_Num; [reflexivity|].
  rewrite blen_app, blen_element. pose proof (blen_nonneg pre).
  pose proof (blen_nonneg payload). change (blen [xa3]) with 1. lia.
Qed.

Lemma walk_end (f : nat) (b : Buffer) (s : Demuxer) :
  walk (S f) b (blen b) s = Ok (blen b) s.
Proof.
  rewrite walk_step, readTag_short_id; [reflexivity|].
  pose proof (header_end b) as H. unfold header in H.
  destruct (_readEBMLId b (blen b)) as [|idd] eqn:E; [reflexivity|].
  apply readEBMLId_bounds in E. lia.
Qed.

Lemma wf_end (f : nat) (b : Buffer) : well_formed_from (S f) b (blen b) = true.
Proof. rewrite wf_unfold, header_end. reflexivity. Qed.

Lemma wf_preamble (f : nat) (rest : Buffer) :
  well_formed_from (4 + f) (track3_preamble ++ rest) 0
  = well_formed_from f (track3_preamble ++ rest) (blen track3_preamble).
Proof.
  cbn [Nat.add].
  rewrite wf_unfold.
  erewrite (header_app track3_preamble rest 0) by (lia || (vm_compute; reflexivity)).
  cbn [h_id h_data h_len]. change (lookup "1a45dfa3" TAGS) with (Some true).
  rewrite wf_unfold.
  erewrite (header_app track3_preamble rest 5) by (lia || (vm_compute; reflexivity)).
  cbn [h_id h_data h_len]. change (lookup "ae" TAGS) with (Some true).
  rewrite wf_unfold.
  erewrite (header_app track3_preamble rest 7) by (lia || (vm_compute; reflexivity)).
  cbn [h_id h_data h_len]. change (lookup "d7" TAGS) with (Some false).
  cbn [Z.leb Z.compare andb Z.add Pos.add Pos.succ].
  rewrite wf_unfold.
  erewrite (header_app track3_preamble rest 10) by (lia || (vm_compute; reflexivity)).
  cbn [h_id h_data h_len]. change (lookup "83" TAGS) with (Some false).
  reflexivity.
Qed.

Lemma three_blocks_wf (f : nat) (l1 l2 l3 : nat) (p1 p2 p3 : Buffer) :
  fits l1 p1 -> fits l2 p2 -> fits l3 p3 ->
  well_formed_from (8 + f) (three_blocks l1 l2 l3 p1 p2 p3) 0 = true.
Proof.
  intros F1 F2 F3. unfold three_blocks.
  set (A := track3_preamble).
  set (E1 := element [xa3] l1 p1). set (E2 := element [xa3] l2 p2).
  set (E3 := element [xa3] l3 p3).
  change (8 + f)%nat with (4 + S (S (S (S f))))%nat.
  unfold A at 1. rewrite wf_preamble. fold A.
  unfold E1 at 1. rewrite (wf_block _ A (E2 ++ E3) p1 l1 F1). fold E1.
  replace (A ++ E1 ++ E2 ++ E3) with ((A ++ E1) ++ E2 ++ E3)
    by (rewrite <- !app_assoc; reflexivity).
  unfold E2 at 1. rewrite (wf_block _ (A ++ E1) E3 p2 l2 F2). fold E2.
  replace ((A ++ E1) ++ E2 ++ E3) with (((A ++ E1) ++ E2) ++ E3 ++ [])
    by (rewrite app_nil_r, <- !app_assoc; reflexivity).
  unfold E3 at 1. rewrite (wf_block _ ((A ++ E1) ++ E2) [] p3 l3 F3). fold E3.
  rewrite app_nil_r. apply wf_end.
Qed.

Lemma walk_preamble (n : Z) :
  walk 5 track3_preamble 0 (fresh n) = Ok 13 (after_preamble n).
Proof. vm_compute. reflexivity. Qed.

Lemma three_blocks_walk (f : nat) (l1 l2 l3 : nat) (p1 p2 p3 : Buffer) (n : Z) :
  fits l1 p1 -> fits l2 p2 -> fits l3 p3 ->
  low_nibble p1 = 3 -> low_nibble p2 = 5 -> low_nibble p3 = 3 ->
  walk (8 + f) (three_blocks l1 l2 l3 p1 p2 p3) 0 (fresh n)
  = Ok (blen (three_blocks l1 l2 l3 p1 p2 p3))
      (push (slice_from p3 (Num 4))
         (push (slice_from p1 (Num 4)) (after_preamble n))).
Proof.
  intros F1 F2 F3 N1 N2 N3.
  pose proof (three_blocks_wf f l1 l2 l3 p1 p2 p3 F1 F2 F3) as Hwf.
  unfold three_blocks in *.
  set (A := track3_preamble) in *.
  set (E1 := element [xa3] l1 p1) in *. set (E2 := element [xa3] l2 p2) in *.
  set (E3 := element [xa3] l3 p3) in *.
  pose proof (walk_ext (8 + f) A (E1 ++ E2 ++ E3) 0 (fresh n) Hwf
                (Z.le_refl 0) (Z.le_refl 0)) as Hext.
  rewrite (walk_fuel_eq 5 (8 + f) A 0 (fresh n)) in Hext;
    [|vm_compute; reflexivity|lia|cbn; lia|lia].
  unfold A in Hext at 1. rewrite walk_preamble in Hext. fold A in Hext.
  destruct Hext as [(_ & _ & Hw)|(s0 & e & Hs & _)].
  2:{ apply (f_equal _skipUntil) in Hs. discriminate. }
  rewrite Hw. clear Hw Hwf.
  change 13 with (blen A).
  change (8 + f)%nat with (S (S (S (S (4 + f))))).
  unfold E1 at 1.
  rewrite (walk_block _ A (E2 ++ E3) p1 l1 (after_preamble n)
             (mkTrack (Some 3) (Some 2)) 3 F1 eq_refl eq_refl eq_refl).
  fold E1. rewrite N1. cbn [Z.eqb Pos.eqb].
  replace (A ++ E1 ++ E2 ++ E3) with ((A ++ E1) ++ E2 ++ E3)
    by (rewrite <- !app_assoc; reflexivity).
  unfold E2 at 1.
  rewrite (walk_block _ (A ++ E1) E3 p2 l2
             (push (slice_from p1 (Num 4)) (after_preamble n))
             (mkTrack (Some 3) (Some 2)) 3 F2 eq_refl eq_refl eq_refl).
  fold E2. rewrite N2. cbn [Z.eqb Pos.eqb].
  replace ((A ++ E1) ++ E2 ++ E3) with (((A ++ E1) ++ E2) ++ E3 ++ [])
    by (rewrite app_nil_r, <- !app_assoc; reflexivity).
  unfold E3 at 1.
  rewrite (walk_block _ ((A ++ E1) ++ E2) [] p3 l3
             (push (slice_from p1 (Num 4)) (after_preamble n))
             (mkTrack (Some 3) (Some 2)) 3 F3 eq_refl eq_refl eq_refl).
  fold E3. rewrite N3. cbn [Z.eqb Pos.eqb].
  rewrite app_nil_r. cbn [Nat.add]. rewrite walk_end.
  rewrite <- !app_assoc. reflexivity.
Qed.

(** C9.  The stream: the EBML header, a track entry with the number 3 and
    the audio type (2), then three blocks whose payloads [p1], [p2], [p3]
    start with a byte whose low nibble is 3, 5 and 3 (the payloads are
    otherwise arbitrary, as are the sizes of their length fields).  However
    the stream is cut into chunks, exactly two units are pushed, the first
    and the third payload without their first four bytes, and no exception
    is thrown. *)
Theorem two_of_three_blocks_are_emitted
  (l1 l2 l3 : nat) (p1 p2 p3 : Buffer) (chunks : list Buffer) (fuel : nat) :
  fits l1 p1 -> fits l2 p2 -> fits l3 p3 ->
  low_nibble p1 = 3 -> low_nibble p2 = 5 -> low_nibble p3 = 3 ->
  List.concat chunks = three_blocks l1 l2 l3 p1 p2 p3 ->
  (List.length (three_blocks l1 l2 l3 p1 p2 p3) < fuel)%nat ->
  observed (run fuel chunks init) = Some ([skipn 4 p1; skipn 4 p3], None).
Proof.
  intros F1 F2 F3 N1 N2 N3 Hc Hf.
  assert (Hlen : (13 <= List.length (three_blocks l1 l2 l3 p1 p2 p3))%nat).
  { unfold three_blocks. rewrite length_app. cbn. lia. }
  destruct fuel as [|fuel]; [lia|].
  pose proof (three_blocks_wf 0 l1 l2 l3 p1 p2 p3 F1 F2 F3) as Hwf.
  assert (Hwf' : well_formed_from (S fuel) (List.concat chunks) 0 = true).
  { rewrite Hc. apply (wf_mono (8 + 0)); [exact Hwf|lia]. }
  destruct (run_canonical fuel chunks Hwf') as [E _]. rewrite E, Hc.
  rewrite (walk_fuel_eq (8 + 0) (S fuel)); [|exact Hwf|lia|cbn; lia|lia].
  rewrite (three_blocks_walk 0 l1 l2 l3 p1 p2 p3 _ F1 F2 F3 N1 N2 N3).
  cbn [observed pushed push after_preamble app].
  rewrite !slice_from_nonneg by lia. reflexivity.
Qed.

Lemma two_of_three_blocks_witness :
  observed (run 36 sample_chunks init) = Some ([[xaa; xbb]; [xdd]], None).
Proof.
  apply (two_of_three_blocks_are_emitted 1 1 1
           [x83; x00; x00; x00; xaa; xbb] [x85; x00; x00; x00; xcc]
           [x83; x00; x00; x00; xdd] sample_chunks 36);
    try reflexivity; try (vm_compute; lia);
    try (repeat split; vm_compute; (lia || reflexivity)).
Defined.

(** * Further properties *)

(** ** Further properties of the readers *)

Lemma at_range (b : Buffer) (i z : Z) :
  at_ b i = Some z -> 0 <= z < 256 /\ 0 <= i < blen b.
Proof.
  unfold at_, blen. destruct (Z.ltb_spec i 0) as [Hi|Hi]; [discriminate|].
  destruct (nth_error b (Z.to_nat i)) as [x|] eqn:E; [|discriminate].
  intros H. injection H as <-. split; [apply byteval_range|].
  assert (Hl : (Z.to_nat i < List.length b)%nat)
    by (apply nth_error_Some; congruence).
  lia.
Qed.

Lemma at_inside (b : Buffer) (i : Z) :
  0 <= i < blen b -> exists z, at_ b i = Some z /\ 0 <= z < 256.
Proof.
  intros Hi. unfold at_, blen in *.
  destruct (Z.ltb_spec i 0) as [H|H]; [lia|].
  destruct (nth_error b (Z.to_nat i)) as [x|] eqn:E.
  - exists (byteval x). split; [reflexivity|apply byteval_range].
  - apply nth_error_None in E. lia.
Qed.

Lemma log2_byte (b : Z) : 0 < b < 256 -> 0 <= Z.log2 b <= 7.
Proof.
  intros H. split; [apply Z.log2_nonneg|].
  assert (Z.log2 b < 8) by (apply Z.log2_lt_pow2; lia). lia.
Qed.

(** X2.  When the byte at [index] is not zero, the length [vintLength] gives
    is the number of its leading zero bits plus one ([8 - log2 b], between 1
    and 8); it is [TOO_SHORT] exactly when that many bytes are not in the
    buffer. *)
Theorem vintLength_counts_leading_zeros (buffer : Buffer) (index b : Z) :
  at_ buffer index = Some b -> 0 < b ->
  1 <= 8 - Z.log2 b <= 8
  /\ vintLength buffer index =
       if index + (8 - Z.log2 b) >? blen buffer then TOO_SHORT
       else Val (8 - Z.log2 b).
Proof.
  intros H Hb. destruct (at_range _ _ _ H) as [Hr _].
  assert (Hl := log2_byte b ltac:(lia)). split; [lia|].
  rewrite vintLength_unfold, H, vint_scan_log2 by lia.
  replace (7 - Z.log2 b + 1) with (8 - Z.log2 b) by lia. reflexivity.
Qed.

Lemma vintLength_counts_leading_zeros_witness :
  1 <= 8 - Z.log2 26 <= 8
  /\ vintLength [x1a; x45; xdf; xa3] 0 =
       if 0 + (8 - Z.log2 26) >? blen [x1a; x45; xdf; xa3] then TOO_SHORT
       else Val (8 - Z.log2 26).
Proof.
  apply (vintLength_counts_leading_zeros [x1a; x45; xdf; xa3] 0 26);
    [reflexivity|lia].
Defined.

(** X4.  Reading at or after the end of the buffer (an empty buffer
    included) is [TOO_SHORT] for [vintLength], [_readEBMLId] and
    [_readTagDataSize]; [_readTag] then returns [TOO_SHORT] without touching
    the state, even before the EBML header has been seen, and the loop of
    [_transform] stops at that offset. *)
Theorem reading_past_the_end_is_too_short
  (chunk : Buffer) (offset : Z) (s : Demuxer) (fuel : nat) :
  blen chunk <= offset ->
  vintLength chunk offset = TOO_SHORT
  /\ _readEBMLId chunk offset = TOO_SHORT
  /\ _readTagDataSize chunk offset = TOO_SHORT
  /\ _readTag chunk offset s = Ok TOO_SHORT s
  /\ walk (S fuel) chunk offset s = Ok offset s.
Proof.
  intros H.
  assert (V : vintLength chunk offset = TOO_SHORT).
  { rewrite vintLength_unfold.
    pose proof (vint_scan_bounds 8 0 (at_ chunk offset)) as Hs.
    destruct (Z.gtb_spec (offset + (vint_scan 8 0 (at_ chunk offset) + 1))
                (blen chunk)); [reflexivity|lia]. }
  assert (I : _readEBMLId chunk offset = TOO_SHORT)
    by (unfold _readEBMLId; rewrite V; reflexivity).
  repeat split; try assumption.
  - unfold _readTagDataSize. rewrite V. reflexivity.
  - apply readTag_short_id, I.
  - rewrite walk_step, (readTag_short_id _ _ _ I). reflexivity.
Qed.

Lemma reading_past_the_end_witness :
  vintLength [] 0 = TOO_SHORT
  /\ _readEBMLId [] 0 = TOO_SHORT
  /\ _readTagDataSize [] 0 = TOO_SHORT
  /\ _readTag [] 0 init = Ok TOO_SHORT init
  /\ walk 1 [] 0 init = Ok 0 init.
Proof.
  apply (reading_past_the_end_is_too_short [] 0 init 0). vm_compute. discriminate.
Defined.

Lemma skipn_app_exact (b c : Buffer) : skipn (List.length b) (b ++ c) = c.
Proof.
  rewrite skipn_app, skipn_all, Nat.sub_diag. reflexivity.
Qed.

(** X1.  Below [2^31] the round trip of vints holds, anywhere in a buffer:
    an integer [v < 2^31] written on [len] bytes ([1 <= len <= 8],
    [v < 2^(7*len)]) after any bytes [before] and followed by any bytes
    [rest] is read back by [_readTagDataSize] as [v], with the length [len]
    and the offset of the byte that follows. *)
Theorem vint_roundtrip_below_2_31
  (len : nat) (v : Z) (before rest : Buffer) :
  (1 <= len <= 8)%nat -> 0 <= v < 2 ^ (7 * Z.of_nat len) -> v < 2 ^ 31 ->
  _readTagDataSize (before ++ encodeVint len v ++ rest) (blen before) =
    Val {| size_offset := blen before + Z.of_nat len;
           dataLength := Val (Num v);
           sizeLength := Z.of_nat len |}.
Proof.
  intros Hlen Hv Hv'.
  destruct (vint_roundtrip len v rest Hlen Hv Hv') as [HL HE].
  assert (H0 : _readTagDataSize (encodeVint len v ++ rest) 0 =
               Val {| size_offset := 0 + Z.of_nat len;
                      dataLength := Val (Num v);
                      sizeLength := Z.of_nat len |}).
  { unfold _readTagDataSize. rewrite HL, HE. reflexivity. }
  pose proof (readTagDataSize_skipn (List.length before)
                (before ++ encodeVint len v ++ rest) 0 (Z.le_refl 0)) as K.
  rewrite skipn_app_exact, H0 in K.
  specialize (K ltac:(rewrite length_app; lia)).
  change (0 + Z.of_nat (List.length before)) with (blen before) in K.
  destruct (_readTagDataSize (before ++ encodeVint len v ++ rest) (blen before))
    as [|[so dl sl]]; [discriminate|].
  cbn [size_offset dataLength sizeLength] in K. injection K as K1 K2 K3.
  subst dl sl. f_equal. f_equal. unfold blen in *. lia.
Qed.

Lemma vint_roundtrip_below_2_31_witness :
  _readTagDataSize ([xa3] ++ encodeVint 2 300 ++ [xaa]) (blen [xa3]) =
    Val {| size_offset := blen [xa3] + Z.of_nat 2;
           dataLength := Val (Num 300);
           sizeLength := Z.of_nat 2 |}.
Proof.
  apply (vint_roundtrip_below_2_31 2 300 [xa3] [xaa]); [lia|vm_compute|reflexivity].
  split; [discriminate|reflexivity].
Defined.

Lemma expand_loop_bound (n : nat) : forall (buf : Buffer) (i acc k : Z),
  0 <= i -> i + Z.of_nat n <= blen buf ->
  0 <= k -> k + 8 * Z.of_nat n <= 31 ->
  0 <= acc < 2 ^ k ->
  exists x, expand_loop n buf i (Num acc) = Num x
            /\ 0 <= x < 2 ^ (k + 8 * Z.of_nat n).
Proof.
  induction n as [|n IH]; intros buf i acc k Hi Hn Hk Hb Ha.
  - exists acc. split; [reflexivity|]. replace (k + 8 * Z.of_nat 0) with k by lia.
    exact Ha.
  - cbn [expand_loop].
    destruct (at_inside buf i ltac:(lia)) as (c & Hc & Hcr).
    rewrite Hc. cbn [toNumber toInt32n].
    assert (P8 : 2 ^ (k + 8) = 2 ^ k * 256)
      by (rewrite Z.pow_add_r by lia; reflexivity).
    assert (P31 : 2 ^ (k + 8) <= 2 ^ 31)
      by (apply Z.pow_le_mono_r; lia).
    rewrite toInt32_small by lia.
    rewrite js_shl_8 by lia. cbn [nadd].
    destruct (IH buf (i + 1) (acc * 256 + c) (k + 8)) as (x & Hx & Hxr);
      try lia.
    exists x. split; [exact Hx|].
    replace (k + 8 * Z.of_nat (S n)) with (k + 8 + 8 * Z.of_nat n) by lia.
    exact Hxr.
Qed.

Lemma readTagDataSize_inv (chunk : Buffer) (offset : Z) (sd : SizeData) :
  _readTagDataSize chunk offset = Val sd ->
  vintLength chunk offset = Val (sizeLength sd)
  /\ size_offset sd = offset + sizeLength sd
  /\ dataLength sd = expandVint chunk offset (offset + sizeLength sd).
Proof.
  unfold _readTagDataSize.
  destruct (vintLength chunk offset) as [|n]; [discriminate|].
  intros H. injection H as <-. cbn. repeat split.
Qed.

Lemma expandVint_defined (chunk : Buffer) (offset n : Z) :
  vintLength chunk offset = Val n ->
  expandVint chunk offset (offset + n) =
    Val (expand_loop (Z.to_nat (offset + n - (offset + 1))) chunk (offset + 1)
           (Num (js_and (toInt32n (toNumber (at_ chunk offset)))
                   (js_shl 1 (8 - n) - 1)))).
Proof.
  intros H. unfold expandVint. rewrite H.
  destruct (vintLength_Val _ _ _ H) as [_ Hb].
  destruct (Z.gtb_spec (offset + n) (blen chunk)); [lia|reflexivity].
Qed.

(** X3.  A vint of at most four bytes is always read as a number that is
    not negative: [expandVint] gives an integer below [2^(7*n)], never [NaN]
    nor [TOO_SHORT], and [_readTagDataSize] returns it with the offset
    [offset + n]. *)
Theorem short_length_fields_are_nonnegative
  (chunk : Buffer) (offset n : Z) :
  0 <= offset -> vintLength chunk offset = Val n -> n <= 4 ->
  exists d,
    0 <= d < 2 ^ (7 * n)
    /\ expandVint chunk offset (offset + n) = Val (Num d)
    /\ _readTagDataSize chunk offset =
         Val {| size_offset := offset + n; dataLength := Val (Num d);
                sizeLength := n |}.
Proof.
  intros Ho V Hs.
  destruct (vintLength_Val _ _ _ V) as [Hn Hb].
  unfold _readTagDataSize. rewrite V, (expandVint_defined _ _ _ V).
  destruct (at_inside chunk offset ltac:(lia)) as (c & Hc & Hcr).
  rewrite Hc. cbn [toNumber toInt32n].
  rewrite toInt32_small by lia.
  rewrite js_and_mask by lia.
  assert (Hm := Z.mod_pos_bound c (2 ^ (8 - n))
                  ltac:(apply Z.pow_pos_nonneg; lia)).
  destruct (expand_loop_bound
              (Z.to_nat (offset + n - (offset + 1))) chunk
              (offset + 1) (c mod 2 ^ (8 - n)) (8 - n))
    as (x & Hx & Hxr); try lia.
  exists x. rewrite Hx. split; [|split; reflexivity].
  replace (7 * n)
    with (8 - n + 8 * Z.of_nat (Z.to_nat (offset + n - (offset + 1))))
    by lia.
  exact Hxr.
Qed.

Lemma short_length_fields_witness :
  exists d,
    0 <= d < 2 ^ (7 * 2)
    /\ expandVint [xa3; x41; x2c] 1 (1 + 2) = Val (Num d)
    /\ _readTagDataSize [xa3; x41; x2c] 1 =
         Val {| size_offset := 1 + 2; dataLength := Val (Num d);
                sizeLength := 2 |}.
Proof.
  apply (short_length_fields_are_nonnegative [xa3; x41; x2c] 1 2);
    [lia|vm_compute; reflexivity|lia].
Defined.

Lemma header_len_defined (b : Buffer) (off : Z) (h : Header) :
  header b off = Val h -> exists d, h_len h = Val d.
Proof.
  unfold header. destruct (_readEBMLId b off) as [|idd]; [discriminate|].
  destruct (_readTagDataSize b (id_offset idd)) as [|sd] eqn:E; [discriminate|].
  intros H. injection H as <-. cbn [h_len].
  destruct (readTagDataSize_inv _ _ _ E) as (V & _ & D).
  rewrite D, (expandVint_defined _ _ _ V). eexists. reflexivity.
Qed.

(** ** Exceptions *)

Lemma readTag_3errors (b : Buffer) (o : Z) :
  keeps (fun _ => True)
    (fun e => e = EBML_NOT_FOUND \/ e = NOT_OPUS \/ e = NO_AUDIO_TRACK)
    (_readTag b o).
Proof.
  intros s _.
  destruct (_readEBMLId b o) as [|idd] eqn:E1.
  { rewrite (readTag_short_id _ _ _ E1). exact Logic.I. }
  destruct (gate_fails s (toHex (id idd))) eqn:G.
  { rewrite (readTag_gate_fails _ _ _ _ E1 G). split; [exact Logic.I|]. left. reflexivity. }
  destruct (_readTagDataSize b (id_offset idd)) as [|sd] eqn:E2.
  { rewrite (readTag_short_size _ _ _ _ E1 G E2). exact Logic.I. }
  assert (EH : header b o
               = Val (mkHeader (toHex (id idd)) (size_offset sd) (dataLength sd))).
  { rewrite (header_id _ _ _ E1), E2. reflexivity. }
  destruct (header_len_defined _ _ _ EH) as [d Hd]. cbn [h_len] in Hd.
  rewrite (readTag_header _ _ _ _ EH G). cbn [h_id h_data h_len].
  rewrite Hd.
  destruct (lookup (toHex (id idd)) TAGS) as [[|]|].
  - exact Logic.I.
  - unfold bind, add_dataLength, ret.
    destruct (ngt _ _); [exact Logic.I|].
    unfold leaf, bind.
    match goal with |- context [discover ?i ?x ?s] =>
      destruct (discover_result i x s) as (s1 & -> & _);
      pose proof (dispatch_result i x s1) as R;
      destruct (dispatch i x s1) as [u s2|e s2|]
    end.
    + exact Logic.I.
    + split; [exact Logic.I|]. destruct R as (_ & [[-> _]|[-> _]]); auto.
    + destruct R.
  - unfold bind, add_dataLength, ret, this.
    destruct (ngt _ _); exact Logic.I.
Qed.

(** X7.  Whatever is written, in whatever state, the only exceptions are
    the three the source throws.  In particular [TOO_SHORT] never reaches an
    addition: when [_readTagDataSize] returns an object, its [dataLength]
    is a number. *)
Theorem only_the_three_errors_are_thrown
  (fuel : nat) (chunks : list Buffer) (s : Demuxer) :
  match run fuel chunks s with
  | Throw e _ => e = EBML_NOT_FOUND \/ e = NOT_OPUS \/ e = NO_AUDIO_TRACK
  | _ => True
  end.
Proof.
  pose proof (keeps_run (fun _ => True)
                (fun e => e = EBML_NOT_FOUND \/ e = NOT_OPUS \/ e = NO_AUDIO_TRACK)
                fuel chunks
                ltac:(intros ? ? ? ? ? ? ?; exact Logic.I)
                readTag_3errors s Logic.I) as H.
  destruct (run fuel chunks s); try exact Logic.I. apply H.
Qed.

(** X17.  The check for the EBML header is made once: in a state where the
    header has been seen, whatever is written, [_ebmlFound] stays true and
    the exception for a missing header is not thrown. *)
Theorem header_is_checked_once
  (fuel : nat) (chunks : list Buffer) (s : Demuxer) :
  _ebmlFound s = true ->
  match run fuel chunks s with
  | Ok _ s' => _ebmlFound s' = true
  | Throw e s' => _ebmlFound s' = true /\ e <> EBML_NOT_FOUND
  | OutOfFuel => True
  end.
Proof.
  intros Hg.
  pose proof (keeps_run gate_open (fun e => e <> EBML_NOT_FOUND) fuel chunks
                parse_only_gate_open gate_keeps_readTag s Hg) as H.
  destruct (run fuel chunks s) as [u s'|e s'|]; exact H.
Qed.

Lemma header_is_checked_once_witness :
  _ebmlFound (after_preamble 13) = true
  /\ match run 20 [[x18; x53; x80; x67; x80]; vorbis_tag] (after_preamble 13) with
     | Ok _ s' => _ebmlFound s' = true
     | Throw e s' => _ebmlFound s' = true /\ e <> EBML_NOT_FOUND
     | OutOfFuel => True
     end.
Proof.
  split; [reflexivity|].
  apply (header_is_checked_once 20 [[x18; x53; x80; x67; x80]; vorbis_tag]
           (after_preamble 13)).
  reflexivity.
Defined.

(** ** The track, once found *)

Lemma dispatch_parse (ebmlID : string) (data : Buffer) (s : Demuxer) :
  match dispatch ebmlID data s with
  | Ok _ s1 | Throw _ s1 =>
      _track s1 = _track s /\ _incompleteTrack s1 = _incompleteTrack s
      /\ _ebmlFound s1 = _ebmlFound s
  | OutOfFuel => False
  end.
Proof.
  pose proof (dispatch_result ebmlID data s) as R.
  destruct (dispatch ebmlID data s) as [u s1|e s1|].
  - destruct R as [->|(t & n & -> & _)]; repeat split.
  - destruct R as [-> _]. repeat split.
  - exact R.
Qed.

Lemma keeps_dispatch_fields (I : Demuxer -> Prop) (ebmlID : string)
  (data : Buffer) :
  (forall s s', _track s' = _track s ->
     _incompleteTrack s' = _incompleteTrack s -> I s -> I s') ->
  keeps I (fun _ => True) (dispatch ebmlID data).
Proof.
  intros HI s Hs. pose proof (dispatch_parse ebmlID data s) as R.
  destruct (dispatch ebmlID data s) as [u s1|e s1|]; cbn [holds].
  - destruct R as (A & B & _). exact (HI _ _ A B Hs).
  - destruct R as (A & B & _). split; [exact (HI _ _ A B Hs)|exact Logic.I].
  - exact Logic.I.
Qed.

Lemma track_fixed_keeps_readTag (t inc : TrackInfo) (b : Buffer) (o : Z) :
  keeps (track_fixed t inc) (fun e => e <> NO_AUDIO_TRACK) (_readTag b o).
Proof.
  apply keeps_readTag.
  - discriminate.
  - intros s ebmlID Hs _. destruct (ebmlID =? "1a45dfa3")%string;
      [exact Hs|discriminate].
  - intros ebmlID data s Hs.
    destruct (discover_result ebmlID data s) as (s1 & E & _ & _ & K & _).
    rewrite E. cbn [holds].
    rewrite (K ltac:(destruct Hs as [-> _]; discriminate)). exact Hs.
  - intros ebmlID data s Hs.
    pose proof (dispatch_parse ebmlID data s) as P.
    pose proof (dispatch_result ebmlID data s) as R.
    destruct Hs as [H1 H2].
    destruct (dispatch ebmlID data s) as [u s1|e s1|]; cbn [holds].
    + destruct P as (A & B & _). split; congruence.
    + destruct P as (A & B & _). split; [split; congruence|].
      destruct R as (_ & [[-> _]|(_ & _ & Hn)]); [discriminate|congruence].
    + exact Logic.I.
Qed.

Lemma parse_only_track_fixed (t inc : TrackInfo) : parse_only (track_fixed t inc).
Proof. intros s s' A B _ _ [H1 H2]. split; congruence. Qed.

(** X14.  Once a track has been found, nothing that is written afterwards
    changes [_track] or [_incompleteTrack], and the exception for a block
    without a track is not thrown any more. *)
Theorem track_is_never_replaced
  (fuel : nat) (chunks : list Buffer) (s : Demuxer) (t : TrackInfo) :
  _track s = Some t ->
  match run fuel chunks s with
  | Ok _ s' =>
      _track s' = Some t /\ _incompleteTrack s' = _incompleteTrack s
  | Throw e s' =>
      _track s' = Some t /\ _incompleteTrack s' = _incompleteTrack s
      /\ e <> NO_AUDIO_TRACK
  | OutOfFuel => True
  end.
Proof.
  intros Ht.
  pose proof (keeps_run (track_fixed t (_incompleteTrack s))
                (fun e => e <> NO_AUDIO_TRACK)
                fuel chunks (parse_only_track_fixed _ _)
                (track_fixed_keeps_readTag _ _) s (conj Ht eq_refl)) as H.
  destruct (run fuel chunks s) as [u s'|e s'|]; cbn [holds] in H;
    [exact H| |exact Logic.I].
  destruct H as [[H1 H2] H3]. repeat split; assumption.
Qed.

Lemma track_is_never_replaced_witness :
  _track (after_preamble 13) = Some (mkTrack (Some 3) (Some 2))
  /\ match run 20 [[xae; x86; xd7; x81; x05; x83; x81; x02]]
             (after_preamble 13) with
     | Ok _ s' =>
         _track s' = Some (mkTrack (Some 3) (Some 2))
         /\ _incompleteTrack s' = _incompleteTrack (after_preamble 13)
     | Throw e s' =>
         _track s' = Some (mkTrack (Some 3) (Some 2))
         /\ _incompleteTrack s' = _incompleteTrack (after_preamble 13)
         /\ e <> NO_AUDIO_TRACK
     | OutOfFuel => True
     end.
Proof.
  split; [reflexivity|].
  apply (track_is_never_replaced 20 [[xae; x86; xd7; x81; x05; x83; x81; x02]]
           (after_preamble 13) (mkTrack (Some 3) (Some 2))).
  reflexivity.
Defined.

Lemma discover_sound (ebmlID : string) (data : Buffer) :
  keeps track_sound (fun _ => True) (discover ebmlID data).
Proof.
  intros s [H1 H2].
  unfold discover, bind, this, when, modify, ret.
  destruct (_track s) as [t|] eqn:Et.
  { cbn [holds]. split; [rewrite Et; exact H1|exact H2]. }
  assert (R : forall n, at_ data 0 = Some n -> 0 <= n <= 255).
  { intros n Hn. destruct (at_range _ _ _ Hn). lia. }
  destruct (_incompleteTrack s) as [num ty] eqn:Ei. cbn [number type] in H2.
  destruct (at_ data 0) as [a|] eqn:Ea;
  destruct (ebmlID =? "ae")%string, (ebmlID =? "d7")%string,
    (ebmlID =? "83")%string;
    cbn [_incompleteTrack set_incompleteTrack type number];
    rewrite ?Ei; cbn [type number];
    repeat match goal with
    | |- context [match ?x with _ => _ end] => destruct x
    end;
    cbn [holds]; unfold track_sound;
    cbn [_track _incompleteTrack set_track set_incompleteTrack type number];
    rewrite ?Et, ?Ei; cbn [type number];
    (split;
     [ intros t' Ht'; try discriminate;
       injection Ht' as <-; cbn [type number];
       (split; [reflexivity|split; [reflexivity|eexists; split; [reflexivity|]]]);
       first [apply H2; reflexivity | apply R; reflexivity]
     | intros n' Hn'; try discriminate;
       first [apply H2; exact Hn' | apply R; exact Hn'] ]).
Qed.

Lemma track_sound_keeps_readTag (b : Buffer) (o : Z) :
  keeps track_sound (fun _ => True) (_readTag b o).
Proof.
  apply keeps_readTag.
  - exact Logic.I.
  - intros s ebmlID Hs _. destruct (ebmlID =? "1a45dfa3")%string;
      [exact Hs|exact Logic.I].
  - exact discover_sound.
  - intros ebmlID data. apply keeps_dispatch_fields.
    intros s s' A B [H1 H2]. unfold track_sound. rewrite A, B. split; assumption.
Qed.

Lemma parse_only_track_sound : parse_only track_sound.
Proof.
  intros s s' A B _ _ [H1 H2]. unfold track_sound. rewrite A, B.
  split; assumption.
Qed.

(** X15.  Whatever is written to a new demuxer, the track found, if any, is
    the accumulator itself, its type is 2 and its number is a byte. *)
Theorem selected_track_is_the_audio_accumulator
  (fuel : nat) (chunks : list Buffer) :
  match run fuel chunks init with
  | Ok _ s | Throw _ s =>
      forall t, _track s = Some t ->
        _incompleteTrack s = t /\ type t = Some 2
        /\ exists n, number t = Some n /\ 0 <= n <= 255
  | OutOfFuel => True
  end.
Proof.
  assert (I0 : track_sound init).
  { split; [intros t Ht|intros n Hn]; discriminate. }
  pose proof (keeps_run track_sound (fun _ => True) fuel chunks
                parse_only_track_sound track_sound_keeps_readTag init I0) as H.
  destruct (run fuel chunks init) as [u s|e s|]; cbn [holds] in H;
    [apply H|apply H|exact Logic.I].
Qed.

(** ** Bookkeeping *)

Lemma preserves_readTag (b : Buffer) (o : Z) : preserves (_readTag b o).
Proof.
  intros s.
  destruct (_readEBMLId b o) as [|idd] eqn:E1.
  { rewrite (readTag_short_id _ _ _ E1). apply same_frame_refl. }
  destruct (gate_fails s (toHex (id idd))) eqn:G.
  { rewrite (readTag_gate_fails _ _ _ _ E1 G). apply same_frame_refl. }
  destruct (_readTagDataSize b (id_offset idd)) as [|sd] eqn:E2.
  { rewrite (readTag_short_size _ _ _ _ E1 G E2). apply same_frame_gate. }
  assert (EH : header b o
               = Val (mkHeader (toHex (id idd)) (size_offset sd) (dataLength sd))).
  { rewrite (header_id _ _ _ E1), E2. reflexivity. }
  destruct (header_len_defined _ _ _ EH) as [d Hd]. cbn [h_len] in Hd.
  rewrite (readTag_header _ _ _ _ EH G). cbn [h_id h_data h_len].
  rewrite Hd.
  destruct (lookup (toHex (id idd)) TAGS) as [[|]|].
  - apply same_frame_gate.
  - unfold bind, add_dataLength, ret.
    destruct (ngt _ _); [apply same_frame_gate|].
    match goal with |- context [leaf ?i ?x ?s] =>
      pose proof (preserves_leaf i x s) as R;
      destruct (leaf i x s) as [u s2|e s2|]
    end.
    + exact (same_frame_trans _ _ _ (same_frame_gate s) R).
    + exact (same_frame_trans _ _ _ (same_frame_gate s) R).
    + exact R.
  - unfold bind, add_dataLength, ret, this.
    destruct (ngt _ _); apply same_frame_gate.
Qed.

Lemma walk_bookkeeping (fuel : nat) : forall (b : Buffer) (o : Z) (s : Demuxer),
  match walk fuel b o s with
  | Ok _ s1 | Throw _ s1 =>
      _length s1 = _length s /\ _count s1 = _count s
      /\ _remainder s1 = _remainder s
  | OutOfFuel => True
  end.
Proof.
  induction fuel as [|fuel IH]; intros b o s; [exact Logic.I|].
  rewrite walk_step. pose proof (preserves_readTag b o s) as R.
  destruct (_readTag b o s) as [[|r] s1|e s1|].
  - destruct R as (A & B & C & _). auto.
  - destruct R as (A & B & C & _).
    destruct (truthy_value (res_skipUntil r)); [cbn; auto|].
    destruct (truthy_value (Some (res_offset r))) as [o'|]; [|auto].
    specialize (IH b o' s1).
    destruct (walk fuel b o' s1) as [u s2|e s2|]; [| |exact Logic.I];
      destruct IH as (A' & B' & C'); repeat split; congruence.
  - destruct R as (A & B & C & _). auto.
  - exact Logic.I.
Qed.

Lemma transform_length (fuel : nat) (c : Buffer) (s : Demuxer) :
  match _transform fuel c s with
  | Ok _ s' | Throw _ s' => _length s' = _length s + blen c
  | OutOfFuel => True
  end.
Proof.
  rewrite transform_unfold. cbv zeta.
  destruct (active_skip s) as [u|].
  - destruct (_length s + blen c >? u); [|reflexivity].
    match goal with |- context [walk ?f ?b ?o ?x] =>
      pose proof (walk_bookkeeping f b o x) as R;
      destruct (walk f b o x) as [o1 s1|e s1|]
    end; cbn [finish]; [| |exact Logic.I];
      destruct R as (A & _); cbn in A |- *; exact A.
  - match goal with |- context [walk ?f ?b ?o ?x] =>
      pose proof (walk_bookkeeping f b o x) as R;
      destruct (walk f b o x) as [o1 s1|e s1|]
    end; cbn [finish]; [| |exact Logic.I];
      destruct R as (A & _); cbn in A |- *; exact A.
Qed.

(** X11.  [_length] counts every byte written, whatever the bytes are. *)
Theorem length_counts_every_byte (fuel : nat) (chunks : list Buffer) :
  forall (s s' : Demuxer),
  run fuel chunks s = Ok tt s' ->
  _length s' = _length s + blen (List.concat chunks).
Proof.
  induction chunks as [|c rest IH]; intros s s' H.
  - injection H as <-. cbn. lia.
  - cbn [run] in H. unfold bind in H.
    pose proof (transform_length fuel c s) as T.
    destruct (_transform fuel c s) as [u s1|e s1|]; try discriminate.
    rewrite (IH _ _ H), T. cbn [List.concat]. rewrite blen_app. lia.
Qed.

Lemma length_counts_witness :
  _length (set_remainder (Some [x1a; x45; xdf]) (fresh 3))
  = _length init + blen (List.concat [[x1a]; [x45; xdf]]).
Proof.
  apply (length_counts_every_byte 5 [[x1a]; [x45; xdf]] init).
  vm_compute. reflexivity.
Defined.

(** ** Progress *)

(** X8.  When the tag at [offset] is entered or declares a length that is
    not negative, the offset [_readTag] returns is at least two bytes further
    and not after the end of the buffer; [_readTag] leaves [_count],
    [_length], [_remainder] and [_skipUntil] as they are. *)
Theorem readTag_moves_forward
  (chunk : Buffer) (offset : Z) (s s' : Demuxer) (r : TagResult) :
  tag_ok chunk offset ->
  _readTag chunk offset s = Ok (Val r) s' ->
  (exists o', res_offset r = Num o' /\ offset + 2 <= o' <= blen chunk)
  /\ same_frame s s'.
Proof.
  intros Hok H. pose proof (readTag_result chunk offset s Hok) as R.
  rewrite H in R. destruct R as (F & h & Hh & R). split; [|exact F].
  pose proof (header_bounds _ _ _ Hh) as B.
  destruct (res_skipUntil r) as [u|].
  - destruct R as (d & _ & _ & _ & _ & -> & _). eexists. split; [reflexivity|lia].
  - destruct R as [[_ ->]|[_ (d & _ & Hd & -> & Hle)]];
      eexists; (split; [reflexivity|lia]).
Qed.

Lemma readTag_moves_forward_witness :
  (exists o', res_offset (mkTagResult (Num 7) None) = Num o'
              /\ 0 + 2 <= o' <= blen block_tag)
  /\ same_frame (after_preamble 7) (push [xaa] (after_preamble 7)).
Proof.
  apply (readTag_moves_forward block_tag 0 (after_preamble 7)
           (push [xaa] (after_preamble 7)) (mkTagResult (Num 7) None)).
  - unfold tag_ok.
    replace (header block_tag 0) with (Val (mkHeader "a3" 2 (Val (Num 5))))
      by (vm_compute; reflexivity).
    right. exists 5. split; [reflexivity|lia].
  - vm_compute. reflexivity.
Defined.

(** ** A length that points backwards *)

(** X9.  A declared length may be read as a negative number (X3 stops at
    four bytes).  When the end of an unknown tag computed from such a length
    is the start of the tag, and that start is not offset 0, the loop of
    [_transform] reads the same tag again and again: no amount of fuel lets
    [walk] return.  [backward_stream] is such an input for a new demuxer. *)
Theorem backward_length_never_terminates
  (fuel : nat) (chunk : Buffer) (offset : Z) (s : Demuxer) (h : Header) (d : Z) :
  _ebmlFound s = true ->
  header chunk offset = Val h ->
  lookup (h_id h) TAGS = None ->
  h_len h = Val (Num d) ->
  h_data h + d = offset ->
  offset <> 0 ->
  walk fuel chunk offset s = OutOfFuel.
Proof.
  intros Hg Hh Hl Hd Hback Hnz.
  assert (G : gate_fails s (h_id h) = false)
    by (unfold gate_fails; rewrite Hg; reflexivity).
  assert (Gs : gate s = s) by (unfold gate; rewrite Hg; reflexivity).
  pose proof (header_bounds _ _ _ Hh) as B.
  induction fuel as [|fuel IH]; [reflexivity|].
  rewrite walk_step, (readTag_unknown _ _ _ _ d Hh G Hl Hd), Hback, Gs.
  destruct (Z.gtb_spec (blen chunk) offset); [|lia].
  cbn [res_skipUntil res_offset]. rewrite truthy_None, truthy_Num by exact Hnz.
  exact IH.
Qed.

Lemma backward_length_witness :
  header backward_stream 5 = Val (mkHeader "ec" 11 (Val (Num (-6))))
  /\ forall fuel, run fuel [backward_stream] init = OutOfFuel.
Proof.
  split; [vm_compute; reflexivity|].
  intros fuel. cbn [run]. unfold bind. rewrite transform_unfold. cbv zeta.
  change (active_skip init) with (@None Z).
  change (pending (_remainder init) ++ backward_stream) with backward_stream.
  destruct fuel as [|fuel]; [reflexivity|].
  rewrite walk_step.
  replace (_readTag backward_stream 0
             (set_remainder None
                (set_length (_length init + blen backward_stream) init)))
    with (Ok (Val (mkTagResult (Num 5) None))
            (set_ebmlFound true (set_length 11 init)))
    by (vm_compute; reflexivity).
  cbn [res_skipUntil res_offset]. rewrite truthy_None, truthy_Num by lia.
  rewrite (backward_length_never_terminates fuel backward_stream 5
             (set_ebmlFound true (set_length 11 init))
             (mkHeader "ec" 11 (Val (Num (-6)))) (-6));
    vm_compute; (reflexivity || discriminate).
Defined.

(** ** The remainder *)

(** X10.  After any chunking of a well-formed stream has been written
    without exception, [_length] is the number of bytes received, [_count] is
    a position in the stream and [_remainder] is exactly the stream from that
    position on: no byte is lost or kept twice.  A skip target still set is
    not before the end of the bytes received. *)
Theorem remainder_is_the_unread_suffix
  (stream : Buffer) (chunks : list Buffer) (fuel : nat) :
  well_formed stream ->
  List.concat chunks = stream ->
  (List.length stream < fuel)%nat ->
  match run fuel chunks init with
  | Ok _ s =>
      synced s stream
      /\ forall e, _skipUntil s = Some e -> blen stream <= e
  | Throw _ _ => True
  | OutOfFuel => False
  end.
Proof.
  intros Hwf Hc Hf. destruct fuel as [|fuel]; [lia|].
  assert (Hwf' : well_formed_from (S fuel) stream 0 = true).
  { apply (wf_mono (S (List.length stream))); [exact Hwf|lia]. }
  pose proof (run_tracks (S fuel) chunks [] init (tracks_init fuel)) as R.
  cbn [app] in R. rewrite Hc in R. specialize (R Hwf').
  destruct (run (S fuel) chunks init) as [u s|e s|]; [|exact Logic.I|exact R].
  destruct R as (o & s1 & r & cnt & Hw & -> & Hcase).
  pose proof (walk_result (S fuel) stream 0 (fresh (blen stream)) Hwf'
                (Z.le_refl 0) (Z.le_refl 0)) as W.
  rewrite Hw in W. destruct W as (Ho & Hob & Hcnt & Hlen & _ & Hskip).
  pose proof (blen_nonneg stream) as Hn. specialize (Hob Hn).
  cbn [_count fresh set_length init] in Hcnt.
  cbn [_length fresh set_length init] in Hlen.
  split.
  - unfold synced. cbn [_length _count _remainder set_remainder set_count].
    destruct Hcase as [[-> Hp]|(e & _ & -> & Hp)].
    + repeat split; try assumption.
    + repeat split; try assumption; try lia.
      rewrite Hp. unfold blen. rewrite Nat2Z.id, skipn_all. reflexivity.
  - intros e He. cbn [_skipUntil set_remainder set_count] in He.
    destruct Hskip as [Hs|(e' & Hs & Hle & _)]; rewrite Hs in He.
    + discriminate.
    + injection He as <-. cbn [_count fresh set_length init]. lia.
Qed.

Lemma remainder_witness :
  match run 36 sample_chunks init with
  | Ok _ s =>
      synced s sample_stream
      /\ forall e, _skipUntil s = Some e -> blen sample_stream <= e
  | Throw _ _ => True
  | OutOfFuel => False
  end.
Proof.
  apply (remainder_is_the_unread_suffix sample_stream sample_chunks 36).
  - vm_compute. reflexivity.
  - reflexivity.
  - vm_compute. lia.
Defined.

(** ** The codec tag *)

(** X16.  Past the header gate, a tag [63a2] whose payload is in the buffer
    and starts with the eight bytes of "OpusHead" is stepped over: no
    exception, and the state is left as it is. *)
Theorem opus_codec_is_accepted
  (chunk : Buffer) (offset : Z) (s : Demuxer) (h : Header) (d : Z) :
  _ebmlFound s = true ->
  consistent s ->
  header chunk offset = Val h ->
  h_id h = "63a2"%string ->
  h_len h = Val (Num d) ->
  h_data h + d <= blen chunk ->
  buffer_equals
    (slice (slice chunk (Num (h_data h)) (Num (h_data h + d))) (Num 0) (Num 8))
    OPUS_HEAD = true ->
  _readTag chunk offset s = Ok (Val (mkTagResult (Num (h_data h + d)) None)) s.
Proof.
  intros Hg Hc Hh Hid Hd Hfull Heq.
  assert (G : gate_fails s (h_id h) = false).
  { unfold gate_fails. rewrite Hg. reflexivity. }
  assert (L : lookup (h_id h) TAGS = Some false) by (rewrite Hid; reflexivity).
  rewrite (readTag_leaf _ _ _ _ d Hh G L Hd).
  destruct (Z.gtb_spec (h_data h + d) (blen chunk)); [lia|].
  unfold gate. rewrite Hg, Hid. unfold leaf, bind.
  assert (D : forall data, discover "63a2" data s = Ok tt s).
  { intros data. unfold discover, bind, this, when, modify, ret.
    destruct (_track s) as [t|] eqn:Et; [reflexivity|].
    cbn [String.eqb Ascii.eqb Bool.eqb].
    specialize (Hc Et). unfold promotable in Hc.
    destruct (type (_incompleteTrack s)) as [[|[p|[p|p|]|]|p]|]; try reflexivity.
    destruct (number (_incompleteTrack s)); [|reflexivity].
    exfalso. apply Hc. split; [reflexivity|discriminate]. }
  rewrite D. unfold dispatch. cbn [String.eqb Ascii.eqb Bool.eqb].
  rewrite Heq. reflexivity.
Qed.

Lemma opus_codec_witness :
  _readTag opus_tag 0 (set_ebmlFound true init)
  = Ok (Val (mkTagResult (Num (3 + 10)) None)) (set_ebmlFound true init).
Proof.
  apply (opus_codec_is_accepted opus_tag 0 (set_ebmlFound true init)
           (mkHeader "63a2" 3 (Val (Num 10))) 10);
    try (vm_compute; reflexivity).
  - intros _ [H _]. discriminate.
  - vm_compute. discriminate.
Defined.

(** ** Input that stops inside the first ID *)

Lemma readEBMLId_prefix (b c : Buffer) :
  _readEBMLId (b ++ c) 0 = TOO_SHORT -> _readEBMLId b 0 = TOO_SHORT.
Proof.
  intros H. destruct (_readEBMLId b 0) as [|idd] eqn:E; [reflexivity|].
  rewrite (readEBMLId_app b c 0 idd (Z.le_refl 0) E) in H. discriminate.
Qed.

Lemma kept_run (fuel : nat) (chunks : list Buffer) :
  forall (P : Buffer) (r : option Buffer),
  pending r = P ->
  _readEBMLId (P ++ List.concat chunks) 0 = TOO_SHORT ->
  chunks <> [] ->
  run (S fuel) chunks (set_remainder r (fresh (blen P)))
  = Ok tt (set_remainder (Some (P ++ List.concat chunks))
             (fresh (blen (P ++ List.concat chunks)))).
Proof.
  induction chunks as [|c rest IH]; intros P r Hr Hshort Hne; [congruence|].
  cbn [run List.concat] in *. unfold bind.
  rewrite transform_unfold. cbv zeta.
  change (active_skip (set_remainder r (fresh (blen P)))) with (@None Z).
  cbn [_remainder set_remainder]. rewrite Hr.
  assert (Hpc : _readEBMLId (P ++ c) 0 = TOO_SHORT).
  { apply (readEBMLId_prefix _ (List.concat rest)).
    rewrite <- app_assoc. exact Hshort. }
  rewrite walk_step, (readTag_short_id _ _ _ Hpc). cbn [finish].
  rewrite slice_from_nonneg by lia. cbn [Z.to_nat skipn].
  match goal with |- run _ _ ?x = _ =>
    replace x with (set_remainder (Some (P ++ c)) (fresh (blen (P ++ c))))
      by (rewrite blen_app; reflexivity)
  end.
  destruct rest as [|c' rest'].
  - cbn [run List.concat]. rewrite app_nil_r. reflexivity.
  - rewrite (IH (P ++ c) (Some (P ++ c)) eq_refl);
      [rewrite <- app_assoc; reflexivity
      |rewrite <- app_assoc; exact Hshort|discriminate].
Qed.

(** X6.  As long as the bytes received do not hold one whole ID, nothing
    is decided: no exception (not even for bytes that cannot start an EBML
    header), nothing pushed, [_count] stays at 0 and [_remainder] holds all
    the bytes received. *)
Theorem input_shorter_than_an_id_is_kept
  (fuel : nat) (chunks : list Buffer) :
  (0 < fuel)%nat ->
  chunks <> [] ->
  _readEBMLId (List.concat chunks) 0 = TOO_SHORT ->
  run fuel chunks init
  = Ok tt {| _remainder := Some (List.concat chunks);
             _length := blen (List.concat chunks);
             _count := 0; _skipUntil := None; _track := None;
             _incompleteTrack := mkTrack None None;
             _ebmlFound := false; pushed := [] |}.
Proof.
  intros Hf Hne Hs. destruct fuel as [|fuel]; [lia|].
  exact (kept_run fuel chunks [] None eq_refl Hs Hne).
Qed.

Lemma input_shorter_than_an_id_witness :
  run 1 [[x18]; []; [x53; x80]] init
  = Ok tt {| _remainder := Some (List.concat [[x18]; []; [x53; x80]]);
             _length := blen (List.concat [[x18]; []; [x53; x80]]);
             _count := 0; _skipUntil := None; _track := None;
             _incompleteTrack := mkTrack None None;
             _ebmlFound := false; pushed := [] |}.
Proof.
  apply (input_shorter_than_an_id_is_kept 1 [[x18]; []; [x53; x80]]);
    [lia|discriminate|vm_compute; reflexivity].
Defined.

(** ** Data that arrives later *)

(** X5.  A tag header that could be read from a buffer is read the same
    from that buffer followed by more data: the ID, the length and the
    offsets do not depend on the bytes that arrive later. *)
Theorem headers_do_not_change_when_data_arrives
  (chunk more : Buffer) (offset : Z) (h : Header) :
  0 <= offset ->
  header chunk offset = Val h ->
  header (chunk ++ more) offset = Val h
  /\ exists idd sd,
       _readEBMLId chunk offset = Val idd
       /\ _readEBMLId (chunk ++ more) offset = Val idd
       /\ _readTagDataSize chunk (id_offset idd) = Val sd
       /\ _readTagDataSize (chunk ++ more) (id_offset idd) = Val sd.
Proof.
  intros Ho Hh. split; [exact (header_app _ _ _ _ Ho Hh)|].
  unfold header in Hh.
  destruct (_readEBMLId chunk offset) as [|idd] eqn:E1; [discriminate|].
  destruct (_readTagDataSize chunk (id_offset idd)) as [|sd] eqn:E2;
    [discriminate|].
  exists idd, sd.
  split; [reflexivity|]. split; [exact (readEBMLId_app _ _ _ _ Ho E1)|].
  split; [exact E2|exact (readTagDataSize_app _ _ _ _ E2)].
Qed.

Lemma headers_do_not_change_witness :
  header (block_tag ++ [xa3; x81]) 0 = Val (mkHeader "a3" 2 (Val (Num 5)))
  /\ exists idd sd,
       _readEBMLId block_tag 0 = Val idd
       /\ _readEBMLId (block_tag ++ [xa3; x81]) 0 = Val idd
       /\ _readTagDataSize block_tag (id_offset idd) = Val sd
       /\ _readTagDataSize (block_tag ++ [xa3; x81]) (id_offset idd) = Val sd.
Proof.
  apply (headers_do_not_change_when_data_arrives block_tag [xa3; x81] 0
           (mkHeader "a3" 2 (Val (Num 5)))); [lia|vm_compute; reflexivity].
Defined.

(** ** Track numbers and track types *)

Lemma payload_first_byte (chunk : Buffer) (a d : Z) :
  0 <= a -> 0 <= d -> a + d <= blen chunk ->
  at_ (slice chunk (Num a) (Num (a + d))) 0
  = if d =? 0 then None else at_ chunk a.
Proof.
  intros Ha Hd Hb. rewrite slice_nonneg by lia.
  replace (a + d - a) with d by lia.
  destruct (Z.eqb_spec d 0) as [->|Hn]; [reflexivity|].
  destruct (Z.to_nat d) as [|n] eqn:En; [lia|].
  transitivity (at_ (skipn (Z.to_nat a) chunk) 0).
  - destruct (skipn (Z.to_nat a) chunk); reflexivity.
  - rewrite at_skipn by lia. f_equal. lia.
Qed.

Lemma discover_number (data : Buffer) (s : Demuxer) :
  _track s = None ->
  discover "d7" data s =
    let inc := mkTrack (at_ data 0) (type (_incompleteTrack s)) in
    Ok tt (promote inc (set_incompleteTrack inc s)).
Proof.
  intros Ht. unfold discover, bind, this, when, modify, ret, promote.
  rewrite Ht. cbn [String.eqb Ascii.eqb Bool.eqb].
  cbn [_incompleteTrack set_incompleteTrack type number].
  destruct (type (_incompleteTrack s)) as [[|[p|[p|p|]|]|p]|]; try reflexivity.
  destruct (at_ data 0); reflexivity.
Qed.

Lemma discover_type (data : Buffer) (s : Demuxer) :
  _track s = None ->
  discover "83" data s =
    let inc := mkTrack (number (_incompleteTrack s)) (at_ data 0) in
    Ok tt (promote inc (set_incompleteTrack inc s)).
Proof.
  intros Ht. unfold discover, bind, this, when, modify, ret, promote.
  rewrite Ht. cbn [String.eqb Ascii.eqb Bool.eqb].
  cbn [_incompleteTrack set_incompleteTrack type number].
  destruct (at_ data 0) as [[|[p|[p|p|]|]|p]|]; try reflexivity.
  destruct (number (_incompleteTrack s)); reflexivity.
Qed.

(** X12.  While no track has been found, a tag [d7] whose payload is in the
    buffer sets the number of the accumulator to the first byte of the
    payload, whatever the length of the payload ([undefined] when the payload
    is empty), keeps its type, and promotes it to [_track] when the type is 2
    and the number is defined. *)
Theorem track_number_is_the_first_payload_byte
  (chunk : Buffer) (offset : Z) (s : Demuxer) (h : Header) (d : Z) :
  0 <= offset ->
  _ebmlFound s = true ->
  _track s = None ->
  header chunk offset = Val h ->
  h_id h = "d7"%string ->
  h_len h = Val (Num d) ->
  0 <= d ->
  h_data h + d <= blen chunk ->
  let inc := mkTrack (if d =? 0 then None else at_ chunk (h_data h))
               (type (_incompleteTrack s)) in
  _readTag chunk offset s
  = Ok (Val (mkTagResult (Num (h_data h + d)) None))
      (promote inc (set_incompleteTrack inc s)).
Proof.
  intros Ho Hg Ht Hh Hid Hd Hd0 Hfull inc.
  assert (G : gate_fails s (h_id h) = false).
  { unfold gate_fails. rewrite Hg. reflexivity. }
  assert (L : lookup (h_id h) TAGS = Some false) by (rewrite Hid; reflexivity).
  pose proof (header_bounds _ _ _ Hh) as B.
  rewrite (readTag_leaf _ _ _ _ d Hh G L Hd).
  destruct (Z.gtb_spec (h_data h + d) (blen chunk)); [lia|].
  unfold gate. rewrite Hg, Hid. unfold leaf, bind.
  rewrite (discover_number _ _ Ht). cbv zeta.
  rewrite payload_first_byte by lia. reflexivity.
Qed.

Lemma track_number_witness :
  _readTag wide_number_tag 0 type_known
  = Ok (Val (mkTagResult (Num (2 + 2)) None))
      (promote (mkTrack (Some 1) (Some 2))
         (set_incompleteTrack (mkTrack (Some 1) (Some 2)) type_known)).
Proof.
  apply (track_number_is_the_first_payload_byte wide_number_tag 0 type_known
           (mkHeader "d7" 2 (Val (Num 2))) 2);
    try (vm_compute; reflexivity); try lia.
  vm_compute. discriminate.
Defined.

(** X13.  While no track has been found, a tag [83] whose payload is in the
    buffer sets the type of the accumulator to the first byte of the payload
    ([undefined] when the payload is empty), keeps its number, and promotes
    it to [_track] when the type is 2 and the number is defined. *)
Theorem track_type_is_the_first_payload_byte
  (chunk : Buffer) (offset : Z) (s : Demuxer) (h : Header) (d : Z) :
  0 <= offset ->
  _ebmlFound s = true ->
  _track s = None ->
  header chunk offset = Val h ->
  h_id h = "83"%string ->
  h_len h = Val (Num d) ->
  0 <= d ->
  h_data h + d <= blen chunk ->
  let inc := mkTrack (number (_incompleteTrack s))
               (if d =? 0 then None else at_ chunk (h_data h)) in
  _readTag chunk offset s
  = Ok (Val (mkTagResult (Num (h_data h + d)) None))
      (promote inc (set_incompleteTrack inc s)).
Proof.
  intros Ho Hg Ht Hh Hid Hd Hd0 Hfull inc.
  assert (G : gate_fails s (h_id h) = false).
  { unfold gate_fails. rewrite Hg. reflexivity. }
  assert (L : lookup (h_id h) TAGS = Some false) by (rewrite Hid; reflexivity).
  pose proof (header_bounds _ _ _ Hh) as B.
  rewrite (readTag_leaf _ _ _ _ d Hh G L Hd).
  destruct (Z.gtb_spec (h_data h + d) (blen chunk)); [lia|].
  unfold gate. rewrite Hg, Hid. unfold leaf, bind.
  rewrite (discover_type _ _ Ht). cbv zeta.
  rewrite payload_first_byte by lia. reflexivity.
Qed.

Lemma track_type_witness :
  _readTag empty_type_tag 0 number_known
  = Ok (Val (mkTagResult (Num (2 + 0)) None))
      (promote (mkTrack (Some 1) None)
         (set_incompleteTrack (mkTrack (Some 1) None) number_known)).
Proof.
  apply (track_type_is_the_first_payload_byte empty_type_tag 0 number_known
           (mkHeader "83" 2 (Val (Num 0))) 0);
    try (vm_compute; reflexivity); try lia.
  vm_compute. discriminate.
Defined.

